(** * cookpdf: the OCR conversion pipeline of [lib/ocr.ts]

    A shallow embedding of the conversion pipeline (configuration knobs,
    binarization, engine pool, font cache, document assembler, batch
    scheduler and orchestrator) and the properties its specification
    states about it.

    Conventions.
    - A JavaScript number is an IEEE-754 double: Rocq's primitive [float].
    - A JavaScript string is its sequence of UTF-16 code units: [list N].
    - A [Uint8ClampedArray] is a [list byte]; a write past its end is
      dropped, which is what stdpp's list insert does.
    - A plain object used as a dictionary is a [gmap], read through
      [Object.prototype] where the key comes from a request. *)

From Stdlib Require Import ZArith List Floats Lia Bool Ascii String DecimalString QArith Qround.
From Stdlib.Strings Require Import Byte.
From stdpp Require Import gmap strings list.

Set Warnings "-inexact-float".
Close Scope Q_scope.

(** ** JavaScript numbers *)

Module JSNumber.
Local Open Scope float_scope.

(** [Number.isFinite(n)] *)
Definition isFinite (n : float) : bool := is_finite n.

(** [Math.max(a, b)]: NaN when an argument is NaN, else the larger one,
    with [+0] ranked above [-0]. *)
Definition Math_max (a b : float) : float :=
  if is_nan a || is_nan b then nan
  else if a <? b then b
  else if b <? a then a
  else if get_sign a then b else a.

(** [Math.min(a, b)]: NaN when an argument is NaN, else the smaller one,
    with [-0] ranked below [+0]. *)
Definition Math_min (a b : float) : float :=
  if is_nan a || is_nan b then nan
  else if a <? b then a
  else if b <? a then b
  else if get_sign a then a else b.

End JSNumber.

(** ** JavaScript strings *)

Module JSString.

Abbreviation jsstring := (list N).

(** A string literal of the source, as the code units of its characters
    (all literals of [ocr.ts] are ASCII). *)
Definition js (s : string) : jsstring :=
  map N_of_ascii (list_ascii_of_string s).

(** White space and line terminators: what [String.prototype.trim] strips
    and what [\s] matches. *)
Definition isWhiteSpace (c : N) : bool :=
  ((9 <=? c) && (c <=? 13) || (c =? 32) || (c =? 160) || (c =? 0x1680)
   || (0x2000 <=? c) && (c <=? 0x200A) || (c =? 0x2028) || (c =? 0x2029)
   || (c =? 0x202F) || (c =? 0x205F) || (c =? 0x3000) || (c =? 0xFEFF))%N.

Fixpoint trimStart (s : jsstring) : jsstring :=
  match s with
  | c :: t => if isWhiteSpace c then trimStart t else s
  | [] => []
  end.

Definition trimEnd (s : jsstring) : jsstring := rev (trimStart (rev s)).

(** [s.trim()] *)
Definition trim (s : jsstring) : jsstring := trimEnd (trimStart s).

Fixpoint startsWith (s p : jsstring) : bool :=
  match p, s with
  | [], _ => true
  | c :: p', d :: s' => (c =? d)%N && startsWith s' p'
  | _ :: _, [] => false
  end.

(** [s.includes(sub)] *)
Fixpoint includes (s sub : jsstring) : bool :=
  startsWith s sub ||
  match s with
  | [] => false
  | _ :: t => includes t sub
  end.

(** [s.endsWith(suffix)] *)
Definition endsWith (s suffix : jsstring) : bool :=
  startsWith (rev s) (rev suffix).

(** [arr.join(sep)] *)
Fixpoint join (sep : jsstring) (l : list jsstring) : jsstring :=
  match l with
  | [] => []
  | [x] => x
  | x :: t => x ++ sep ++ join sep t
  end.

(** The decimal numeral of a natural number, as a template literal
    prints it. *)
Definition ofNat (n : nat) : jsstring :=
  js (DecimalString.NilZero.string_of_uint (Nat.to_uint n)).

(** A string is truthy when it is not empty. *)
Definition truthy (s : jsstring) : bool :=
  match s with [] => false | _ :: _ => true end.

End JSString.

Import JSNumber JSString.

(** ** Configuration knobs

    Each knob is computed once, at module load, from [process.env].
    [Number] is the host's string-to-number conversion and [toLowerCase]
    its lower-casing; nothing below depends on how they work. *)

Section Config.
Open Scope float_scope.

Variable Number : jsstring -> float.
Variable toLowerCase : jsstring -> jsstring.
Variable process_env : gmap string jsstring.

(** [raw ? Number(raw) : NaN] *)
Definition numberOrNaN (raw : option jsstring) : float :=
  match raw with
  | Some s => if truthy s then Number s else nan
  | None => nan
  end.

Definition RENDER_SCALE : float :=
  let raw := process_env !! "OCR_RENDER_SCALE"%string in
  let n := numberOrNaN raw in
  if negb (isFinite n) || (n <=? 0) then 2
  else Math_min (Math_max n 1.5) 3.

Definition AMHARIC_RENDER_SCALE : float := 1.5.

Definition BINARIZE_ENABLED : bool :=
  let raw := process_env !! "OCR_BINARIZE"%string in
  match raw with
  | Some s =>
      if truthy s then
        let val := toLowerCase s in
        bool_decide (val = js "1") || bool_decide (val = js "true")
        || bool_decide (val = js "yes")
      else false
  | None => false
  end.

Definition AMHARIC_BINARIZE_ENABLED : bool := true.

Definition BINARIZE_THRESHOLD : float :=
  let raw := process_env !! "OCR_BINARIZE_THRESHOLD"%string in
  let n := numberOrNaN raw in
  if negb (isFinite n) then 180
  else Math_min (Math_max n 0) 255.

Definition OCR_BATCH_SIZE : float :=
  let raw := process_env !! "OCR_BATCH_SIZE"%string in
  let n := numberOrNaN raw in
  if negb (isFinite n) || (n <=? 0) then 3
  else Math_min (Math_max n 1) 5.

End Config.

(** [Number(s)] for a string [s] of decimal digits denoting an integer below
    2^53, where the conversion is exact; used to write concrete settings. *)
Definition digitsNumber (s : jsstring) : float :=
  fold_left
    (fun acc c =>
       if ((48 <=? c) && (c <=? 57))%N
       then (acc * 10 + of_uint63 (Uint63.of_Z (Z.of_N (c - 48))))%float
       else nan)
    s 0%float.

(** Lower-casing restricted to ASCII letters; used to write concrete
    settings. *)
Definition asciiLowerCase (s : jsstring) : jsstring :=
  map (fun c => if ((65 <=? c) && (c <=? 90))%N then (c + 32)%N else c) s.

(** ** Preprocessor: binarization of a rendered page

    [context.getImageData] hands out the canvas pixels as an [ImageData]:
    RGBA bytes, four per pixel, row by row. *)

Record ImageData := { width : N; height : N; data : list byte }.

Section Binarize.

Variable BINARIZE_THRESHOLD : float.

Definition byteNumber (b : byte) : float :=
  of_uint63 (Uint63.of_Z (Z.of_N (Byte.to_N b))).

(** [data[i]] read as a number: [undefined], hence NaN, past the end. *)
Definition readNumber (data : list byte) (i : nat) : float :=
  match data !! i with
  | Some b => byteNumber b
  | None => nan
  end.

(** [0.299 * r + 0.587 * g + 0.114 * b], in double precision, left to
    right. *)
Definition gray (r g b : float) : float :=
  (0.299 * r + 0.587 * g + 0.114 * b)%float.

(** [gray >= BINARIZE_THRESHOLD ? 255 : 0] *)
Definition blackOrWhite (r g b : float) : byte :=
  if (BINARIZE_THRESHOLD <=? gray r g b)%float then Byte.xff else Byte.x00.

(** The body of the pixel loop at offset [idx]; the chained assignment
    stores right to left. *)
Definition binarizePixel (data : list byte) (idx : nat) : list byte :=
  let r := readNumber data idx in
  let g := readNumber data (idx + 1) in
  let b := readNumber data (idx + 2) in
  let v := blackOrWhite r g b in
  <[idx := v]> (<[idx + 1 := v]> (<[idx + 2 := v]> data)).

(** [for (let idx = 0; idx < data.length; idx += 4)], with [fuel] bounding
    the number of iterations. *)
Fixpoint binarizeLoop (fuel : nat) (data : list byte) (idx : nat) : list byte :=
  match fuel with
  | O => data
  | S fuel' =>
      if (idx <? length data)%nat
      then binarizeLoop fuel' (binarizePixel data idx) (idx + 4)
      else data
  end.

(** The [if (shouldBinarize)] block of the rasterizer: the pixels are
    rewritten in place and put back on the canvas. One iteration per
    pixel, so [length data] iterations are more than enough. *)
Definition binarize (img : ImageData) : ImageData :=
  {| width := width img;
     height := height img;
     data := binarizeLoop (length (data img)) (data img) 0 |}.

End Binarize.

(** The luminance as the specification words it, [0.299 R + 0.587 G +
    0.114 B] of the three colour bytes, over the rationals: no rounding. *)
Definition exactLuminance (r g b : byte) : Q :=
  ((299 # 1000) * inject_Z (Z.of_N (Byte.to_N r))
   + (587 # 1000) * inject_Z (Z.of_N (Byte.to_N g))
   + (114 # 1000) * inject_Z (Z.of_N (Byte.to_N b)))%Q.

(** ** Recognition engine pool

    [workerCache] is a plain object: a property read falls back to
    [Object.prototype], so the names below read as present (and truthy) in
    an empty cache. The engine promises the cache holds live in a
    process-wide table; a promise is named by its index there. *)

Definition ObjectPrototype : list jsstring :=
  map js
    ["constructor"; "__defineGetter__"; "__defineSetter__"; "hasOwnProperty";
     "__lookupGetter__"; "__lookupSetter__"; "isPrototypeOf";
     "propertyIsEnumerable"; "toString"; "valueOf"; "__proto__";
     "toLocaleString"]%string.

Section EnginePool.

Variable Worker : Type.
Variable Error : Type.

Inductive PromiseState :=
  | Pending
  | Fulfilled (worker : Worker)
  | Rejected (error : Error).

(** What [workerCache[lang]] reads: an engine promise, or a member
    inherited from [Object.prototype]. *)
Inductive Handle :=
  | EnginePromise (id : nat)
  | Inherited.

Record Pool := {
  workerCache : gmap jsstring nat;
  promises : list (jsstring * PromiseState)
}.

Definition emptyPool : Pool := {| workerCache := ∅; promises := [] |}.

(** [workerCache[lang]]; [None] is [undefined]. *)
Definition getProperty (cache : gmap jsstring nat) (lang : jsstring) : option Handle :=
  match cache !! lang with
  | Some id => Some (EnginePromise id)
  | None => if bool_decide (lang ∈ ObjectPrototype) then Some Inherited else None
  end.

(** [getWorker(lang)], up to its return: it has no suspension point, so a
    call is one atomic step of the event loop. The engine construction (the
    immediately invoked async function, which calls [createWorker] before it
    first suspends) starts when its promise is created. The promise an async
    function hands to its caller follows the value it returns: the caller is
    given here the engine promise its own promise follows. *)
Definition getWorker (lang : jsstring) (s : Pool) : Pool * Handle :=
  match getProperty (workerCache s) lang with
  | Some h => (s, h)
  | None =>
      let id := length (promises s) in
      ({| workerCache := <[lang := id]> (workerCache s);
          promises := promises s ++ [(lang, Pending)] |},
       EnginePromise id)
  end.

(** An engine construction completes: its promise, if still pending, is
    fulfilled with the worker or rejected with the error. *)
Definition settle (id : nat) (outcome : Worker + Error) (s : Pool) : Pool :=
  match promises s !! id with
  | Some (lang, Pending) =>
      {| workerCache := workerCache s;
         promises :=
           <[id := (lang, match outcome with
                          | inl w => Fulfilled w
                          | inr e => Rejected e
                          end)]> (promises s) |}
  | _ => s
  end.

(** The state of the engine promise a caller holding [h] awaits ([None]:
    it holds no engine promise). *)
Definition observe (s : Pool) (h : Handle) : option PromiseState :=
  match h with
  | EnginePromise id => snd <$> promises s !! id
  | Inherited => None
  end.

(** The steps the event loop interleaves: a caller asks for the engine of a
    tag, or a construction completes. *)
Inductive PoolEvent :=
  | Acquire (lang : jsstring)
  | Complete (id : nat) (outcome : Worker + Error).

(** Runs a trace; the log records what each caller was handed. *)
Fixpoint runPool (s : Pool) (trace : list PoolEvent) : Pool * list (jsstring * Handle) :=
  match trace with
  | [] => (s, [])
  | Acquire lang :: rest =>
      let '(s1, h) := getWorker lang s in
      let '(s2, log) := runPool s1 rest in
      (s2, (lang, h) :: log)
  | Complete id outcome :: rest => runPool (settle id outcome s) rest
  end.

(** The number of calls for a tag in a trace. *)
Fixpoint callers (lang : jsstring) (trace : list PoolEvent) : nat :=
  match trace with
  | [] => 0
  | Acquire lang' :: rest =>
      (if bool_decide (lang' = lang) then 1 else 0) + callers lang rest
  | Complete _ _ :: rest => callers lang rest
  end.

(** The engine constructions started so far for a tag. *)
Definition constructions (lang : jsstring) (s : Pool) : nat :=
  length (filter (fun p => p.1 = lang) (promises s)).

(** The pool invariant: the cache entry of a tag names a construction
    started for that tag, and a tag has one construction when it is cached
    and none otherwise. *)
Definition poolInv (s : Pool) : Prop :=
  forall lang,
    (forall id, workerCache s !! lang = Some id ->
                fst <$> promises s !! id = Some lang) /\
    constructions lang s = match workerCache s !! lang with
                           | Some _ => 1
                           | None => 0
                           end.

End EnginePool.

Arguments Pending {Worker Error}.
Arguments Fulfilled {Worker Error} worker.
Arguments Rejected {Worker Error} error.
Arguments emptyPool {Worker Error}.
Arguments getWorker {Worker Error} lang s.
Arguments settle {Worker Error} id outcome s.
Arguments observe {Worker Error} s h.
Arguments runPool {Worker Error} s trace.
Arguments constructions {Worker Error} lang s.
Arguments callers {Worker Error} lang trace.
Arguments poolInv {Worker Error} s.
Arguments workerCache {Worker Error} p.
Arguments promises {Worker Error} p.
Arguments Acquire {Worker Error} lang.
Arguments Complete {Worker Error} id outcome.

(** ** Font asset cache

    [loadFontData] suspends at [await fetch(url)] and at
    [await res.arrayBuffer()], so a call is up to three atomic steps of the
    event loop. [ttfFile] and [otfFile] are the two local probes: the
    content of the file when it exists. *)

Record Response := { ok : bool; status : nat; body : list byte }.

(** Where a call of [loadFontData] stands. *)
Inductive FontTask :=
  | AwaitingFetch
  | AwaitingBody (res : Response)
  | FontReturned (font : list byte)
  | FontThrown (status : option nat).

Record FontState := {
  fontCache : gmap string (list byte);
  fontTasks : list FontTask;
  fileReads : nat;
  fetches : nat
}.

Definition emptyFontState : FontState :=
  {| fontCache := ∅; fontTasks := []; fileReads := 0; fetches := 0 |}.

Section FontCache.

Variables ttfFile otfFile : option (list byte).

(** A call of [loadFontData()], up to its first suspension or its return. *)
Definition loadFontData (s : FontState) : FontState :=
  match fontCache s !! "noto-ethiopic"%string with
  | Some font =>
      {| fontCache := fontCache s;
         fontTasks := fontTasks s ++ [FontReturned font];
         fileReads := fileReads s; fetches := fetches s |}
  | None =>
      match ttfFile with
      | Some buf =>
          {| fontCache := <["noto-ethiopic"%string := buf]> (fontCache s);
             fontTasks := fontTasks s ++ [FontReturned buf];
             fileReads := S (fileReads s); fetches := fetches s |}
      | None =>
          match otfFile with
          | Some buf =>
              {| fontCache := <["noto-ethiopic"%string := buf]> (fontCache s);
                 fontTasks := fontTasks s ++ [FontReturned buf];
                 fileReads := S (fileReads s); fetches := fetches s |}
          | None =>
              {| fontCache := fontCache s;
                 fontTasks := fontTasks s ++ [AwaitingFetch];
                 fileReads := fileReads s; fetches := S (fetches s) |}
          end
      end
  end.

(** The fetch of call [id] settles: rejected ([None]) or with a response.
    The call throws on a rejection or on [!res.ok], and otherwise suspends
    again on the body. *)
Definition fetchSettled (id : nat) (res : option Response) (s : FontState) : FontState :=
  match fontTasks s !! id with
  | Some AwaitingFetch =>
      {| fontCache := fontCache s;
         fontTasks :=
           <[id := match res with
                   | None => FontThrown None
                   | Some r => if ok r then AwaitingBody r
                               else FontThrown (Some (status r))
                   end]> (fontTasks s);
         fileReads := fileReads s; fetches := fetches s |}
  | _ => s
  end.

(** The body of call [id] has been read: the bytes are stored in the cache
    and the call returns what the cache then holds. *)
Definition bodyRead (id : nat) (s : FontState) : FontState :=
  match fontTasks s !! id with
  | Some (AwaitingBody r) =>
      {| fontCache := <["noto-ethiopic"%string := body r]> (fontCache s);
         fontTasks := <[id := FontReturned (body r)]> (fontTasks s);
         fileReads := fileReads s; fetches := fetches s |}
  | _ => s
  end.

Inductive FontEvent :=
  | FontCall
  | FetchSettled (id : nat) (res : option Response)
  | BodyRead (id : nat).

Definition fontStep (s : FontState) (ev : FontEvent) : FontState :=
  match ev with
  | FontCall => loadFontData s
  | FetchSettled id res => fetchSettled id res s
  | BodyRead id => bodyRead id s
  end.

Definition runFont (s : FontState) (trace : list FontEvent) : FontState :=
  fold_left fontStep trace s.

End FontCache.

(** ** Completions

    An awaited call either returns a value or throws. *)

Inductive Error := JSError (message : jsstring).

Inductive Completion (A : Type) :=
  | Return (a : A)
  | Throw (e : Error).

Arguments Return {A} a.
Arguments Throw {A} e.

Definition bind {A B : Type} (c : Completion A) (k : A -> Completion B) : Completion B :=
  match c with
  | Return a => k a
  | Throw e => Throw e
  end.

Notation "'let*' x ':=' c 'in' k" := (bind c (fun x => k))
  (at level 10, x name, c at level 100, k at level 200).

(** [promise.catch(handler)] *)
Definition catch {A : Type} (c : Completion A) (handler : Error -> A) : Completion A :=
  match c with
  | Return a => Return a
  | Throw e => Return (handler e)
  end.

(** ** The pdf-lib document being assembled *)

Module PdfLib.

Record PDFFont := { fontData : list byte; subset : bool }.

Record DrawTextOptions := {
  x : float;
  y : float;
  size : float;
  font : PDFFont;
  color : float * float * float;
  lineHeight : option float;
  maxWidth : option float
}.

Record PDFPage := {
  dimensions : float * float;
  drawn : list (jsstring * DrawTextOptions)
}.

Record PDFDocument := {
  fonts : list PDFFont;
  pages : list PDFPage
}.

End PdfLib.

(** ** The host: what the pipeline calls and does not define

    pdf.js with the canvas, tesseract.js, pdf-lib, the font source, the
    environment and the event loop. Every call that can throw returns a
    [Completion]. *)

Record Host := {
  (** environment *)
  Number : jsstring -> float;
  toLowerCase : jsstring -> jsstring;
  process_env : gmap string jsstring;
  (** pdf.js and canvas: loading a document (with the library itself), its
      page count, loading a page, rendering it on a fresh canvas at a scale,
      PNG encoding. [getDocument({ data })] is handed the caller's array
      itself, not a copy, and pdf.js takes the buffer of the array over:
      [dataAfterGetDocument] is what the caller's array holds once the
      loading task has settled (nothing, when the buffer was taken; the
      bytes as they were, when it was not) *)
  PdfDoc : Type;
  PdfPage : Type;
  getDocument : list byte -> Completion PdfDoc;
  dataAfterGetDocument : list byte -> list byte;
  numPages : PdfDoc -> nat;
  getPage : PdfDoc -> nat -> Completion PdfPage;
  render : PdfPage -> float -> Completion ImageData;
  toBuffer : ImageData -> Completion (list byte);
  (** tesseract.js: what awaiting [getWorker(lang)] gives (the outcome of
      the one engine construction of the tag), and [data.text] of
      [worker.recognize(bytes, { lang })] *)
  Worker : Type;
  awaitWorker : jsstring -> Completion Worker;
  recognize : Worker -> list byte -> jsstring -> Completion (option jsstring);
  (** event loop: the order in which the [n] recognition calls of batch
      number [j] complete, as indices into the batch *)
  completionOrder : nat -> nat -> list nat;
  (** arithmetic: the rounding of a sum of two doubles to a double *)
  roundSum : Q -> Q;
  (** font source and pdf-lib: what awaiting [loadFontData()] gives,
      whether [embedFont] and [drawText] throw, serialization *)
  awaitFontData : Completion (list byte);
  embedFontError : list byte -> bool -> option Error;
  drawTextError : jsstring -> PdfLib.DrawTextOptions -> option Error;
  saveAsBase64 : PdfLib.PDFDocument -> Completion jsstring
}.

(** ** Document assembler *)

(** [s.replace(/[class]/g, replacement)] for a class of single code
    units. *)
Definition replaceEach (class : N -> bool) (replacement s : jsstring) : jsstring :=
  flat_map (fun c => if class c then replacement else [c]) s.

(** [[\u0000-\u0008\u000B\u000C\u000E-\u001F\u007F]] *)
Definition isControl (c : N) : bool :=
  ((c <=? 0x08) || (c =? 0x0B) || (c =? 0x0C)
   || (0x0E <=? c) && (c <=? 0x1F) || (c =? 0x7F))%N.

(** [\uFFFD], the replacement character *)
Definition isReplacementChar (c : N) : bool := (c =? 0xFFFD)%N.

(** [[\u200B-\u200D\uFEFF]] *)
Definition isZeroWidth (c : N) : bool :=
  ((0x200B <=? c) && (c <=? 0x200D) || (c =? 0xFEFF))%N.

(** [[\u202A-\u202E]] *)
Definition isBidiControl (c : N) : bool := ((0x202A <=? c) && (c <=? 0x202E))%N.

(** [s.split(/\n{2,}/)]: [current] is the piece being read and [newlines]
    the number of line feeds just read after it. *)
Fixpoint splitParagraphs (current : jsstring) (newlines : nat) (s : jsstring)
  : list jsstring :=
  match s with
  | [] =>
      match newlines with
      | 0 => [current]
      | 1 => [current ++ [10%N]]
      | _ => [current; []]
      end
  | c :: rest =>
      if (c =? 10)%N then splitParagraphs current (S newlines) rest
      else
        match newlines with
        | 0 => splitParagraphs (current ++ [c]) 0 rest
        | 1 => splitParagraphs (current ++ [10%N; c]) 0 rest
        | _ => current :: splitParagraphs [c] 0 rest
        end
  end.

(** [p.replace(/\s+/g, " ")]: [inRun] tells that the previous code unit was
    white space. *)
Fixpoint collapseWhiteSpace (inRun : bool) (s : jsstring) : jsstring :=
  match s with
  | [] => []
  | c :: rest =>
      if isWhiteSpace c
      then if inRun then collapseWhiteSpace true rest
           else 32%N :: collapseWhiteSpace true rest
      else c :: collapseWhiteSpace false rest
  end.

(** The two [replace] calls on [rawText], and the two more for Amharic. *)
Definition cleanText (isAmharic : bool) (rawText : jsstring) : jsstring :=
  let cleaned :=
    replaceEach isReplacementChar (if isAmharic then [] else js " ")
      (replaceEach isControl (js " ") rawText) in
  if isAmharic
  then replaceEach isBidiControl []
         (replaceEach isZeroWidth [] cleaned)
  else cleaned.

(** [paragraphs.join("\n\n")] of the trimmed, collapsed, non-empty
    paragraphs of [cleaned]. *)
Definition normalizeText (cleaned : jsstring) : jsstring :=
  let paragraphs :=
    List.filter truthy
      (map (fun p => collapseWhiteSpace false (trim p))
           (splitParagraphs [] 0 cleaned)) in
  join [10%N; 10%N] paragraphs.

(** [normalizedText || cleaned || "(empty)"]: the text drawn on the page. *)
Definition pageText (isAmharic : bool) (rawText : jsstring) : jsstring :=
  let cleaned := cleanText isAmharic rawText in
  let normalizedText := normalizeText cleaned in
  if truthy normalizedText then normalizedText
  else if truthy cleaned then cleaned
  else js "(empty)".

Section Assembler.

Variable host : Host.

Definition fallbackText : jsstring :=
  js "[Error rendering text - possible unsupported characters]".

(** The body of the page loop: a page is added and the text drawn on it;
    when that throws, the fallback line is drawn instead (and a throw of
    that one is not caught). *)
Definition drawPage (width height : float) (font : PdfLib.PDFFont) (isAmharic : bool)
  (rawText : jsstring) : Completion PdfLib.PDFPage :=
  let margin := 72%float in
  let fontSize := if isAmharic then 16%float else 14%float in
  let lineHeight := if isAmharic then 22%float else 18%float in
  let text := pageText isAmharic rawText in
  let options :=
    {| PdfLib.x := margin; PdfLib.y := (height - margin)%float;
       PdfLib.size := fontSize; PdfLib.font := font;
       PdfLib.color := (0, 0, 0)%float;
       PdfLib.lineHeight := Some lineHeight;
       PdfLib.maxWidth := Some (width - margin * 2)%float |} in
  match drawTextError host text options with
  | None =>
      Return {| PdfLib.dimensions := (width, height);
                PdfLib.drawn := [(text, options)] |}
  | Some _ =>
      let fallback :=
        {| PdfLib.x := margin; PdfLib.y := (height - margin)%float;
           PdfLib.size := 12%float; PdfLib.font := font;
           PdfLib.color := (1, 0, 0)%float;
           PdfLib.lineHeight := None; PdfLib.maxWidth := None |} in
      match drawTextError host fallbackText fallback with
      | None =>
          Return {| PdfLib.dimensions := (width, height);
                    PdfLib.drawn := [(fallbackText, fallback)] |}
      | Some e => Throw e
      end
  end.

Fixpoint drawPages (width height : float) (font : PdfLib.PDFFont) (isAmharic : bool)
  (texts : list jsstring) (pages : list PdfLib.PDFPage)
  : Completion (list PdfLib.PDFPage) :=
  match texts with
  | [] => Return pages
  | rawText :: rest =>
      let* page := drawPage width height font isAmharic rawText in
      drawPages width height font isAmharic rest (pages ++ [page])
  end.

(** [buildSearchablePdf] up to the serialization: the document built. *)
Definition assemble (pageTexts : list jsstring) (lang : jsstring)
  : Completion PdfLib.PDFDocument :=
  let width := 595.28%float in
  let height := 841.89%float in
  let* fontData := awaitFontData host in
  let isAmharic := includes lang (js "amh") in
  let* font :=
    match embedFontError host fontData (negb isAmharic) with
    | None => Return {| PdfLib.fontData := fontData;
                        PdfLib.subset := negb isAmharic |}
    | Some e => Throw e
    end in
  let* pages :=
    drawPages width height font isAmharic
      (match pageTexts with [] => [js "(empty)"] | _ :: _ => pageTexts end) [] in
  Return {| PdfLib.fonts := [font]; PdfLib.pages := pages |}.

Definition buildSearchablePdf (pageTexts : list jsstring) (lang : jsstring)
  : Completion jsstring :=
  let* pdf := assemble pageTexts lang in
  saveAsBase64 host pdf.

End Assembler.

(** ** Promise.all

    [outcomes] are what the promises settle with and [order] is the order
    in which they settle. Each fulfilment is stored at the index of its own
    promise; the first rejection rejects the whole; the result is ready once
    every promise has fulfilled ([None]: never, with this [order]). *)

Fixpoint settleInOrder {A : Type} (outcomes : list (Completion A))
  (values : list (option A)) (order : list nat) : Completion (list (option A)) :=
  match order with
  | [] => Return values
  | k :: rest =>
      match outcomes !! k with
      | Some (Return v) => settleInOrder outcomes (<[k := Some v]> values) rest
      | Some (Throw e) => Throw e
      | None => settleInOrder outcomes values rest
      end
  end.

Definition Promise_all {A : Type} (outcomes : list (Completion A)) (order : list nat)
  : option (Completion (list A)) :=
  match settleInOrder outcomes (replicate (length outcomes) None) order with
  | Throw e => Some (Throw e)
  | Return values => Return <$> mapM id values
  end.

(** ** Numbers as array indices *)

(** The rational a finite double denotes (0 for the others, which no index
    computation below meets). *)
Definition numberValue (x : float) : Q :=
  match Prim2SF x with
  | S754_finite s m e =>
      let v := match e with
               | Zneg k => Qmake (Zpos m) (2 ^ k)
               | _ => inject_Z (Zpos m * 2 ^ e)
               end in
      if s then Qopp v else v
  | _ => 0%Q
  end.

(** What is used of the rounding of a sum: it is monotone, and exact on
    the integers up to 2^53. *)
Record RoundsLikeDouble (rnd : Q -> Q) : Prop := {
  rnd_monotone : forall a b : Q, (a <= b)%Q -> (rnd a <= rnd b)%Q;
  rnd_integer : forall z : Z, (0 <= z <= 2 ^ 53)%Z -> (rnd (inject_Z z) == inject_Z z)%Q
}.

Definition Qlt_bool (a b : Q) : bool := negb (Qle_bool b a).

(** [ToIntegerOrInfinity]: truncation towards zero. *)
Definition truncate (q : Q) : Z :=
  if (Qnum q <? 0)%Z then Qceiling q else Qfloor q.

(** How [slice] reads a bound in an array of [len] elements. *)
Definition relativeIndex (q : Q) (len : nat) : nat :=
  let r := truncate q in
  if (r <? 0)%Z then Z.to_nat (Z.max (Z.of_nat len + r) 0)
  else Z.to_nat (Z.min r (Z.of_nat len)).

(** [arr.slice(start, end)] *)
Definition slice {A : Type} (arr : list A) (start final : Q) : list A :=
  let k := relativeIndex start (length arr) in
  let e := relativeIndex final (length arr) in
  take (e - k) (drop k arr).

(** ** Rasterizer, recognition, batch scheduler and orchestrator *)

Module Params.
Record t := {
  bytes : list byte;
  filename : jsstring;
  mimeType : option jsstring;
  lang : option jsstring
}.
End Params.

Record OcrResult := { text : jsstring; pdfBase64 : option jsstring }.

Section Pipeline.

Variable host : Host.

(** The page loop of [rasterizePdfPages], for the page numbers [numbers]. *)
Fixpoint renderPages (pdf : PdfDoc host) (scale : float) (isAmharic : bool)
  (numbers : list nat) (pages : list (list byte)) : Completion (list (list byte)) :=
  match numbers with
  | [] => Return pages
  | i :: rest =>
      let* page := getPage host pdf i in
      let* canvas := render host page scale in
      let shouldBinarize :=
        if isAmharic then AMHARIC_BINARIZE_ENABLED
        else BINARIZE_ENABLED (toLowerCase host) (process_env host) in
      let canvas :=
        if shouldBinarize
        then binarize (BINARIZE_THRESHOLD (Number host) (process_env host)) canvas
        else canvas in
      let* png := toBuffer host canvas in
      renderPages pdf scale isAmharic rest (pages ++ [png])
  end.

(** [maxPages] and [lang] are optional arguments. Whatever is thrown inside
    is caught and an empty array returned. *)
Definition rasterizePdfPages (pdfBytes : list byte) (maxPages : option nat)
  (lang : option jsstring) : list (list byte) :=
  let attempt :=
    let* pdf := getDocument host pdfBytes in
    let defaultMaxPages := 10 in
    let pageCount :=
      match maxPages with
      | Some (S m) => Nat.min (numPages host pdf) (S m)
      | _ => Nat.min (numPages host pdf) defaultMaxPages
      end in
    let isAmharic :=
      match lang with
      | Some l => includes l (js "amh")
      | None => false
      end in
    let scale :=
      if isAmharic then AMHARIC_RENDER_SCALE
      else RENDER_SCALE (Number host) (process_env host) in
    renderPages pdf scale isAmharic (seq 1 pageCount) [] in
  match attempt with
  | Return pages => pages
  | Throw _ => []
  end.

(** [data.text?.trim() ?? ""] of the recognition by the engine of the
    tag. *)
Definition ocrImage (bytes : list byte) (lang : jsstring) : Completion jsstring :=
  let* worker := awaitWorker host lang in
  let* text := recognize host worker bytes lang in
  Return (match text with
          | Some t => trim t
          | None => []
          end).

Definition OCR_FAILED : jsstring := js "[OCR failed for this page]".

(** What a page contributes to the texts: its recognized text, or the
    marker when its recognition throws. *)
Definition pageOutcome (lang : jsstring) (pageImage : list byte) : jsstring :=
  match ocrImage pageImage lang with
  | Return t => t
  | Throw _ => OCR_FAILED
  end.

(** One page of a batch: [ocrImage(pageImage, lang).catch(...)]. *)
Definition recognizePage (lang : jsstring) (pageImage : list byte) : Completion jsstring :=
  catch (ocrImage pageImage lang) (fun _ => OCR_FAILED).

(** The batch loop [for (let i = 0; i < pageImages.length; i +=
    OCR_BATCH_SIZE)], entered at counter [i] as batch number [j] with
    [texts] collected so far; [fuel] bounds the number of batches
    ([None]: fuel used up, or a batch never completes). *)
Fixpoint batchLoop (fuel : nat) (batchSize : Q) (pageImages : list (list byte))
  (lang : jsstring) (i : Q) (j : nat) (texts : list jsstring)
  : option (Completion (list jsstring)) :=
  if Qlt_bool i (inject_Z (Z.of_nat (length pageImages))) then
    match fuel with
    | O => None
    | S fuel' =>
        let next := roundSum host (i + batchSize)%Q in
        let batch := slice pageImages i next in
        match Promise_all (map (recognizePage lang) batch)
                (completionOrder host j (length batch)) with
        | None => None
        | Some (Throw e) => Some (Throw e)
        | Some (Return batchTexts) =>
            batchLoop fuel' batchSize pageImages lang next (S j)
              (texts ++ batchTexts)
        end
    end
  else Some (Return texts).

(** [`Page ${idx + 1}\n${t}`.trim()] *)
Definition pageEntry (idx : nat) (t : jsstring) : jsstring :=
  trim (js "Page " ++ ofNat (idx + 1) ++ [10%N] ++ t).

(** [params.lang && params.lang.trim() ? params.lang.trim() : "eng"] *)
Definition requestLang (params : Params.t) : jsstring :=
  match Params.lang params with
  | Some l => if truthy l && truthy (trim l) then trim l else js "eng"
  | None => js "eng"
  end.

(** [params.mimeType === "application/pdf" ||
    params.filename.toLowerCase().endsWith(".pdf")] *)
Definition requestIsPdf (params : Params.t) : bool :=
  bool_decide (Params.mimeType params = Some (js "application/pdf"))
  || endsWith (toLowerCase host (Params.filename params)) (js ".pdf").

(** [None]: the conversion never returns. [params.bytes] is one array:
    the rasterizer hands it to [getDocument], and the fallback that follows
    an empty rasterization reads the same array, as pdf.js left it. The
    image path reads it as received. *)
Definition convertToSearchablePdf (params : Params.t)
  : option (Completion OcrResult) :=
  let lang := requestLang params in
  let isPdf := requestIsPdf params in
  if isPdf then
    let pageImages := rasterizePdfPages (Params.bytes params) None (Some lang) in
    match pageImages with
    | [] =>
        Some (let* text :=
                ocrImage (dataAfterGetDocument host (Params.bytes params)) lang in
              let* pdfBase64 := buildSearchablePdf host [text] lang in
              Return {| text := text; pdfBase64 := Some pdfBase64 |})
    | _ :: _ =>
        let batchSize :=
          numberValue (OCR_BATCH_SIZE (Number host) (process_env host)) in
        match batchLoop (length pageImages) batchSize pageImages lang 0%Q 0 [] with
        | None => None
        | Some (Throw e) => Some (Throw e)
        | Some (Return texts) =>
            Some (let* pdfBase64 := buildSearchablePdf host texts lang in
                  let combinedText :=
                    join [10%N; 10%N] (imap pageEntry texts) in
                  Return {| text := combinedText; pdfBase64 := Some pdfBase64 |})
        end
    end
  else
    Some (let* text := ocrImage (Params.bytes params) lang in
          let* pdfBase64 := buildSearchablePdf host [text] lang in
          Return {| text := text; pdfBase64 := Some pdfBase64 |}).

(** The scale and the profile the rasterizer uses for a tag. *)
Definition renderScale (lang : jsstring) : float :=
  if includes lang (js "amh") then AMHARIC_RENDER_SCALE
  else RENDER_SCALE (Number host) (process_env host).

(** The direct recognition of an array, as both the image path and the
    fallback of the PDF path have it:
    [const text = await ocrImage(bytes, lang);
     const pdfBase64 = await buildSearchablePdf([text], lang);
     return { text, pdfBase64 }]. *)
Definition recognizeDirectly (bytes : list byte) (lang : jsstring)
  : Completion OcrResult :=
  let* text := ocrImage bytes lang in
  let* pdfBase64 := buildSearchablePdf host [text] lang in
  Return {| text := text; pdfBase64 := Some pdfBase64 |}.

(** The font loads and pdf-lib does not throw where the assembler does not
    catch: on embedding, on drawing the fallback line, on saving. *)
Definition assemblyWorks : Prop :=
  (exists fontData,
      awaitFontData host = Return fontData /\
      forall subset, embedFontError host fontData subset = None) /\
  (forall options, drawTextError host fallbackText options = None) /\
  (forall pdf, exists b64, saveAsBase64 host pdf = Return b64).

End Pipeline.

(** ** A small host, for concrete runs

    A document is a ['%'] followed by one byte per page, and loading one
    takes the buffer of the array it is given, as pdf.js does; a page
    renders to one grey pixel of that byte; the PNG of a canvas is its
    pixel bytes;
    recognition reads the bytes as code units and throws on an image that
    starts with a zero byte; completions arrive last page first; the
    serialized document is the decimal number of its pages. *)

Definition toyHostWith (env : gmap string jsstring) : Host :=
  {| Number := digitsNumber;
     toLowerCase := asciiLowerCase;
     process_env := env;
     PdfDoc := list byte;
     PdfPage := byte;
     getDocument bytes :=
       match bytes with
       | Byte.x25 :: pages => Return pages
       | _ => Throw (JSError (js "Invalid PDF structure"))
       end;
     dataAfterGetDocument bytes := [];
     numPages pdf := length pdf;
     getPage pdf i :=
       match pdf !! (i - 1) with
       | Some b => Return b
       | None => Throw (JSError (js "Invalid page request"))
       end;
     render page scale :=
       Return {| width := 1; height := 1; data := [page; page; page; Byte.xff] |};
     toBuffer canvas := Return (data canvas);
     Worker := unit;
     awaitWorker lang := Return tt;
     recognize worker bytes lang :=
       match bytes with
       | Byte.x00 :: _ => Throw (JSError (js "recognition failed"))
       | _ => Return (Some (map Byte.to_N bytes))
       end;
     completionOrder j n := rev (seq 0 n);
     roundSum q := q;
     awaitFontData := Return [Byte.x00; Byte.x01; Byte.x00; Byte.x00];
     embedFontError fontData subset := None;
     drawTextError text options := None;
     saveAsBase64 pdf := Return (ofNat (length (PdfLib.pages pdf))) |}.

Definition toyHost : Host := toyHostWith ∅.

(** ** Concrete inputs *)

(** A 2-pixel image: a dark pixel and a light one, both half transparent. *)
Definition twoPixels : ImageData :=
  {| width := 2; height := 1;
     data := [Byte.x01; Byte.x01; Byte.x01; Byte.x80;
              Byte.xc8; Byte.xc8; Byte.xc8; Byte.x80] |}.

(** One opaque pixel of colour (60, 252, 124), whose luminance is 180. *)
Definition tiePixel : ImageData :=
  {| width := 1; height := 1;
     data := [Byte.x3c; Byte.xfc; Byte.x7c; Byte.xff] |}.

(** Two requests for the tag ["constructor"], one after the other with
    nothing in between, on a pool in which only ["eng"] was requested. *)
Definition constructorTrace : list (PoolEvent nat string) :=
  [Acquire (js "eng"); Acquire (js "constructor"); Acquire (js "constructor")].

(** Two requests for ["amh"] race with one for ["eng"]; the ["amh"]
    construction then fails, and a third request for ["amh"] follows. *)
Definition raceTrace : list (PoolEvent nat string) :=
  [Acquire (js "amh"); Acquire (js "eng"); Acquire (js "amh");
   Complete 0 (inr "model not found"%string); Acquire (js "amh")].

(** The font bytes a download delivers in the example below. *)
Definition downloaded : Response :=
  {| ok := true; status := 200; body := [Byte.x00; Byte.x01; Byte.x00; Byte.x00] |}.

(** A three-page document whose second page cannot be recognized. *)
Definition threePages : Params.t :=
  {| Params.bytes := [Byte.x25; Byte.x41; Byte.x00; Byte.x43];
     Params.filename := js "scan.pdf";
     Params.mimeType := Some (js "application/pdf");
     Params.lang := Some (js "eng") |}.

(** An eleven-page document whose first page cannot be recognized. *)
Definition elevenPages : Params.t :=
  {| Params.bytes :=
       [Byte.x25; Byte.x00; Byte.x41; Byte.x42; Byte.x43; Byte.x44; Byte.x45;
        Byte.x46; Byte.x47; Byte.x48; Byte.x49; Byte.x4a];
     Params.filename := js "book.pdf";
     Params.mimeType := Some (js "application/pdf");
     Params.lang := Some (js "eng") |}.

(** A scan of two letters sent as a PDF: no document loads from it.
    Recognized as received, its bytes read ["AB"]. *)
Definition scanSentAsPdf : Params.t :=
  {| Params.bytes := [Byte.x41; Byte.x42];
     Params.filename := js "scan.pdf";
     Params.mimeType := Some (js "application/pdf");
     Params.lang := Some (js "eng") |}.

(** A scan of two letters, sent as a JPEG with the tag ["amh"]. *)
Definition amharicScan : Params.t :=
  {| Params.bytes := [Byte.x41; Byte.x42];
     Params.filename := js "scan.jpg";
     Params.mimeType := Some (js "image/jpeg");
     Params.lang := Some (js "amh") |}.

(** ** The pdf.js module loader

    [pdfjsLibPromise] is [null] until the first call of [getPdfJs], which
    starts the import and stores the promise of its [.then]: the module,
    once its worker options are set. Like [getWorker], a call has no
    suspension point. *)

Module PdfJs.

(** [mod.GlobalWorkerOptions], as far as the loader writes it. *)
Record WorkerOptions (Port : Type) := {
  workerSrc : jsstring;
  workerPort : option Port
}.

Arguments workerSrc {Port} w.
Arguments workerPort {Port} w.

Section Loader.

Variables Api Port Error : Type.

(** The imported module: its worker options, and the rest of it. *)
Record PdfJsLib := {
  GlobalWorkerOptions : WorkerOptions Port;
  api : Api
}.

Record Loader := {
  pdfjsLibPromise : option nat;
  imports : list (PromiseState PdfJsLib Error)
}.

Definition initial : Loader := {| pdfjsLibPromise := None; imports := [] |}.

(** The callback of [.then]: the two options are set and the module
    returned. *)
Definition configure (lib : PdfJsLib) : PdfJsLib :=
  {| GlobalWorkerOptions :=
       {| workerSrc := js "pdfjs-dist/legacy/build/pdf.worker.min.mjs";
          workerPort := None |};
     api := api lib |}.

(** [getPdfJs()], up to its return: the promise handed out, by its index
    among the imports started. *)
Definition getPdfJs (s : Loader) : Loader * nat :=
  match pdfjsLibPromise s with
  | Some id => (s, id)
  | None =>
      let id := length (imports s) in
      ({| pdfjsLibPromise := Some id; imports := imports s ++ [Pending] |}, id)
  end.

(** An import settles: the stored promise is fulfilled with the configured
    module, or rejected with the error of the import. *)
Definition importSettled (id : nat) (outcome : PdfJsLib + Error) (s : Loader) : Loader :=
  match imports s !! id with
  | Some Pending =>
      {| pdfjsLibPromise := pdfjsLibPromise s;
         imports :=
           <[id := match outcome with
                   | inl lib => Fulfilled (configure lib)
                   | inr e => Rejected e
                   end]> (imports s) |}
  | _ => s
  end.

Inductive LoaderEvent :=
  | Call
  | ImportSettled (id : nat) (outcome : PdfJsLib + Error).

(** Runs a trace; the log records the promise each caller was handed. *)
Fixpoint runLoader (s : Loader) (trace : list LoaderEvent) : Loader * list nat :=
  match trace with
  | [] => (s, [])
  | Call :: rest =>
      let '(s1, id) := getPdfJs s in
      let '(s2, log) := runLoader s1 rest in
      (s2, id :: log)
  | ImportSettled id outcome :: rest => runLoader (importSettled id outcome s) rest
  end.

End Loader.

Arguments GlobalWorkerOptions {Api Port} p.
Arguments api {Api Port} p.
Arguments pdfjsLibPromise {Api Port Error} l.
Arguments imports {Api Port Error} l.
Arguments initial {Api Port Error}.
Arguments configure {Api Port} lib.
Arguments getPdfJs {Api Port Error} s.
Arguments importSettled {Api Port Error} id outcome s.
Arguments Call {Api Port Error}.
Arguments ImportSettled {Api Port Error} id outcome.
Arguments runLoader {Api Port Error} s trace.

End PdfJs.

(** ** What the rasterizer does to a page, for a tag

    The [if (shouldBinarize)] block, as a function of the canvas. *)

Definition preprocess (host : Host) (lang : jsstring) (canvas : ImageData) : ImageData :=
  let isAmharic := includes lang (js "amh") in
  let shouldBinarize :=
    if isAmharic then AMHARIC_BINARIZE_ENABLED
    else BINARIZE_ENABLED (toLowerCase host) (process_env host) in
  if shouldBinarize
  then binarize (BINARIZE_THRESHOLD (Number host) (process_env host)) canvas
  else canvas.

(** ** The API route: [src/app/api/ocr/route.ts] *)

(** A JSON object with the members the route writes and the page reads;
    [None] is a missing member (or [null]). *)
Module Json.
Record t := {
  error : option jsstring;
  filename : option jsstring;
  text : option jsstring;
  pdfBase64 : option jsstring
}.

(** [{}] *)
Definition empty : t :=
  {| error := None; filename := None; text := None; pdfBase64 := None |}.
End Json.

Module Route.

(** An uploaded [File]: its metadata, and what reading it gives. *)
Record File := {
  name : jsstring;
  type : jsstring;
  size : N;
  arrayBuffer : Completion (list byte)
}.

Inductive FormDataEntryValue :=
  | EntryString (value : jsstring)
  | EntryFile (file : File).

(** The entries, in the order they were appended. *)
Definition FormData := list (jsstring * FormDataEntryValue).

(** [formData.get(name)]: the first entry of the name; [None] is [null]. *)
Definition get (formData : FormData) (name : jsstring) : option FormDataEntryValue :=
  snd <$> List.find (fun entry => bool_decide (entry.1 = name)) formData.

Record Request := { formData : Completion FormData }.

(** [NextResponse.json(body, { status })] *)
Record NextResponse := { body : Json.t; status : nat }.

Definition errorResponse (error : jsstring) (status : nat) : NextResponse :=
  {| body := {| Json.error := Some error; Json.filename := None;
                Json.text := None; Json.pdfBase64 := None |};
     status := status |}.

(** [error.message] *)
Definition message (error : Error) : jsstring :=
  match error with JSError m => m end.

(** The tag of the request: [typeof langInput === "string" &&
    langInput.trim() ? langInput.trim() : "eng"]. *)
Definition langOf (langInput : option FormDataEntryValue) : jsstring :=
  match langInput with
  | Some (EntryString s) => if truthy (trim s) then trim s else js "eng"
  | _ => js "eng"
  end.

Section Handler.

Variable host : Host.

(** [error instanceof Error], for what the calls of the handler throw. *)
Variable instanceofError : Error -> bool.

(** The body of the [try] block ([None]: the conversion never returns). *)
Definition attempt (request : Request) : option (Completion NextResponse) :=
  match formData request with
  | Throw e => Some (Throw e)
  | Return formData =>
      let file := get formData (js "file") in
      let langInput := get formData (js "lang") in
      match file with
      | Some (EntryFile file) =>
          let tooLarge := (10 * 1024 * 1024 <? size file)%N in
          let isImage := startsWith (type file) (js "image/") in
          let isPdf := bool_decide (type file = js "application/pdf") in
          if negb isImage && negb isPdf then
            Some (Return (errorResponse
                            (js "Only images or PDFs are supported for on-device OCR.")
                            415))
          else if tooLarge then
            Some (Return (errorResponse (js "File is too large. Max size is 10MB.") 413))
          else
            let lang := langOf langInput in
            match arrayBuffer file with
            | Throw e => Some (Throw e)
            | Return bytes =>
                match convertToSearchablePdf host
                        {| Params.bytes := bytes;
                           Params.filename := name file;
                           Params.mimeType := Some (type file);
                           Params.lang := Some lang |} with
                | None => None
                | Some (Throw e) => Some (Throw e)
                | Some (Return result) =>
                    Some (Return
                            {| body := {| Json.error := None;
                                          Json.filename := Some (name file);
                                          Json.text := Some (text result);
                                          Json.pdfBase64 := pdfBase64 result |};
                               status := 200 |})
                end
            end
      | _ => Some (Return (errorResponse (js "No file uploaded.") 400))
      end
  end.

(** [POST(request)]: whatever the [try] block throws becomes a response. *)
Definition POST (request : Request) : option NextResponse :=
  match attempt request with
  | None => None
  | Some (Return response) => Some response
  | Some (Throw error) =>
      Some (errorResponse
              (if instanceofError error then message error
               else js "Unexpected error")
              500)
  end.

End Handler.

End Route.

(** ** The page: [src/app/page.tsx] *)

Module Page.

(** The members of a response body are stored in [done] as they are read:
    [None] for a missing one, since the cast of the body checks nothing. *)
Inductive UploadState :=
  | idle
  | ready (file : Route.File)
  | uploading (file : Route.File)
  | error (message : jsstring)
  | done (file : Route.File) (text : option jsstring) (pdfBase64 : option jsstring).

(** The state of the [Home] component. *)
Record Home := {
  upload : UploadState;
  previewName : option jsstring;
  lang : jsstring
}.

(** [useState] initial values. *)
Definition initial : Home :=
  {| upload := idle; previewName := None; lang := js "eng" |}.

(** [handleFileSelect(fileList)] *)
Definition handleFileSelect (fileList : option (list Route.File)) (st : Home) : Home :=
  match fileList with
  | Some (file :: _) =>
      let isImage := startsWith (Route.type file) (js "image/") in
      let isPdf := bool_decide (Route.type file = js "application/pdf") in
      if negb isImage && negb isPdf then
        {| upload := error (js "Only images or PDFs are supported (PNG, JPG, PDF).");
           previewName := None;
           lang := lang st |}
      else
        let tooLarge := (10 * 1024 * 1024 <? Route.size file)%N in
        if tooLarge then
          {| upload := error (js "File is too large. Max size is 10MB.");
             previewName := None;
             lang := lang st |}
        else
          {| upload := ready file;
             previewName := Some (Route.name file);
             lang := lang st |}
  | _ => st
  end.

(** What [fetch] resolves with, as far as the page reads it. *)
Record FetchResponse := {
  ok : bool;
  json : Completion Json.t
}.

Section Submit.

(** [fetch("/api/ocr", { method: "POST", body: formData })]; [None]: it
    never settles. *)
Variable fetch : Route.FormData -> option (Completion FetchResponse).

(** [error instanceof Error], for what [fetch] and [json] throw. *)
Variable instanceofError : Error -> bool.

(** The message of the [catch] block. *)
Definition uploadError (e : Error) : UploadState :=
  error (if instanceofError e then Route.message e else js "Upload error").

(** [handleSubmit(event)]: the calls of [setUpload] it makes, in order. *)
Definition handleSubmit (st : Home) : list UploadState :=
  match upload st with
  | ready activeFile | done activeFile _ _ =>
      let formData :=
        [(js "file", Route.EntryFile activeFile);
         (js "lang", Route.EntryString (lang st))] in
      uploading activeFile ::
      match fetch formData with
      | None => []
      | Some (Throw e) => [uploadError e]
      | Some (Return response) =>
          if negb (ok response) then
            let body :=
              match json response with
              | Return b => b
              | Throw _ => Json.empty
              end in
            [error (match Json.error body with
                    | Some (c :: m) => c :: m
                    | _ => js "Upload failed"
                    end)]
          else
            match json response with
            | Throw e => [uploadError e]
            | Return body =>
                [done activeFile (Json.text body) (Json.pdfBase64 body)]
            end
      end
  | _ => []
  end.

End Submit.

(** The page talking to the route: the form arrives as it was built,
    [response.ok] tells a status from 200 to 299, and [response.json()]
    gives the body that was sent. *)
Definition overHttp (host : Host) (instanceofError : Error -> bool)
  (formData : Route.FormData) : option (Completion FetchResponse) :=
  match Route.POST host instanceofError {| Route.formData := Return formData |} with
  | None => None
  | Some response =>
      Some (Return {| ok := (200 <=? Route.status response)
                            && (Route.status response <=? 299);
                      json := Return (Route.body response) |})
  end.

End Page.

(** ** A host with chosen failures, for concrete runs

    As the small host, with the outcome of the engine construction, the
    outcome of the font load and the texts that cannot be drawn left to
    choose. *)

Definition labHost (engine : jsstring -> Completion unit)
  (font : Completion (list byte)) (undrawable : jsstring -> bool) : Host :=
  {| Number := digitsNumber;
     toLowerCase := asciiLowerCase;
     process_env := ∅;
     PdfDoc := list byte;
     PdfPage := byte;
     getDocument bytes :=
       match bytes with
       | Byte.x25 :: pages => Return pages
       | _ => Throw (JSError (js "Invalid PDF structure"))
       end;
     dataAfterGetDocument bytes := [];
     numPages pdf := length pdf;
     getPage pdf i :=
       match pdf !! (i - 1) with
       | Some b => Return b
       | None => Throw (JSError (js "Invalid page request"))
       end;
     render page scale :=
       Return {| width := 1; height := 1; data := [page; page; page; Byte.xff] |};
     toBuffer canvas := Return (data canvas);
     Worker := unit;
     awaitWorker := engine;
     recognize worker bytes lang :=
       match bytes with
       | Byte.x00 :: _ => Throw (JSError (js "recognition failed"))
       | _ => Return (Some (map Byte.to_N bytes))
       end;
     completionOrder j n := rev (seq 0 n);
     roundSum q := q;
     awaitFontData := font;
     embedFontError fontData subset := None;
     drawTextError text options :=
       if undrawable text then Some (JSError (js "WinAnsi cannot encode")) else None;
     saveAsBase64 pdf := Return (ofNat (length (PdfLib.pages pdf))) |}.

(** A PNG upload of two letters, and a PDF upload of two pages. *)
Definition pngUpload : Route.File :=
  {| Route.name := js "scan.png";
     Route.type := js "image/png";
     Route.size := 2;
     Route.arrayBuffer := Return [Byte.x41; Byte.x42] |}.

Definition pdfUpload : Route.File :=
  {| Route.name := js "scan.pdf";
     Route.type := js "application/pdf";
     Route.size := 3;
     Route.arrayBuffer := Return [Byte.x25; Byte.x41; Byte.x42] |}.

(** A PNG upload that cannot be read. *)
Definition unreadableUpload : Route.File :=
  {| Route.name := js "scan.png";
     Route.type := js "image/png";
     Route.size := 2;
     Route.arrayBuffer := Throw (JSError (js "The file could not be read")) |}.

(** A text file of eleven MiB. *)
Definition textUpload : Route.File :=
  {| Route.name := js "notes.txt";
     Route.type := js "text/plain";
     Route.size := 11 * 1024 * 1024;
     Route.arrayBuffer := Return [] |}.

(** ** Predicates on texts *)

(** A code unit that the cleaning of a page text leaves as it is. *)
Definition keptByCleaning (isAmharic : bool) (c : N) : bool :=
  negb (isControl c) && negb (isReplacementChar c)
  && (negb isAmharic || negb (isZeroWidth c) && negb (isBidiControl c)).

(** A paragraph of a normalized text: not empty, with no white space at
    either end, and with single spaces as its only white space. *)
Definition isParagraph (p : jsstring) : Prop :=
  p <> [] /\ trim p = p /\ collapseWhiteSpace false p = p /\
  Forall (fun c => isWhiteSpace c = true -> c = 32%N) p.

(** The number of calls of [loadFontData] in a trace. *)
Fixpoint fontCalls (trace : list FontEvent) : nat :=
  match trace with
  | [] => 0
  | FontCall :: rest => S (fontCalls rest)
  | _ :: rest => fontCalls rest
  end.

(** A download that does not deliver: the fetch is rejected, or its
    response is not OK. *)
Definition failedFetch (res : option Response) : bool :=
  match res with
  | Some r => negb (ok r)
  | None => true
  end.

(** A response that is not OK, and a trace in which every download fails. *)
Definition notFound : Response :=
  {| ok := false; status := 404; body := [] |}.

Definition offlineTrace : list FontEvent :=
  [FontCall; FetchSettled 0 (Some notFound); FontCall; FontCall;
   FetchSettled 2 None; BodyRead 0].

(** Where the bytes of a font can come from: the local TTF file, else the
    local OTF file, else the body of an OK response of the trace. *)
Definition fontSource (ttfFile otfFile : option (list byte)) (trace : list FontEvent)
  (font : list byte) : Prop :=
  ttfFile = Some font \/ (ttfFile = None /\ otfFile = Some font) \/
  exists id r, FetchSettled id (Some r) ∈ trace /\ ok r = true /\ body r = font.

(** ** The two [drawText] calls of the page loop

    The options of the call that draws the text of a page, and of the
    call that draws the fallback line, on the A4 page of the assembler. *)

Definition textOptions (font : PdfLib.PDFFont) (isAmharic : bool)
  : PdfLib.DrawTextOptions :=
  let width := 595.28%float in
  let height := 841.89%float in
  let margin := 72%float in
  {| PdfLib.x := margin; PdfLib.y := (height - margin)%float;
     PdfLib.size := if isAmharic then 16%float else 14%float;
     PdfLib.font := font;
     PdfLib.color := (0, 0, 0)%float;
     PdfLib.lineHeight := Some (if isAmharic then 22%float else 18%float);
     PdfLib.maxWidth := Some (width - margin * 2)%float |}.

Definition fallbackOptions (font : PdfLib.PDFFont) : PdfLib.DrawTextOptions :=
  let height := 841.89%float in
  let margin := 72%float in
  {| PdfLib.x := margin; PdfLib.y := (height - margin)%float;
     PdfLib.size := 12%float; PdfLib.font := font;
     PdfLib.color := (1, 0, 0)%float;
     PdfLib.lineHeight := None; PdfLib.maxWidth := None |}.

(** What the page loop leaves on a page for a text: the text as laid out,
    or the fallback line when drawing the text throws. *)
Definition drawnOnPage (host : Host) (font : PdfLib.PDFFont) (isAmharic : bool)
  (rawText : jsstring) : jsstring * PdfLib.DrawTextOptions :=
  match drawTextError host (pageText isAmharic rawText) (textOptions font isAmharic) with
  | None => (pageText isAmharic rawText, textOptions font isAmharic)
  | Some _ => (fallbackText, fallbackOptions font)
  end.

(** A page on which two letters cannot be drawn. *)
Definition undrawableAB (text : jsstring) : bool := bool_decide (text = js "AB").

(** ** The checks of an upload

    The two checks that the route and the page both make on a file. *)

Definition supportedType (file : Route.File) : bool :=
  startsWith (Route.type file) (js "image/")
  || bool_decide (Route.type file = js "application/pdf").

Definition tooLarge (file : Route.File) : bool :=
  (10 * 1024 * 1024 <? Route.size file)%N.

(** The parameters the route hands to the conversion for a file it has
    read. *)
Definition paramsOf (file : Route.File) (bytes : list byte)
  (langInput : option Route.FormDataEntryValue) : Params.t :=
  {| Params.bytes := bytes;
     Params.filename := Route.name file;
     Params.mimeType := Some (Route.type file);
     Params.lang := Some (Route.langOf langInput) |}.

(** The form the page sends for a file and a language. *)
Definition formOf (file : Route.File) (lang : jsstring) : Route.FormData :=
  [(js "file", Route.EntryFile file); (js "lang", Route.EntryString lang)].

(** The body of a response that reports an error, and that of one that
    carries a result. *)
Definition errorBody (error : jsstring) : Json.t :=
  {| Json.error := Some error; Json.filename := None;
     Json.text := None; Json.pdfBase64 := None |}.

Definition resultBody (filename : jsstring) (result : OcrResult) : Json.t :=
  {| Json.error := None; Json.filename := Some filename;
     Json.text := Some (text result); Json.pdfBase64 := pdfBase64 result |}.

(** A request for a PDF of two pages, and one for an image, in a language
    whose engine cannot be built. *)
Definition twoPagePdf : Params.t :=
  {| Params.bytes := [Byte.x25; Byte.x41; Byte.x42];
     Params.filename := js "scan.pdf";
     Params.mimeType := Some (js "application/pdf");
     Params.lang := Some (js "xyz") |}.

Definition oneImage : Params.t :=
  {| Params.bytes := [Byte.x41; Byte.x42];
     Params.filename := js "scan.png";
     Params.mimeType := Some (js "image/png");
     Params.lang := Some (js "xyz") |}.

Definition noSuchLanguage (lang : jsstring) : Completion unit :=
  Throw (JSError (js "language data not found")).

Definition fontOffline : Completion (list byte) :=
  Throw (JSError (js "Font download failed: 404")).

(** The small host without the engine of any language, and the small host
    without the font. *)
Definition noEngineHost : Host :=
  labHost noSuchLanguage (Return [Byte.x00]) (fun _ => false).

Definition offlineHost : Host :=
  labHost (fun _ => Return tt) fontOffline (fun _ => false).

(** The page after a PNG has been chosen. *)
Definition readyPage : Page.Home :=
  Page.handleFileSelect (Some [pngUpload]) Page.initial.

(** * Properties *)

(** ** The order of doubles *)

Section FloatOrder.
Open Scope float_scope.

(** From the specification of the primitive comparisons in terms of
    [SFcompare]. *)

Lemma SFcompare_antisym (x y : spec_float) :
  SFcompare y x = option_map CompOpp (SFcompare x y).
Proof.
  destruct x as [sx|sx| |sx mx ex], y as [sy|sy| |sy my ey]; simpl;
    try reflexivity;
    try (destruct sx; reflexivity); try (destruct sy; reflexivity);
    try (destruct sx, sy; reflexivity).
  rewrite (Z.compare_antisym ey ex).
  change (PosDef.Pos.compare_cont Eq) with Pos.compare.
  destruct sx, sy; simpl; try reflexivity;
    destruct (ey ?= ex)%Z; simpl; try reflexivity;
    rewrite (Pos.compare_antisym mx my);
    now rewrite ?CompOpp_involutive.
Qed.

Lemma SFcompare_nan_l (x y : spec_float) :
  SFcompare x y = None -> x = S754_nan \/ y = S754_nan.
Proof.
  destruct x as [sx|sx| |sx mx ex], y as [sy|sy| |sy my ey]; simpl;
    intros H; try discriminate H; auto.
Qed.

Lemma is_nan_false (x : float) : is_nan x = false -> Prim2SF x <> S754_nan.
Proof.
  unfold is_nan. rewrite FloatAxioms.eqb_spec. intros H E.
  unfold SFeqb in H. rewrite E in H. simpl in H. discriminate H.
Qed.

Lemma float_ltb_leb (x y : float) : (x <? y) = true -> (x <=? y) = true.
Proof.
  rewrite FloatAxioms.ltb_spec, FloatAxioms.leb_spec. unfold SFltb, SFleb.
  destruct (SFcompare (Prim2SF x) (Prim2SF y)) as [[]|]; easy.
Qed.

Lemma float_ltb_false_leb (x y : float) :
  is_nan x = false -> is_nan y = false ->
  (x <? y) = false -> (y <=? x) = true.
Proof.
  intros Hx Hy. apply is_nan_false in Hx, Hy.
  rewrite FloatAxioms.ltb_spec, FloatAxioms.leb_spec. unfold SFltb, SFleb.
  rewrite (SFcompare_antisym (Prim2SF x) (Prim2SF y)).
  destruct (SFcompare (Prim2SF x) (Prim2SF y)) as [[]|] eqn:E; simpl; try easy.
  destruct (SFcompare_nan_l _ _ E); contradiction.
Qed.

Lemma float_ltb_asym (x y : float) : (x <? y) = true -> (y <? x) = false.
Proof.
  rewrite !FloatAxioms.ltb_spec. unfold SFltb.
  rewrite (SFcompare_antisym (Prim2SF x) (Prim2SF y)).
  destruct (SFcompare (Prim2SF x) (Prim2SF y)) as [[]|]; easy.
Qed.

Lemma SFcompare_lt_trans (x y z : spec_float) :
  SFcompare x y = Some Lt -> SFcompare y z = Some Lt ->
  SFcompare x z = Some Lt.
Proof.
  destruct x as [sx|sx| |sx mx ex], y as [sy|sy| |sy my ey],
           z as [sz|sz| |sz mz ez]; simpl;
    change (PosDef.Pos.compare_cont Eq) with Pos.compare;
    try discriminate;
    repeat match goal with s : bool |- _ => destruct s end; simpl;
    try congruence;
    repeat match goal with
      | |- context [(?a ?= ?b)%Z] => destruct (Z.compare_spec a b)
      | |- context [(?a ?= ?b)%positive] => destruct (Pos.compare_spec a b)
      end; simpl; try congruence; try lia.
Qed.

Lemma float_ltb_trans (x y z : float) :
  (x <? y) = true -> (y <? z) = true -> (x <? z) = true.
Proof.
  rewrite !FloatAxioms.ltb_spec. unfold SFltb. intros Hxy Hyz.
  destruct (SFcompare (Prim2SF x) (Prim2SF y)) as [[]|] eqn:E1; try easy.
  destruct (SFcompare (Prim2SF y) (Prim2SF z)) as [[]|] eqn:E2; try easy.
  now rewrite (SFcompare_lt_trans _ _ _ E1 E2).
Qed.

Lemma SFcompare_eq_l (x y z : spec_float) :
  SFcompare x y = Some Eq -> SFcompare x z = SFcompare y z.
Proof.
  destruct x as [sx|sx| |sx mx ex], y as [sy|sy| |sy my ey],
           z as [sz|sz| |sz mz ez]; simpl;
    change (PosDef.Pos.compare_cont Eq) with Pos.compare;
    try discriminate;
    repeat match goal with s : bool |- _ => destruct s end; simpl;
    try congruence;
    repeat match goal with
      | |- context [(?a ?= ?b)%Z] => destruct (Z.compare_spec a b)
      | |- context [(?a ?= ?b)%positive] => destruct (Pos.compare_spec a b)
      end; simpl; try congruence; try lia.
Qed.

Lemma float_leb_not_ltb (x y : float) : (x <=? y) = true -> (y <? x) = false.
Proof.
  rewrite FloatAxioms.ltb_spec, FloatAxioms.leb_spec. unfold SFltb, SFleb.
  rewrite (SFcompare_antisym (Prim2SF x) (Prim2SF y)).
  destruct (SFcompare (Prim2SF x) (Prim2SF y)) as [[]|]; easy.
Qed.

Lemma float_leb_refl (x : float) : is_nan x = false -> (x <=? x) = true.
Proof.
  intros Hx. apply float_ltb_false_leb; trivial.
  destruct (x <? x) eqn:E; trivial. now rewrite (float_ltb_asym _ _ E) in E.
Qed.

(** Two numbers neither of which is below the other are [===]. *)
Lemma float_not_ltb_eqb (x y : float) :
  is_nan x = false -> is_nan y = false ->
  (x <? y) = false -> (y <? x) = false -> (x =? y) = true.
Proof.
  intros Hx Hy. apply is_nan_false in Hx, Hy.
  rewrite !FloatAxioms.ltb_spec, FloatAxioms.eqb_spec. unfold SFltb, SFeqb.
  rewrite (SFcompare_antisym (Prim2SF x) (Prim2SF y)).
  destruct (SFcompare (Prim2SF x) (Prim2SF y)) as [[]|] eqn:E; simpl; try easy.
  destruct (SFcompare_nan_l _ _ E); contradiction.
Qed.

Lemma float_eqb_refl (x : float) : is_nan x = false -> (x =? x) = true.
Proof. unfold is_nan. now destruct (x =? x). Qed.

Lemma float_eqb_sym (x y : float) : (x =? y) = true -> (y =? x) = true.
Proof.
  rewrite !FloatAxioms.eqb_spec. unfold SFeqb.
  rewrite (SFcompare_antisym (Prim2SF x) (Prim2SF y)).
  destruct (SFcompare (Prim2SF x) (Prim2SF y)) as [[]|]; easy.
Qed.

Lemma float_eqb_trans (x y z : float) :
  (x =? y) = true -> (y =? z) = true -> (x =? z) = true.
Proof.
  rewrite !FloatAxioms.eqb_spec. unfold SFeqb. intros Hxy Hyz.
  destruct (SFcompare (Prim2SF x) (Prim2SF y)) as [[]|] eqn:E; try easy.
  now rewrite (SFcompare_eq_l _ _ _ E).
Qed.

Lemma float_ltb_eqb_r (x y z : float) : (x =? y) = true -> (z <? x) = (z <? y).
Proof.
  rewrite !FloatAxioms.eqb_spec, !FloatAxioms.ltb_spec. unfold SFeqb, SFltb.
  intros Hxy.
  destruct (SFcompare (Prim2SF x) (Prim2SF y)) as [[]|] eqn:E; try easy.
  rewrite (SFcompare_antisym (Prim2SF x) (Prim2SF z)).
  rewrite (SFcompare_antisym (Prim2SF y) (Prim2SF z)).
  now rewrite (SFcompare_eq_l _ _ _ E).
Qed.

Lemma float_ltb_true_not_nan (x y : float) :
  (x <? y) = true -> is_nan x = false /\ is_nan y = false.
Proof.
  unfold is_nan. rewrite FloatAxioms.ltb_spec, !FloatAxioms.eqb_spec.
  unfold SFltb, SFeqb.
  destruct (Prim2SF x) as [sx|sx| |sx mx ex], (Prim2SF y) as [sy|sy| |sy my ey];
    simpl; try discriminate; intros _;
    change (PosDef.Pos.compare_cont Eq) with Pos.compare;
    rewrite ?Z.compare_refl, ?Pos.compare_refl;
    repeat match goal with s : bool |- _ => destruct s end; auto.
Qed.

(** What [Math.max] and [Math.min] return on numbers. *)
Lemma Math_max_spec (a b : float) :
  is_nan a = false -> is_nan b = false ->
  (Math_max a b = a \/ Math_max a b = b) /\
  (a <=? Math_max a b) = true /\ (b <=? Math_max a b) = true.
Proof.
  intros Ha Hb. unfold Math_max. rewrite Ha, Hb. simpl.
  destruct (a <? b) eqn:Hab.
  { auto using float_ltb_leb, float_leb_refl. }
  destruct (b <? a) eqn:Hba.
  { auto using float_ltb_leb, float_leb_refl. }
  destruct (get_sign a); auto using float_ltb_false_leb, float_leb_refl.
Qed.

Lemma Math_min_spec (a b : float) :
  is_nan a = false -> is_nan b = false ->
  (Math_min a b = a \/ Math_min a b = b) /\
  (Math_min a b <=? a) = true /\ (Math_min a b <=? b) = true.
Proof.
  intros Ha Hb. unfold Math_min. rewrite Ha, Hb. simpl.
  destruct (a <? b) eqn:Hab.
  { auto using float_ltb_leb, float_leb_refl. }
  destruct (b <? a) eqn:Hba.
  { auto using float_ltb_leb, float_leb_refl. }
  destruct (get_sign a); auto using float_ltb_false_leb, float_leb_refl.
Qed.

(** Clamping [Math.min(Math.max(n, lo), hi)] of a number [n] into the
    interval of two numbers [lo < hi]. *)
Section Clamp.
Variables lo hi : float.
Hypothesis lo_lt_hi : (lo <? hi) = true.

Let lo_num : is_nan lo = false := proj1 (float_ltb_true_not_nan _ _ lo_lt_hi).
Let hi_num : is_nan hi = false := proj2 (float_ltb_true_not_nan _ _ lo_lt_hi).

Lemma clamp_range (n : float) :
  is_nan n = false ->
  (lo <=? Math_min (Math_max n lo) hi) = true /\
  (Math_min (Math_max n lo) hi <=? hi) = true.
Proof.
  intros Hn.
  destruct (Math_max_spec n lo Hn lo_num) as (Hm & _ & Hlo).
  assert (Hmn : is_nan (Math_max n lo) = false) by (destruct Hm as [-> | ->]; trivial).
  destruct (Math_min_spec (Math_max n lo) hi Hmn hi_num) as (Ht & _ & Hhi).
  split; trivial.
  destruct Ht as [-> | ->]; auto using float_ltb_leb.
Qed.

Lemma clamp_below (n : float) :
  (n <? lo) = true -> Math_min (Math_max n lo) hi = lo.
Proof.
  intros H. destruct (float_ltb_true_not_nan _ _ H) as [Hn _].
  unfold Math_max at 1. rewrite Hn, lo_num, H. simpl.
  unfold Math_min. now rewrite lo_num, hi_num, lo_lt_hi.
Qed.

Lemma clamp_above (n : float) :
  (hi <? n) = true -> Math_min (Math_max n lo) hi = hi.
Proof.
  intros H. destruct (float_ltb_true_not_nan _ _ H) as [_ Hn].
  assert (Hlo : (lo <? n) = true) by (eapply float_ltb_trans; eauto).
  unfold Math_max at 1. rewrite Hn, lo_num, (float_ltb_asym _ _ Hlo), Hlo. simpl.
  unfold Math_min. now rewrite Hn, hi_num, (float_ltb_asym _ _ H), H.
Qed.

Lemma clamp_inside (n : float) :
  (lo <=? n) = true -> (n <=? hi) = true ->
  (Math_min (Math_max n lo) hi =? n) = true.
Proof.
  intros Hlo Hhi.
  assert (Hn : is_nan n = false).
  { unfold is_nan. rewrite FloatAxioms.eqb_spec.
    rewrite FloatAxioms.leb_spec in Hlo. unfold SFleb in Hlo. unfold SFeqb.
    destruct (Prim2SF lo) as [sx|sx| |sx mx ex], (Prim2SF n) as [sy|sy| |sy my ey];
      simpl in *; try discriminate;
      change (PosDef.Pos.compare_cont Eq) with Pos.compare;
      rewrite ?Z.compare_refl, ?Pos.compare_refl;
      repeat match goal with s : bool |- _ => destruct s end; auto. }
  assert (Hm : (Math_max n lo =? n) = true /\ is_nan (Math_max n lo) = false).
  { unfold Math_max. rewrite Hn, lo_num, (float_leb_not_ltb _ _ Hlo). simpl.
    destruct (lo <? n) eqn:E; [auto using float_eqb_refl|].
    destruct (get_sign n); auto using float_eqb_refl.
    split; trivial. apply float_not_ltb_eqb; auto using float_leb_not_ltb. }
  destruct Hm as [Hm Hmn].
  assert (Hhm : (hi <? Math_max n lo) = false).
  { rewrite (float_ltb_eqb_r _ _ hi Hm). now apply float_leb_not_ltb. }
  unfold Math_min. rewrite Hmn, hi_num, Hhm. simpl.
  destruct (Math_max n lo <? hi) eqn:E; trivial.
  destruct (get_sign (Math_max n lo)); trivial.
  eapply float_eqb_trans; [|exact Hm]. now apply float_not_ltb_eqb.
Qed.
End Clamp.

Lemma is_finite_not_nan (x : float) : is_finite x = true -> is_nan x = false.
Proof.
  unfold is_finite. destruct (is_nan x); simpl; intros H; easy.
Qed.

End FloatOrder.

(** ** Configuration knobs *)

Section ConfigFacts.
Open Scope float_scope.

Variable Number : jsstring -> float.
Variable toLowerCase : jsstring -> jsstring.
Variable process_env : gmap string jsstring.

Lemma numberOrNaN_unset : numberOrNaN Number None = nan.
Proof. reflexivity. Qed.

Lemma numberOrNaN_empty : numberOrNaN Number (Some []) = nan.
Proof. reflexivity. Qed.

(** The configured batch size lies in [1, 5] whatever the setting. *)
Lemma OCR_BATCH_SIZE_range :
  (1 <=? OCR_BATCH_SIZE Number process_env) = true /\
  (OCR_BATCH_SIZE Number process_env <=? 5) = true.
Proof.
  unfold OCR_BATCH_SIZE.
  set (n := numberOrNaN Number _).
  destruct (isFinite n) eqn:Hf; simpl; [|split; reflexivity].
  destruct (n <=? 0); [split; reflexivity|].
  apply clamp_range; [reflexivity|]. now apply is_finite_not_nan.
Qed.

(** The configured threshold lies in [0, 255] whatever the setting. *)
Lemma BINARIZE_THRESHOLD_range :
  (0 <=? BINARIZE_THRESHOLD Number process_env) = true /\
  (BINARIZE_THRESHOLD Number process_env <=? 255) = true.
Proof.
  unfold BINARIZE_THRESHOLD.
  set (n := numberOrNaN Number _).
  destruct (isFinite n) eqn:Hf; simpl; [|split; reflexivity].
  apply clamp_range; [reflexivity|]. now apply is_finite_not_nan.
Qed.

End ConfigFacts.

(** C8 (as the code has it). The batch size is 3 when the variable is unset,
    and also when its value is not a finite number or is not positive (so a
    setting of 0 gives 3); every finite positive setting is clamped into
    [1, 5]: below 1 it gives 1, above 5 it gives 5 (so 10 gives 5), and in
    between it is kept. The batch size used for scheduling is always within
    [1, 5]. *)
Theorem OCR_BATCH_SIZE_default_and_clamp
  (Number : jsstring -> float) (process_env : gmap string jsstring) :
  let n := numberOrNaN Number (process_env !! "OCR_BATCH_SIZE"%string) in
  let B := OCR_BATCH_SIZE Number process_env in
  ((1 <=? B) = true /\ (B <=? 5) = true)%float /\
  (process_env !! "OCR_BATCH_SIZE"%string = None -> B = 3%float) /\
  (isFinite n = false \/ (n <=? 0)%float = true -> B = 3%float) /\
  (isFinite n = true -> (n <=? 0)%float = false ->
     ((n <? 1)%float = true -> B = 1%float) /\
     ((5 <? n)%float = true -> B = 5%float) /\
     ((1 <=? n)%float = true -> (n <=? 5)%float = true ->
        (B =? n)%float = true)) /\
  (n = 0%float -> B = 3%float) /\
  (n = 10%float -> B = 5%float).
Proof.
  intros n B. split; [apply OCR_BATCH_SIZE_range|].
  unfold B, OCR_BATCH_SIZE. fold n.
  split; [|split; [|split; [|split]]].
  - intros E. unfold n. now rewrite E.
  - intros [E | E]; rewrite E; simpl; trivial. now rewrite orb_true_r.
  - intros E1 E2. rewrite E1, E2. simpl.
    split; [|split]; intros; now auto using clamp_below, clamp_above, clamp_inside.
  - intros ->. reflexivity.
  - intros ->. reflexivity.
Qed.

(** C8, as stated, fails: a configured value of 0 is not clamped to 1, it
    falls back to the default 3. *)
Lemma OCR_BATCH_SIZE_zero_is_default :
  OCR_BATCH_SIZE digitsNumber {[ "OCR_BATCH_SIZE"%string := js "0" ]} = 3%float /\
  (OCR_BATCH_SIZE digitsNumber {[ "OCR_BATCH_SIZE"%string := js "0" ]} =? 1)%float = false.
Proof. split; vm_compute; reflexivity. Qed.

Example OCR_BATCH_SIZE_ten :
  OCR_BATCH_SIZE digitsNumber {[ "OCR_BATCH_SIZE"%string := js "10" ]} = 5%float.
Proof. vm_compute. reflexivity. Qed.

Example OCR_BATCH_SIZE_unset : OCR_BATCH_SIZE digitsNumber ∅ = 3%float.
Proof. vm_compute. reflexivity. Qed.

(** ** Binarization *)

Section BinarizeFacts.

Variable T : float.

(** What the loop body leaves at each offset. *)
Lemma binarizePixel_lookup (data : list byte) (idx j : nat) :
  binarizePixel T data idx !! j =
  if decide (idx <= j < idx + 3 /\ j < length data)
  then Some (blackOrWhite T (readNumber data idx) (readNumber data (idx + 1))
                            (readNumber data (idx + 2)))
  else data !! j.
Proof.
  unfold binarizePixel. cbv zeta.
  rewrite !list_lookup_insert, !length_insert.
  repeat case_decide; try lia; reflexivity.
Qed.

Lemma binarizePixel_length (data : list byte) (idx : nat) :
  length (binarizePixel T data idx) = length data.
Proof. unfold binarizePixel. cbv zeta. now rewrite !length_insert. Qed.

Lemma binarizePixel_read_later (data : list byte) (idx j : nat) :
  idx + 3 <= j -> readNumber (binarizePixel T data idx) j = readNumber data j.
Proof.
  intros H. unfold readNumber. rewrite binarizePixel_lookup.
  case_decide; [lia | reflexivity].
Qed.

Lemma binarizeLoop_length (fuel : nat) (data : list byte) (idx : nat) :
  length (binarizeLoop T fuel data idx) = length data.
Proof.
  revert data idx. induction fuel as [|fuel IH]; intros data idx; simpl; trivial.
  destruct (idx <? length data)%nat; trivial.
  now rewrite IH, binarizePixel_length.
Qed.

(** The loop, started at pixel [k] with enough fuel for the pixels that
    remain, leaves the pixels before [k] and every fourth byte alone, and
    stores at the three colour bytes of a later pixel [q] the value computed
    from that pixel's colour bytes as they were. *)
Lemma binarizeLoop_lookup (fuel : nat) :
  forall (data : list byte) (k q c : nat),
    length data <= 4 * (k + fuel) -> c < 4 ->
    binarizeLoop T fuel data (4 * k) !! (4 * q + c) =
    if (q <? k)%nat then data !! (4 * q + c)
    else if (c =? 3)%nat then data !! (4 * q + c)
    else if (4 * q + c <? length data)%nat
         then Some (blackOrWhite T (readNumber data (4 * q))
                      (readNumber data (4 * q + 1)) (readNumber data (4 * q + 2)))
         else None.
Proof.
  induction fuel as [|fuel IH]; intros data k q c Hlen Hc; cbn [binarizeLoop].
  - destruct (Nat.ltb_spec q k); trivial.
    destruct (Nat.eqb_spec c 3); trivial.
    destruct (Nat.ltb_spec (4 * q + c) (length data)); [lia|].
    now apply lookup_ge_None_2.
  - destruct (Nat.ltb_spec (4 * k) (length data)) as [Hk | Hk].
    + replace (4 * k + 4) with (4 * (k + 1)) by lia.
      rewrite IH; [| rewrite binarizePixel_length; lia | trivial].
      rewrite binarizePixel_length, binarizePixel_lookup.
      destruct (Nat.ltb_spec q (k + 1)), (Nat.ltb_spec q k);
        destruct (Nat.eqb_spec c 3);
        destruct (Nat.ltb_spec (4 * q + c) (length data));
        try case_decide; try lia; trivial.
      * replace q with k by lia. reflexivity.
      * now apply lookup_ge_None_2.
      * rewrite !binarizePixel_read_later by lia. reflexivity.
    + destruct (Nat.ltb_spec q k); trivial.
      destruct (Nat.eqb_spec c 3); trivial.
      destruct (Nat.ltb_spec (4 * q + c) (length data)); [lia|].
      now apply lookup_ge_None_2.
Qed.

(** The colour bytes of a whole pixel after binarization. *)
Lemma binarize_colour (img : ImageData) (p c : nat) (r g b : byte) :
  data img !! (4 * p) = Some r ->
  data img !! (4 * p + 1) = Some g ->
  data img !! (4 * p + 2) = Some b ->
  c < 3 ->
  data (binarize T img) !! (4 * p + c) =
  Some (blackOrWhite T (byteNumber r) (byteNumber g) (byteNumber b)).
Proof.
  intros Hr Hg Hb Hc. unfold binarize. cbn [data].
  pose proof (binarizeLoop_lookup (length (data img)) (data img) 0 p c) as H.
  change (4 * 0) with 0 in H. rewrite H by lia. clear H.
  apply lookup_lt_Some in Hb as Hlt.
  destruct (Nat.ltb_spec p 0); [lia|].
  destruct (Nat.eqb_spec c 3); [lia|].
  destruct (Nat.ltb_spec (4 * p + c) (length (data img))); [|lia].
  unfold readNumber. now rewrite Hr, Hg, Hb.
Qed.

(** The fourth byte of every pixel after binarization. *)
Lemma binarize_alpha (img : ImageData) (p : nat) :
  data (binarize T img) !! (4 * p + 3) = data img !! (4 * p + 3).
Proof.
  unfold binarize. cbn [data].
  pose proof (binarizeLoop_lookup (length (data img)) (data img) 0 p 3) as H.
  change (4 * 0) with 0 in H. rewrite H by lia. clear H.
  destruct (Nat.ltb_spec p 0); [lia|]. reflexivity.
Qed.

End BinarizeFacts.

(** C9 (as the code has it). At threshold [T = BINARIZE_THRESHOLD],
    binarization stores in the three colour bytes of every pixel
    (R, G, B) the same value: 255 when the double-precision value of
    [0.299 * R + 0.587 * G + 0.114 * B], each product and each sum rounded
    to the nearest double, left to right, is at least T, and 0 otherwise.
    T is 180 when the setting is absent or not a finite number, and a
    finite setting is clamped into [0, 255]. *)
Theorem binarize_threshold_rule
  (Number : jsstring -> float) (process_env : gmap string jsstring)
  (img : ImageData) (p : nat) (R G B : byte) :
  let T := BINARIZE_THRESHOLD Number process_env in
  let n := numberOrNaN Number (process_env !! "OCR_BINARIZE_THRESHOLD"%string) in
  let L := (0.299 * byteNumber R + 0.587 * byteNumber G + 0.114 * byteNumber B)%float in
  let v := if (T <=? L)%float then Byte.xff else Byte.x00 in
  data img !! (4 * p) = Some R ->
  data img !! (4 * p + 1) = Some G ->
  data img !! (4 * p + 2) = Some B ->
  (data (binarize T img) !! (4 * p) = Some v /\
   data (binarize T img) !! (4 * p + 1) = Some v /\
   data (binarize T img) !! (4 * p + 2) = Some v) /\
  (process_env !! "OCR_BINARIZE_THRESHOLD"%string = None -> T = 180%float) /\
  (isFinite n = false -> T = 180%float) /\
  ((0 <=? T)%float = true /\ (T <=? 255)%float = true) /\
  (isFinite n = true ->
     ((n <? 0)%float = true -> T = 0%float) /\
     ((255 <? n)%float = true -> T = 255%float) /\
     ((0 <=? n)%float = true -> (n <=? 255)%float = true ->
        (T =? n)%float = true)).
Proof.
  intros T n L v Hr Hg Hb. split; [|split; [|split; [|split]]].
  - assert (H0 := binarize_colour T img p 0 R G B Hr Hg Hb ltac:(lia)).
    assert (H1 := binarize_colour T img p 1 R G B Hr Hg Hb ltac:(lia)).
    assert (H2 := binarize_colour T img p 2 R G B Hr Hg Hb ltac:(lia)).
    rewrite Nat.add_0_r in H0.
    split; [exact H0 | split; [exact H1 | exact H2]].
  - intros E. unfold T, BINARIZE_THRESHOLD. now rewrite E.
  - intros E. unfold T, BINARIZE_THRESHOLD. fold n. now rewrite E.
  - apply BINARIZE_THRESHOLD_range.
  - intros E. unfold T, BINARIZE_THRESHOLD. fold n. rewrite E. simpl.
    split; [|split]; intros; now auto using clamp_below, clamp_above, clamp_inside.
Qed.

Lemma binarize_threshold_rule_witness :
  data (binarize (BINARIZE_THRESHOLD digitsNumber ∅) twoPixels) !! 4 = Some Byte.xff /\
  data (binarize (BINARIZE_THRESHOLD digitsNumber ∅) twoPixels) !! 0 = Some Byte.x00.
Proof.
  split.
  - exact (proj1 (proj1 (binarize_threshold_rule digitsNumber ∅ twoPixels 1
                           Byte.xc8 Byte.xc8 Byte.xc8 eq_refl eq_refl eq_refl))).
  - exact (proj1 (proj1 (binarize_threshold_rule digitsNumber ∅ twoPixels 0
                           Byte.x01 Byte.x01 Byte.x01 eq_refl eq_refl eq_refl))).
Defined.

(** C9, as stated, fails: the colour (60, 252, 124) has luminance
    0.299 * 60 + 0.587 * 252 + 0.114 * 124 = 180, which is at least the
    default threshold 180, and binarization at that threshold paints the
    pixel black, because the sum the doubles give is just below 180. *)
Lemma luminance_180_is_painted_black :
  (exactLuminance Byte.x3c Byte.xfc Byte.x7c == 180)%Q /\
  BINARIZE_THRESHOLD digitsNumber ∅ = 180%float /\
  (gray (byteNumber Byte.x3c) (byteNumber Byte.xfc) (byteNumber Byte.x7c) <? 180)%float
    = true /\
  data (binarize (BINARIZE_THRESHOLD digitsNumber ∅) tiePixel) =
    [Byte.x00; Byte.x00; Byte.x00; Byte.xff].
Proof. repeat split; vm_compute; reflexivity. Qed.

(** The luminance is the one the doubles give: the sum for the grey
    (1, 1, 1) is just below 1, and the sum for (60, 252, 124) just below
    180, so the first pixel turns black at threshold 1 and the second at
    threshold 180. *)
Remark gray_is_rounded :
  (gray (byteNumber Byte.x01) (byteNumber Byte.x01) (byteNumber Byte.x01) <? 1)%float = true /\
  (gray (byteNumber Byte.x3c) (byteNumber Byte.xfc) (byteNumber Byte.x7c) <? 180)%float = true /\
  data (binarize 1%float twoPixels) !! 0 = Some Byte.x00.
Proof. repeat split; vm_compute; reflexivity. Qed.

(** C10. Binarization leaves the width and the height of the image, the
    number of its bytes and the fourth (alpha) byte of every pixel as they
    were, whatever the image and the threshold. *)
Theorem binarize_frame (T : float) (img : ImageData) :
  width (binarize T img) = width img /\
  height (binarize T img) = height img /\
  length (data (binarize T img)) = length (data img) /\
  forall p : nat, data (binarize T img) !! (4 * p + 3) = data img !! (4 * p + 3).
Proof.
  repeat split.
  - apply binarizeLoop_length.
  - apply binarize_alpha.
Qed.

(** ** Recognition engine pool *)

Section EnginePoolFacts.

Context {Worker Error : Type}.

Implicit Types (s : Pool Worker Error) (lang : jsstring).

Lemma poolInv_empty : poolInv (@emptyPool Worker Error).
Proof.
  intros lang. split; [|reflexivity].
  intros id H. simpl in H. now rewrite lookup_empty in H.
Qed.

Lemma getProperty_None (cache : gmap jsstring nat) lang :
  getProperty cache lang = None -> cache !! lang = None.
Proof. unfold getProperty. destruct (cache !! lang); [discriminate | trivial]. Qed.

Lemma getWorker_cached s lang h :
  getProperty (workerCache s) lang = Some h -> getWorker lang s = (s, h).
Proof. unfold getWorker. now intros ->. Qed.

(** After a call the cache holds, under the tag, what the call returned. *)
Lemma getWorker_returns s lang :
  getProperty (workerCache (getWorker lang s).1) lang = Some (getWorker lang s).2.
Proof.
  unfold getWorker.
  destruct (getProperty (workerCache s) lang) as [h|] eqn:E; simpl; trivial.
  unfold getProperty. now rewrite lookup_insert_eq.
Qed.

(** A call never changes what the cache holds under a tag that reads as
    present. *)
Lemma getWorker_keeps s lang lang' h :
  getProperty (workerCache s) lang' = Some h ->
  getProperty (workerCache (getWorker lang s).1) lang' = Some h.
Proof.
  intros H. unfold getWorker.
  destruct (getProperty (workerCache s) lang) as [h0|] eqn:E; simpl; trivial.
  unfold getProperty. rewrite lookup_insert_ne; [exact H|].
  intros ->. congruence.
Qed.

Lemma settle_cache s id outcome : workerCache (settle id outcome s) = workerCache s.
Proof.
  unfold settle. destruct (promises s !! id) as [[lang []]|]; reflexivity.
Qed.

Lemma settle_tags s id outcome id' :
  fst <$> promises (settle id outcome s) !! id' = fst <$> promises s !! id'.
Proof.
  unfold settle. destruct (promises s !! id) as [[lang []]|] eqn:E; trivial.
  simpl. destruct (decide (id = id')) as [<-|Hne].
  - rewrite list_lookup_insert_eq by (eapply lookup_lt_Some; eauto).
    now rewrite E.
  - now rewrite list_lookup_insert_ne.
Qed.

Lemma settle_other s id outcome id' :
  id' <> id -> promises (settle id outcome s) !! id' = promises s !! id'.
Proof.
  intros Hne. unfold settle.
  destruct (promises s !! id) as [[lang []]|]; trivial.
  simpl. now rewrite list_lookup_insert_ne.
Qed.

Lemma filter_tag_insert (l : list (jsstring * PromiseState Worker Error))
      (id : nat) lang tag st st' :
  l !! id = Some (tag, st) ->
  length (filter (fun p => p.1 = lang) (<[id := (tag, st')]> l)) =
  length (filter (fun p => p.1 = lang) l).
Proof.
  revert id. induction l as [|x l IH]; intros [|id] H; simpl in *; trivial.
  - injection H as ->. rewrite !filter_cons. simpl.
    destruct (decide (tag = lang)); reflexivity.
  - rewrite !filter_cons. destruct (decide (x.1 = lang)); simpl; rewrite IH; trivial.
Qed.

Lemma settle_constructions s id outcome lang :
  constructions lang (settle id outcome s) = constructions lang s.
Proof.
  unfold constructions, settle.
  destruct (promises s !! id) as [[tag []]|] eqn:E; trivial.
  simpl. now apply (filter_tag_insert _ _ _ _ Pending).
Qed.

Lemma getWorker_inv s lang : poolInv s -> poolInv (getWorker lang s).1.
Proof.
  intros Hinv. unfold getWorker.
  destruct (getProperty (workerCache s) lang) as [h|] eqn:E; simpl; trivial.
  apply getProperty_None in E. intros lang'. destruct (Hinv lang') as [H1 H2].
  unfold constructions in *. simpl. split.
  - intros id. destruct (decide (lang = lang')) as [<-|Hne].
    + rewrite lookup_insert_eq. intros [= <-].
      now rewrite lookup_app_r, Nat.sub_diag by lia.
    + rewrite lookup_insert_ne by trivial. intros Hid.
      specialize (H1 id Hid).
      destruct (promises s !! id) as [p|] eqn:Ep; [|discriminate].
      now rewrite (lookup_app_l_Some _ _ _ _ Ep).
  - rewrite filter_app, length_app, H2, filter_cons, filter_nil. simpl.
    destruct (decide (lang = lang')) as [<-|Hne].
    + now rewrite lookup_insert_eq, E.
    + now rewrite lookup_insert_ne, Nat.add_0_r by trivial.
Qed.

Lemma settle_inv s id outcome : poolInv s -> poolInv (settle id outcome s).
Proof.
  intros Hinv lang. destruct (Hinv lang) as [H1 H2].
  rewrite settle_cache, settle_constructions. split; trivial.
  intros id' Hid. rewrite settle_tags. auto.
Qed.

Lemma runPool_inv (trace : list (PoolEvent Worker Error)) :
  forall s, poolInv s -> poolInv (runPool s trace).1.
Proof.
  induction trace as [|[lang|id outcome] trace IH]; intros s Hinv; simpl; trivial.
  - destruct (getWorker lang s) as [s1 h] eqn:E1.
    destruct (runPool s1 trace) as [s2 log] eqn:E2. simpl.
    change s2 with (s2, log).1. rewrite <- E2. apply IH.
    change s1 with (s1, h).1. rewrite <- E1. now apply getWorker_inv.
  - apply IH. now apply settle_inv.
Qed.

(** What reads as present under a tag stays the same through a trace. *)
Lemma runPool_keeps (trace : list (PoolEvent Worker Error)) :
  forall s lang h,
    getProperty (workerCache s) lang = Some h ->
    getProperty (workerCache (runPool s trace).1) lang = Some h.
Proof.
  induction trace as [|[lang'|id outcome] trace IH]; intros s lang h H; simpl; trivial.
  - pose proof (getWorker_keeps s lang' lang h H) as H1.
    destruct (getWorker lang' s) as [s1 h1].
    specialize (IH s1 lang h H1).
    destruct (runPool s1 trace) as [s2 log]. exact IH.
  - apply IH. now rewrite settle_cache.
Qed.

(** Every caller was handed what the cache holds under its tag at the end
    of the trace. *)
Lemma runPool_log (trace : list (PoolEvent Worker Error)) :
  forall s lang h,
    (lang, h) ∈ (runPool s trace).2 ->
    getProperty (workerCache (runPool s trace).1) lang = Some h.
Proof.
  induction trace as [|[lang'|id outcome] trace IH]; intros s lang h H; simpl in *.
  - now apply elem_of_nil in H.
  - pose proof (getWorker_returns s lang') as Hret.
    destruct (getWorker lang' s) as [s1 h1]. simpl in Hret.
    pose proof (runPool_keeps trace s1 lang' h1 Hret) as Hkeep.
    specialize (IH s1 lang h).
    destruct (runPool s1 trace) as [s2 log]. simpl in *.
    apply elem_of_cons in H as [[= -> ->] | H]; auto.
  - now apply IH.
Qed.

(** A call in the trace is answered in the log. *)
Lemma runPool_called (trace : list (PoolEvent Worker Error)) :
  forall s lang,
    Acquire lang ∈ trace -> exists h, (lang, h) ∈ (runPool s trace).2.
Proof.
  induction trace as [|[lang'|id outcome] trace IH]; intros s lang H; simpl.
  - now apply elem_of_nil in H.
  - destruct (getWorker lang' s) as [s1 h1].
    specialize (IH s1 lang).
    destruct (runPool s1 trace) as [s2 log]. simpl in *.
    apply elem_of_cons in H as [[= ->] | H].
    + exists h1. apply elem_of_cons. now left.
    + destruct (IH H) as [h Hh]. exists h. apply elem_of_cons. now right.
  - apply elem_of_cons in H as [[=] | H]. now apply IH.
Qed.

(** Every call is answered in the log, once. *)
Lemma runPool_answers (trace : list (PoolEvent Worker Error)) :
  forall s lang,
    length (filter (fun r => r.1 = lang) (runPool s trace).2) = callers lang trace.
Proof.
  induction trace as [|[lang'|id outcome] trace IH]; intros s lang; simpl; trivial.
  destruct (getWorker lang' s) as [s1 h1]. specialize (IH s1 lang).
  destruct (runPool s1 trace) as [s2 log]. simpl in *.
  rewrite filter_cons. simpl. case_bool_decide; case_decide; try congruence;
    simpl; now rewrite IH.
Qed.

Lemma runPool_app (tr1 tr2 : list (PoolEvent Worker Error)) :
  forall s,
    runPool s (tr1 ++ tr2) =
    ((runPool (runPool s tr1).1 tr2).1,
     (runPool s tr1).2 ++ (runPool (runPool s tr1).1 tr2).2).
Proof.
  induction tr1 as [|[lang|id outcome] tr1 IH]; intros s; simpl.
  - now destruct (runPool s tr2).
  - destruct (getWorker lang s) as [s1 h]. rewrite IH.
    destruct (runPool s1 tr1) as [s2 log]. reflexivity.
  - apply IH.
Qed.

(** A settled promise stays as it is. *)
Lemma settle_settled s id outcome id' st :
  st <> Pending ->
  observe s (EnginePromise id') = Some st ->
  observe (settle id outcome s) (EnginePromise id') = Some st.
Proof.
  intros Hst H. simpl in *. destruct (decide (id' = id)) as [->|Hne].
  - unfold settle. destruct (promises s !! id) as [[tag st0]|] eqn:E;
      [|discriminate H].
    simpl in H. injection H as ->.
    destruct st; [contradiction | now rewrite E | now rewrite E].
  - now rewrite settle_other.
Qed.

Lemma getWorker_observe s lang h st :
  observe s h = Some st -> observe (getWorker lang s).1 h = Some st.
Proof.
  unfold getWorker.
  destruct (getProperty (workerCache s) lang); simpl; trivial.
  destruct h as [id|]; simpl; trivial.
  destruct (promises s !! id) as [p|] eqn:E; [|discriminate].
  now rewrite (lookup_app_l_Some _ _ _ _ E).
Qed.

Lemma runPool_settled (trace : list (PoolEvent Worker Error)) :
  forall s id st,
    st <> Pending ->
    observe s (EnginePromise id) = Some st ->
    observe (runPool s trace).1 (EnginePromise id) = Some st.
Proof.
  induction trace as [|[lang|id' outcome] trace IH]; intros s id st Hst H; trivial.
  - cbn [runPool].
    pose proof (getWorker_observe s lang _ _ H) as H1.
    destruct (getWorker lang s) as [s1 h1].
    specialize (IH s1 id st Hst H1).
    destruct (runPool s1 trace) as [s2 log]. exact IH.
  - cbn [runPool]. apply IH; trivial. now apply settle_settled.
Qed.

(** Completing a pending construction with an error rejects its promise. *)
Lemma settle_rejects s id e :
  observe s (EnginePromise id) = Some Pending ->
  observe (settle id (inr e) s) (EnginePromise id) = Some (Rejected e).
Proof.
  simpl. unfold settle.
  destruct (promises s !! id) as [[tag st]|] eqn:E; [|discriminate].
  simpl. intros [= ->]. simpl.
  rewrite list_lookup_insert_eq by (eapply lookup_lt_Some; eauto). reflexivity.
Qed.

End EnginePoolFacts.

(** C3 (the code, for every tag). From any state of the pool in which a
    tag has no entry in the cache, and for any interleaving of calls (for
    this tag and for others) and of construction completions in which the
    tag is requested, every call for the tag is answered, and:

    - for a tag that is not the name of a member every object inherits,
      one engine construction is started for the tag, and every caller
      for the tag, however many, is handed that one promise; a later call
      finds it in the cache and starts nothing; when the construction
      fails, every caller of the tag finds its promise rejected with that
      error; and a completion changes no cache entry and no other promise;

    - for one of the twelve inherited names ("constructor", "toString",
      ...), [workerCache[lang]] reads the inherited member, which is
      truthy: no engine construction is ever started for the tag, the
      cache never gets an entry for it, and every caller, and every later
      caller, is handed the inherited member, which is no engine
      promise. *)
Theorem engine_shared_unless_inherited {Worker Error : Type}
  (s0 : Pool Worker Error) (trace : list (PoolEvent Worker Error))
  (lang : jsstring) :
  let s := (runPool s0 trace).1 in
  let log := (runPool s0 trace).2 in
  poolInv s0 ->
  workerCache s0 !! lang = None ->
  Acquire lang ∈ trace ->
  (constructions lang s0 = 0 /\
   length (filter (fun r => r.1 = lang) log) = callers lang trace /\
   0 < callers lang trace) /\
  (lang ∉ ObjectPrototype ->
   exists id : nat,
     constructions lang s = 1 /\
     (workerCache s !! lang = Some id /\ fst <$> promises s !! id = Some lang) /\
     (forall h, (lang, h) ∈ log -> h = EnginePromise id) /\
     getWorker lang s = (s, EnginePromise id) /\
     (forall tr1 tr2 e,
         trace = tr1 ++ Complete id (inr e) :: tr2 ->
         observe (runPool s0 tr1).1 (EnginePromise id) = Some Pending ->
         forall h, (lang, h) ∈ log -> observe s h = Some (Rejected e)) /\
     (forall (s' : Pool Worker Error) outcome,
         workerCache (settle id outcome s') = workerCache s' /\
         forall id', id' <> id ->
                     promises (settle id outcome s') !! id' = promises s' !! id')) /\
  (lang ∈ ObjectPrototype ->
   constructions lang s = 0 /\
   workerCache s !! lang = None /\
   (forall h, (lang, h) ∈ log -> h = Inherited /\ observe s h = None) /\
   getWorker lang s = (s, Inherited)).
Proof.
  intros s log Hinv Hnone Hin.
  destruct (runPool_called trace s0 lang Hin) as [h0 Hh0].
  pose proof (runPool_log trace s0 lang h0 Hh0) as Hfinal. fold s in Hfinal.
  destruct (runPool_inv trace s0 Hinv lang) as [H1 H2]. fold s in H1, H2.
  destruct (Hinv lang) as [_ H0]. rewrite Hnone in H0.
  pose proof (runPool_answers trace s0 lang) as Hanswers. fold log in Hanswers.
  split; [|split].
  - split; [exact H0|]. split; [exact Hanswers|].
    rewrite <- Hanswers. fold log in Hh0.
    assert (Hf : (lang, h0) ∈ filter (fun r => r.1 = lang) log)
      by (apply list_elem_of_filter; now split).
    destruct (filter (fun r => r.1 = lang) log); [now apply elem_of_nil in Hf|].
    simpl. lia.
  - intros Hfresh.
    assert (Hown : exists id, workerCache s !! lang = Some id).
    { unfold getProperty in Hfinal.
      destruct (workerCache s !! lang) as [id|]; [eauto|].
      now rewrite bool_decide_eq_false_2 in Hfinal. }
    destruct Hown as [id Hid]. exists id.
    assert (Hget : getProperty (workerCache s) lang = Some (EnginePromise id)).
    { unfold getProperty. now rewrite Hid. }
    assert (Hlog : forall h, (lang, h) ∈ log -> h = EnginePromise id).
    { intros h Hh. apply (runPool_log trace s0) in Hh. fold s in Hh. congruence. }
    rewrite Hid in H2.
    repeat split; auto using getWorker_cached, settle_cache, settle_other.
    intros tr1 tr2 e -> Hpending h Hh. rewrite (Hlog h Hh).
    unfold s. rewrite runPool_app. cbn [fst runPool].
    apply runPool_settled; [discriminate|]. now apply settle_rejects.
  - intros Hproto.
    assert (Hstart : getProperty (workerCache s0) lang = Some Inherited).
    { unfold getProperty. rewrite Hnone. now rewrite bool_decide_eq_true_2. }
    pose proof (runPool_keeps trace _ _ _ Hstart) as Hend. fold s in Hend.
    assert (Hnone' : workerCache s !! lang = None).
    { unfold getProperty in Hend. now destruct (workerCache s !! lang). }
    rewrite Hnone' in H2.
    split; [exact H2|]. split; [exact Hnone'|]. split.
    + intros h Hh. apply (runPool_log trace s0) in Hh. fold s in Hh.
      assert (h = Inherited) as -> by congruence. now split.
    + now apply getWorker_cached.
Qed.

Lemma engine_shared_unless_inherited_witness :
  (exists id : nat,
      constructions (js "amh") (runPool emptyPool raceTrace).1 = 1 /\
      forall h, (js "amh", h) ∈ (runPool emptyPool raceTrace).2 ->
                h = EnginePromise id) /\
  callers (js "constructor") constructorTrace = 2 /\
  constructions (js "constructor") (runPool emptyPool constructorTrace).1 = 0 /\
  forall h, (js "constructor", h) ∈ (runPool emptyPool constructorTrace).2 ->
            h = Inherited.
Proof.
  split.
  - destruct (engine_shared_unless_inherited emptyPool raceTrace (js "amh")
                poolInv_empty eq_refl (list_elem_of_here _ _))
      as (_ & Hfresh & _).
    destruct Hfresh as (id & H1 & _ & H2 & _).
    + apply (bool_decide_eq_false_1 (js "amh" ∈ ObjectPrototype)).
      vm_compute. reflexivity.
    + exists id. split; assumption.
  - destruct (engine_shared_unless_inherited emptyPool constructorTrace
                (js "constructor") poolInv_empty eq_refl
                (list_elem_of_further _ _ _ (list_elem_of_here _ _)))
      as (_ & _ & Hproto).
    destruct (Hproto (list_elem_of_here _ _)) as (Hc & _ & Hlog & _).
    split; [reflexivity|]. split; [exact Hc|].
    intros h Hh. exact (proj1 (Hlog h Hh)).
Defined.

(** The names an empty object inherits are never uninitialized: a request
    for the tag ["constructor"] starts no construction and is handed the
    inherited member. *)
Remark getWorker_inherited_name :
  @getWorker nat string (js "constructor") emptyPool = (emptyPool, Inherited).
Proof. vm_compute. reflexivity. Qed.

(** ** Font asset cache *)

Section FontCacheFacts.

Variables ttfFile otfFile : option (list byte).

(** Once the cache is filled, a call returns the cached bytes and loads
    nothing. *)
Lemma loadFontData_memoized (s : FontState) (font : list byte) :
  fontCache s !! "noto-ethiopic"%string = Some font ->
  loadFontData ttfFile otfFile s =
  {| fontCache := fontCache s;
     fontTasks := fontTasks s ++ [FontReturned font];
     fileReads := fileReads s; fetches := fetches s |}.
Proof. unfold loadFontData. now intros ->. Qed.

(** With a local font file, the first call fills the cache before it
    returns. *)
Lemma loadFontData_local (s : FontState) (buf : list byte) :
  fontCache s !! "noto-ethiopic"%string = None ->
  ttfFile = Some buf ->
  fontCache (loadFontData ttfFile otfFile s) !! "noto-ethiopic"%string = Some buf /\
  fileReads (loadFontData ttfFile otfFile s) = S (fileReads s) /\
  fetches (loadFontData ttfFile otfFile s) = fetches s.
Proof.
  intros Hc ->. unfold loadFontData. rewrite Hc. simpl.
  now rewrite lookup_insert_eq.
Qed.

(** With a local font file nothing suspends: through any trace, the file is
    read at most once, no download starts, and every call has returned. *)
Lemma runFont_local (buf : list byte) (trace : list FontEvent) :
  ttfFile = Some buf ->
  let s := runFont ttfFile otfFile emptyFontState trace in
  fileReads s <= 1 /\ fetches s = 0 /\
  Forall (fun task => task = FontReturned buf) (fontTasks s).
Proof.
  intros Httf. cbv zeta. unfold runFont.
  assert (H : forall s,
             (fetches s = 0 /\
              Forall (fun task => task = FontReturned buf) (fontTasks s) /\
              (fontCache s !! "noto-ethiopic"%string = None /\ fileReads s = 0 \/
               fontCache s !! "noto-ethiopic"%string = Some buf /\ fileReads s = 1)) ->
             let s' := fold_left (fontStep ttfFile otfFile) trace s in
             fileReads s' <= 1 /\ fetches s' = 0 /\
             Forall (fun task => task = FontReturned buf) (fontTasks s')).
  { induction trace as [|ev trace IH]; intros s (Hf & Ht & Hc); simpl.
    - repeat split; trivial. destruct Hc as [[_ ->] | [_ ->]]; lia.
    - apply IH. destruct ev as [|id res|id]; simpl.
      + unfold loadFontData. rewrite Httf.
        destruct Hc as [[Hc Hr] | [Hc Hr]]; rewrite Hc; simpl.
        * rewrite lookup_insert_eq, Hr. repeat split; trivial; [|now right].
          apply Forall_app. split; trivial. now repeat constructor.
        * repeat split; trivial; [|now right].
          apply Forall_app. split; trivial. now repeat constructor.
      + unfold fetchSettled.
        destruct (fontTasks s !! id) as [task|] eqn:E; [|now repeat split].
        assert (task = FontReturned buf) as ->.
        { rewrite List.Forall_forall in Ht. apply Ht.
          apply list_elem_of_In. eapply list_elem_of_lookup_2; eauto. }
        now repeat split.
      + unfold bodyRead.
        destruct (fontTasks s !! id) as [task|] eqn:E; [|now repeat split].
        assert (task = FontReturned buf) as ->.
        { rewrite List.Forall_forall in Ht. apply Ht.
          apply list_elem_of_In. eapply list_elem_of_lookup_2; eauto. }
        now repeat split. }
  apply H. simpl. repeat split; trivial. left. now rewrite lookup_empty.
Qed.

End FontCacheFacts.

(** Without a local font file, every call that starts before a download
    has completed starts a download of its own. *)
Lemma loadFontData_calls_fetch_each (n : nat) :
  let s := runFont None None emptyFontState (replicate n FontCall) in
  fetches s = n /\ fontCache s = ∅ /\ fontTasks s = replicate n AwaitingFetch.
Proof.
  cbv zeta. unfold runFont.
  assert (H : forall s,
             fontCache s = ∅ ->
             let s' := fold_left (fontStep None None) (replicate n FontCall) s in
             fetches s' = fetches s + n /\ fontCache s' = ∅ /\
             fontTasks s' = fontTasks s ++ replicate n AwaitingFetch).
  { induction n as [|n IH]; intros s Hs; simpl.
    - now rewrite Nat.add_0_r, app_nil_r.
    - assert (E : loadFontData None None s =
                  {| fontCache := fontCache s;
                     fontTasks := fontTasks s ++ [AwaitingFetch];
                     fileReads := fileReads s; fetches := S (fetches s) |}).
      { unfold loadFontData. now rewrite Hs, lookup_empty. }
      rewrite E. clear E.
      set (s1 := {| fontCache := fontCache s;
                    fontTasks := fontTasks s ++ [AwaitingFetch];
                    fileReads := fileReads s; fetches := S (fetches s) |}).
      destruct (IH s1 Hs) as (H1 & H2 & H3).
      rewrite H1, H2, H3. simpl. rewrite <- app_assoc. simpl.
      repeat split. lia. }
  apply (H emptyFontState). reflexivity.
Qed.

(** C4 (the code at the failing input). No local font file; two calls of
    [loadFontData()] start before the first download completes: two
    downloads are started, not one, and each call stores its own copy. *)
Theorem loadFontData_concurrent_calls_fetch_twice :
  let s := runFont None None emptyFontState
             [FontCall; FontCall;
              FetchSettled 0 (Some downloaded); BodyRead 0;
              FetchSettled 1 (Some downloaded); BodyRead 1] in
  fetches s = 2 /\
  fontTasks s = [FontReturned (body downloaded); FontReturned (body downloaded)] /\
  fontCache s !! "noto-ethiopic"%string = Some (body downloaded).
Proof. vm_compute. repeat split. Qed.

(** ** Document assembler: the cleaning of a page text *)

Section CodeUnits.

(** A property of code units that the space and the line feed have is kept
    by every step of the cleaning. *)
Variable P : N -> Prop.
Hypothesis P_space : P 32%N.
Hypothesis P_newline : P 10%N.

Lemma replaceEach_Forall (class : N -> bool) (replacement s : jsstring) :
  Forall P replacement -> Forall P s -> Forall P (replaceEach class replacement s).
Proof.
  intros Hr Hs. unfold replaceEach.
  induction Hs as [|c s Hc Hs IH]; simpl; [constructor|].
  apply Forall_app. split; [|exact IH].
  destruct (class c); [exact Hr | now constructor].
Qed.

(** Replacing a class by code units that have the property leaves none
    without it, when all code units outside the class have it. *)
Lemma replaceEach_Forall_class (class : N -> bool) (replacement s : jsstring) :
  (forall c, class c = false -> P c) ->
  Forall P replacement -> Forall P (replaceEach class replacement s).
Proof.
  intros Hout Hr. unfold replaceEach.
  induction s as [|c s IH]; simpl; [constructor|].
  apply Forall_app. split; [|exact IH].
  destruct (class c) eqn:E; [exact Hr | constructor; auto].
Qed.

Lemma trimStart_Forall (s : jsstring) : Forall P s -> Forall P (trimStart s).
Proof.
  induction 1 as [|c s Hc Hs IH]; simpl; [constructor|].
  destruct (isWhiteSpace c); [exact IH | now constructor].
Qed.

Lemma trim_Forall (s : jsstring) : Forall P s -> Forall P (trim s).
Proof.
  intros H. unfold trim, trimEnd.
  apply Forall_rev, trimStart_Forall, Forall_rev, trimStart_Forall, H.
Qed.

Lemma collapseWhiteSpace_Forall (s : jsstring) :
  forall inRun, Forall P s -> Forall P (collapseWhiteSpace inRun s).
Proof.
  induction s as [|c s IH]; intros inRun H; simpl; [constructor|].
  apply Forall_cons in H as [Hc Hs].
  destruct (isWhiteSpace c); [destruct inRun|]; auto.
Qed.

Lemma splitParagraphs_Forall (s : jsstring) :
  forall current newlines,
    Forall P current -> Forall P s ->
    Forall (Forall P) (splitParagraphs current newlines s).
Proof.
  induction s as [|c s IH]; intros current newlines Hcur Hs; simpl.
  - destruct newlines as [|[|n]]; repeat constructor; trivial.
    apply Forall_app. split; trivial. now repeat constructor.
  - apply Forall_cons in Hs as [Hc Hs].
    destruct (c =? 10)%N; [now apply IH|].
    destruct newlines as [|[|n]].
    + apply IH; trivial. apply Forall_app. split; trivial. now repeat constructor.
    + apply IH; trivial. apply Forall_app. split; trivial. now repeat constructor.
    + constructor; trivial. apply IH; trivial. now repeat constructor.
Qed.

Lemma join_Forall (sep : jsstring) (l : list jsstring) :
  Forall P sep -> Forall (Forall P) l -> Forall P (join sep l).
Proof.
  intros Hsep. induction 1 as [|x l Hx Hl IH]; simpl; [constructor|].
  destruct l as [|y l]; trivial.
  apply Forall_app. split; trivial. apply Forall_app. split; trivial.
Qed.

Lemma normalizeText_Forall (cleaned : jsstring) :
  Forall P cleaned -> Forall P (normalizeText cleaned).
Proof.
  intros H. unfold normalizeText. apply join_Forall; [now repeat constructor|].
  apply List.Forall_forall. intros p Hp.
  apply List.filter_In in Hp as [Hp _].
  apply List.in_map_iff in Hp as (q & <- & Hq).
  apply collapseWhiteSpace_Forall, trim_Forall.
  pose proof (splitParagraphs_Forall cleaned [] 0 (List.Forall_nil _) H) as Hall.
  rewrite List.Forall_forall in Hall. now apply Hall.
Qed.

(** What holds of the cleaned text and of the placeholder holds of the
    text drawn. *)
Lemma pageText_Forall (isAmharic : bool) (rawText : jsstring) :
  Forall P (cleanText isAmharic rawText) ->
  Forall P (js "(empty)") ->
  Forall P (pageText isAmharic rawText).
Proof.
  intros Hc He. unfold pageText. cbv zeta.
  destruct (truthy (normalizeText _)); [now apply normalizeText_Forall|].
  now destruct (truthy _).
Qed.

End CodeUnits.

(** No control character is left in the cleaned text. *)
Lemma cleanText_no_control (isAmharic : bool) (rawText : jsstring) :
  Forall (fun c => isControl c = false) (cleanText isAmharic rawText).
Proof.
  assert (H : forall repl,
             Forall (fun c => isControl c = false) repl ->
             Forall (fun c => isControl c = false)
               (replaceEach isReplacementChar repl
                  (replaceEach isControl (js " ") rawText))).
  { intros repl Hrepl. apply replaceEach_Forall; trivial.
    apply replaceEach_Forall_class; [auto | now repeat constructor]. }
  unfold cleanText. cbv zeta. destruct isAmharic.
  - apply replaceEach_Forall; [constructor|].
    apply replaceEach_Forall; [constructor|]. apply H. constructor.
  - apply H. now repeat constructor.
Qed.

(** No replacement character is left in the cleaned text, Amharic or
    not. *)
Lemma cleanText_no_replacement_char (isAmharic : bool) (rawText : jsstring) :
  Forall (fun c => c <> 0xFFFD%N) (cleanText isAmharic rawText).
Proof.
  assert (H : forall repl,
             Forall (fun c => c <> 0xFFFD%N) repl ->
             Forall (fun c => c <> 0xFFFD%N)
               (replaceEach isReplacementChar repl
                  (replaceEach isControl (js " ") rawText))).
  { intros repl Hrepl. apply replaceEach_Forall_class; trivial.
    intros c. unfold isReplacementChar. now intros Hc%N.eqb_neq. }
  unfold cleanText. cbv zeta. destruct isAmharic.
  - apply replaceEach_Forall; [constructor|].
    apply replaceEach_Forall; [constructor|]. apply H. constructor.
  - apply H. now repeat constructor.
Qed.

(** C7 (the code, where it departs from the claim). The text drawn on a
    page never contains the replacement character U+FFFD: for a
    complex-script tag it is deleted, for the others it is turned into a
    space; so it is not kept for Amharic, whose page text a, U+FFFD, b is
    drawn as ab. Control characters are gone as well. *)
Theorem pageText_drops_replacement_char (lang rawText : jsstring) :
  let isAmharic := includes lang (js "amh") in
  Forall (fun c => c <> 0xFFFD%N) (pageText isAmharic rawText) /\
  Forall (fun c => isControl c = false) (pageText isAmharic rawText) /\
  pageText (includes (js "amh") (js "amh")) [97; 0xFFFD; 98]%N = [97; 98]%N /\
  pageText (includes (js "eng") (js "amh")) [97; 0xFFFD; 98]%N = [97; 32; 98]%N.
Proof.
  intros isAmharic. repeat split.
  - apply pageText_Forall; try discriminate.
    + apply cleanText_no_replacement_char.
    + repeat constructor; discriminate.
  - apply pageText_Forall; try reflexivity.
    + apply cleanText_no_control.
    + now repeat constructor.
Qed.

(** Paragraph breaks are kept and white space inside a paragraph is
    collapsed, in an example. *)
Example pageText_paragraphs :
  pageText false (js "  two   words " ++ [10; 10; 10]%N ++ js "next" ++ [9; 10]%N ++ js "line")
  = js "two words" ++ [10; 10]%N ++ js "next line".
Proof. vm_compute. reflexivity. Qed.

(** ** Promise.all *)

Section PromiseAllFacts.

Context {A : Type}.

Lemma mapM_id_Some (values : list A) : mapM id (Some <$> values) = Some values.
Proof.
  induction values as [|v values IH]; [reflexivity|].
  cbn. cbn in IH. now rewrite IH.
Qed.

(** When every promise fulfils, the slots hold, after the promises of
    [order] have settled, the value of each promise settled and what they
    held before for the others. *)
Lemma settleInOrder_fulfilled (values : list A) (order : list nat) :
  forall slots : list (option A),
    length slots = length values ->
    exists slots' : list (option A),
      settleInOrder (Return <$> values) slots order = Return slots' /\
      length slots' = length values /\
      forall k, k < length values ->
                slots' !! k = if decide (k ∈ order) then Some (values !! k)
                              else slots !! k.
Proof.
  induction order as [|i order IH]; intros slots Hlen; cbn [settleInOrder].
  - exists slots. split; [reflexivity|]. split; [exact Hlen|].
    intros k Hk. case_decide as Hin; [|reflexivity].
    exfalso. exact (proj1 (elem_of_nil k) Hin).
  - rewrite list_lookup_fmap.
    destruct (values !! i) as [v|] eqn:Ev; cbn [fmap option_fmap option_map].
    + destruct (IH (<[i := Some v]> slots)) as (slots' & Hrun & Hlen' & Hget).
      { now rewrite length_insert. }
      exists slots'. repeat split; trivial. intros k Hk.
      rewrite (Hget k Hk).
      destruct (decide (k ∈ order)) as [Hin|Hnin].
      * rewrite decide_True by (apply elem_of_cons; auto). reflexivity.
      * destruct (decide (k = i)) as [->|Hne].
        -- rewrite decide_True by (apply elem_of_cons; auto).
           rewrite list_lookup_insert_eq by lia. now rewrite Ev.
        -- rewrite decide_False by (rewrite elem_of_cons; tauto).
           now rewrite list_lookup_insert_ne.
    + destruct (IH slots Hlen) as (slots' & Hrun & Hlen' & Hget).
      exists slots'. repeat split; trivial. intros k Hk.
      rewrite (Hget k Hk).
      apply lookup_ge_None_1 in Ev.
      destruct (decide (k ∈ order)) as [Hin|Hnin].
      * rewrite decide_True by (apply elem_of_cons; auto). reflexivity.
      * rewrite decide_False; trivial. rewrite elem_of_cons. intros [-> | ?]; [lia | tauto].
Qed.

(** [Promise.all] of promises that all fulfil gives their values in the
    order of the promises, whatever the order in which they settle. *)
Lemma Promise_all_fulfilled (values : list A) (order : list nat) :
  order ≡ₚ seq 0 (length values) ->
  Promise_all (Return <$> values) order = Some (Return values).
Proof.
  intros Hperm. unfold Promise_all. rewrite length_fmap.
  destruct (settleInOrder_fulfilled values order (replicate (length values) None))
    as (slots' & -> & Hlen & Hget).
  { apply length_replicate. }
  assert (E : slots' = Some <$> values).
  { apply list_eq. intros k. rewrite list_lookup_fmap.
    destruct (decide (k < length values)) as [Hk|Hk].
    - rewrite (Hget k Hk). rewrite decide_True.
      + destruct (values !! k) eqn:Ev; trivial.
        apply lookup_ge_None_1 in Ev. lia.
      + rewrite Hperm. apply elem_of_seq. lia.
    - rewrite (lookup_ge_None_2 slots') by lia.
      now rewrite (lookup_ge_None_2 values) by lia. }
  rewrite E, mapM_id_Some. reflexivity.
Qed.

End PromiseAllFacts.

(** The second promise settles first; the values still come in the order
    of the promises. *)
Example Promise_all_positional :
  Promise_all [Return 1; Return 2] [1; 0] = Some (Return [1; 2]).
Proof. reflexivity. Qed.

(** ** The value of a double *)

Lemma digits2_pos_lower (m : positive) :
  (2 ^ (Zpos (digits2_pos m) - 1) <= Zpos m)%Z.
Proof.
  induction m as [m IH|m IH|]; simpl digits2_pos.
  - rewrite Pos2Z.inj_succ. replace (Z.succ (Zpos (digits2_pos m)) - 1)%Z
      with (Z.succ (Zpos (digits2_pos m) - 1))%Z by lia.
    rewrite Z.pow_succ_r by lia. lia.
  - rewrite Pos2Z.inj_succ. replace (Z.succ (Zpos (digits2_pos m)) - 1)%Z
      with (Z.succ (Zpos (digits2_pos m) - 1))%Z by lia.
    rewrite Z.pow_succ_r by lia. lia.
  - simpl. lia.
Qed.

(** A double within [1, 5] denotes a rational that is at least 1. *)
Lemma numberValue_ge_1 (x : float) :
  (1 <=? x)%float = true -> (x <=? 5)%float = true -> (1 <= numberValue x)%Q.
Proof.
  intros H1 H5. rewrite FloatAxioms.leb_spec in H1, H5.
  pose proof (Prim2SF_valid x) as Hv. unfold numberValue.
  assert (E1 : Prim2SF 1 = S754_finite false 4503599627370496 (-52))
    by (vm_compute; reflexivity).
  assert (E5 : Prim2SF 5 = S754_finite false 5629499534213120 (-50))
    by (vm_compute; reflexivity).
  rewrite E1 in H1. rewrite E5 in H5. clear E1 E5.
  destruct (Prim2SF x) as [s|s| |s m e]; try discriminate H1.
  - destruct s; [discriminate H1 | discriminate H5].
  - destruct s; [discriminate H1|].
    unfold SFleb, SFcompare in H1.
    unfold SpecFloat.valid_binary, bounded, canonical_mantissa, fexp, SpecFloat.emin in Hv.
    apply andb_prop in Hv as [Hc _]. apply Z.eqb_eq in Hc.
    change (PosDef.Pos.compare_cont Eq) with Pos.compare in H1.
    destruct (Z.compare_spec (-52) e) as [He | Hlt | Hgt]; [| |discriminate H1].
    + subst e. cbv zeta. unfold Qle. simpl Qnum. simpl Qden.
      destruct (Pos.compare_spec 4503599627370496 m) as [Hm | Hm | Hm];
        try discriminate H1; simpl; lia.
    + pose proof (digits2_pos_lower m) as Hd.
      assert (Hdig : Zpos (digits2_pos m) = 53%Z) by (unfold prec, emax in Hc; lia).
      rewrite Hdig in Hd. change (2 ^ (53 - 1))%Z with 4503599627370496%Z in Hd.
      destruct e as [|p|k]; cbv zeta.
      * rewrite <- (Zle_Qle 1). lia.
      * rewrite <- (Zle_Qle 1). pose proof (Z.pow_pos_nonneg 2 (Zpos p)). nia.
      * unfold Qle. simpl Qnum. simpl Qden.
        rewrite Pos2Z.inj_pow.
        assert (2 ^ Zpos k <= 2 ^ 51)%Z by (apply Z.pow_le_mono_r; lia).
        change (2 ^ 51)%Z with 2251799813685248%Z in *. lia.
Qed.
(** The rational of the configured batch size is at least 1. *)
Lemma batchSize_ge_1 (Number : jsstring -> float) (process_env : gmap string jsstring) :
  (1 <= numberValue (OCR_BATCH_SIZE Number process_env))%Q.
Proof.
  destruct (OCR_BATCH_SIZE_range Number process_env) as [H1 H5].
  now apply numberValue_ge_1.
Qed.

Example numberValue_default : (numberValue 3 == 3)%Q.
Proof. reflexivity. Qed.

(** ** Array indices *)

Lemma truncate_nonneg (q : Q) : (0 <= q)%Q -> truncate q = Qfloor q.
Proof.
  intros H. unfold truncate.
  destruct (Z.ltb_spec (Qnum q) 0) as [Hneg|]; trivial.
  unfold Qle in H. simpl in H. lia.
Qed.

Lemma Qfloor_nonneg (q : Q) : (0 <= q)%Q -> (0 <= Qfloor q)%Z.
Proof.
  intros H. apply Qfloor_resp_le in H. exact H.
Qed.

Lemma relativeIndex_nonneg (q : Q) (len : nat) :
  (0 <= q)%Q -> relativeIndex q len = Nat.min (Z.to_nat (Qfloor q)) len.
Proof.
  intros H. unfold relativeIndex. cbv zeta. rewrite truncate_nonneg by trivial.
  pose proof (Qfloor_nonneg q H).
  destruct (Z.ltb_spec (Qfloor q) 0); lia.
Qed.

Lemma Qlt_bool_true (a b : Q) : Qlt_bool a b = true <-> (a < b)%Q.
Proof.
  unfold Qlt_bool. rewrite negb_true_iff.
  destruct (Qle_bool b a) eqn:E.
  - apply Qle_bool_iff in E. split; [discriminate|].
    intros H. exfalso. exact (Qlt_not_le _ _ H E).
  - split; trivial. intros _. apply Qnot_le_lt. intros H.
    apply Qle_bool_iff in H. congruence.
Qed.

Lemma Qlt_bool_false (a b : Q) : Qlt_bool a b = false <-> (b <= a)%Q.
Proof.
  unfold Qlt_bool. rewrite negb_false_iff. apply Qle_bool_iff.
Qed.

(** A slice that starts where the part taken so far ends extends it. *)
Lemma take_slice {A : Type} (arr : list A) (start final : Q) :
  (0 <= start)%Q -> (start <= final)%Q ->
  take (relativeIndex start (length arr)) arr ++ slice arr start final =
  take (relativeIndex final (length arr)) arr.
Proof.
  intros H0 Hle. unfold slice. cbv zeta. rewrite take_take_drop. f_equal.
  assert (H1 : (0 <= final)%Q) by (eapply Qle_trans; eauto).
  rewrite !relativeIndex_nonneg by trivial.
  pose proof (Qfloor_resp_le _ _ Hle). pose proof (Qfloor_nonneg _ H0). lia.
Qed.

(** ** Batch scheduler *)

Section SchedulerFacts.

Variable host : Host.
Variable batchSize : Q.
Variable pageImages : list (list byte).
Variable lang : jsstring.

Hypothesis rounding : RoundsLikeDouble (roundSum host).
Hypothesis orders : forall j n, completionOrder host j n ≡ₚ seq 0 n.
Hypothesis batchSize_ge_1 : (1 <= batchSize)%Q.
Hypothesis length_bound : (Z.of_nat (length pageImages) <= 2 ^ 53)%Z.

(** A batch gives the outcomes of its pages, in the order of the pages. *)
Lemma batch_texts (j : nat) (batch : list (list byte)) :
  Promise_all (map (recognizePage host lang) batch)
    (completionOrder host j (length batch)) =
  Some (Return (map (pageOutcome host lang) batch)).
Proof.
  assert (E : map (recognizePage host lang) batch =
              Return <$> map (pageOutcome host lang) batch).
  { induction batch as [|p batch IH]; simpl; [reflexivity|]. f_equal; [|exact IH].
    unfold recognizePage, pageOutcome, catch. now destruct (ocrImage host p lang). }
  rewrite E. apply Promise_all_fulfilled. rewrite length_map. apply orders.
Qed.

(** The counter advances by at least one page. *)
Lemma counter_advances (i : Q) :
  (0 <= i)%Q -> (i < inject_Z (Z.of_nat (length pageImages)))%Q ->
  (inject_Z (Qfloor i + 1) <= roundSum host (i + batchSize))%Q.
Proof.
  intros H0 Hlt.
  assert (Hfl : (Qfloor i + 1 <= Z.of_nat (length pageImages))%Z).
  { pose proof (Qfloor_le i) as Hle.
    assert (Hz : (inject_Z (Qfloor i) < inject_Z (Z.of_nat (length pageImages)))%Q)
      by (eapply Qle_lt_trans; eauto).
    rewrite <- Zlt_Qlt in Hz. lia. }
  pose proof (Qfloor_nonneg i H0) as Hnn.
  rewrite <- (rnd_integer _ rounding (Qfloor i + 1)) by lia.
  apply (rnd_monotone _ rounding).
  rewrite inject_Z_plus. apply Qplus_le_compat; [apply Qfloor_le | exact batchSize_ge_1].
Qed.

(** The loop invariant: entered with the outcomes of the pages before the
    counter and fuel for the pages that remain, the loop returns the
    outcomes of all pages. *)
Lemma batchLoop_from (fuel : nat) :
  forall (i : Q) (j : nat) (texts : list jsstring),
    (0 <= i)%Q ->
    texts = map (pageOutcome host lang)
              (take (relativeIndex i (length pageImages)) pageImages) ->
    length pageImages - relativeIndex i (length pageImages) <= fuel ->
    batchLoop host fuel batchSize pageImages lang i j texts =
    Some (Return (map (pageOutcome host lang) pageImages)).
Proof.
  induction fuel as [|fuel IH]; intros i j texts H0 Htexts Hfuel;
    rewrite relativeIndex_nonneg in Htexts, Hfuel by trivial.
  - cbn [batchLoop].
    destruct (Qlt_bool i _) eqn:Hlt.
    + exfalso. apply Qlt_bool_true in Hlt.
      pose proof (Qfloor_le i) as Hle.
      assert (Hz : (inject_Z (Qfloor i) < inject_Z (Z.of_nat (length pageImages)))%Q)
        by (eapply Qle_lt_trans; eauto).
      rewrite <- Zlt_Qlt in Hz. pose proof (Qfloor_nonneg i H0). lia.
    + rewrite Htexts, take_ge by lia. reflexivity.
  - cbn [batchLoop].
    destruct (Qlt_bool i _) eqn:Hlt.
    + apply Qlt_bool_true in Hlt.
      pose proof (counter_advances i H0 Hlt) as Hadv.
      set (next := roundSum host (i + batchSize)) in *.
      assert (Hnext : (i <= next)%Q).
      { eapply Qle_trans; [|exact Hadv]. apply Qlt_le_weak, Qlt_floor. }
      assert (Hnext0 : (0 <= next)%Q) by (eapply Qle_trans; eauto).
      rewrite batch_texts.
      apply IH; trivial.
      * rewrite Htexts, <- map_app. f_equal.
        rewrite <- (relativeIndex_nonneg i) by trivial.
        now apply take_slice.
      * rewrite relativeIndex_nonneg by trivial.
        apply Qfloor_resp_le in Hadv. rewrite Qfloor_Z in Hadv.
        pose proof (Qfloor_nonneg i H0). lia.
    + apply Qlt_bool_false in Hlt.
      apply Qfloor_resp_le in Hlt. rewrite Qfloor_Z in Hlt.
      rewrite Htexts, take_ge by lia. reflexivity.
Qed.

(** The scheduler returns the outcome of every page at the index of the
    page. *)
Lemma batchLoop_all :
  batchLoop host (length pageImages) batchSize pageImages lang 0 0 [] =
  Some (Return (map (pageOutcome host lang) pageImages)).
Proof.
  apply batchLoop_from.
  - apply Qle_refl.
  - rewrite relativeIndex_nonneg by apply Qle_refl. reflexivity.
  - lia.
Qed.

End SchedulerFacts.

(** With the configured batch size, the scheduler returns the outcome of
    every page at the index of the page. *)
Lemma batchLoop_configured
  (host : Host) (pageImages : list (list byte)) (lang : jsstring) :
  RoundsLikeDouble (roundSum host) ->
  (forall j n, completionOrder host j n ≡ₚ seq 0 n) ->
  (Z.of_nat (length pageImages) <= 2 ^ 53)%Z ->
  batchLoop host (length pageImages)
    (numberValue (OCR_BATCH_SIZE (Number host) (process_env host)))
    pageImages lang 0 0 [] =
  Some (Return (map (pageOutcome host lang) pageImages)).
Proof.
  intros Hrnd Horders Hlen. apply batchLoop_all; trivial. apply batchSize_ge_1.
Qed.

Lemma map_pageOutcome_lookup
  (host : Host) (pageImages : list (list byte)) (lang : jsstring)
  (i : nat) (pageImage : list byte) :
  pageImages !! i = Some pageImage ->
  map (pageOutcome host lang) pageImages !! i = Some (pageOutcome host lang pageImage).
Proof.
  intros Hi. change map with (@fmap list _). now rewrite list_lookup_fmap, Hi.
Qed.

(** C1. For every sequence of page images and every language tag, the
    batch scheduler, run with the configured batch size, returns as many
    page texts as there are page images, and the text at index [i] is the
    recognition outcome of the page image at index [i] (its recognized text,
    or the failure marker), whatever the order in which the recognition
    calls of a batch complete. *)
Theorem batch_scheduler_preserves_order
  (host : Host) (pageImages : list (list byte)) (lang : jsstring) :
  let batchSize := numberValue (OCR_BATCH_SIZE (Number host) (process_env host)) in
  RoundsLikeDouble (roundSum host) ->
  (forall j n, completionOrder host j n ≡ₚ seq 0 n) ->
  (Z.of_nat (length pageImages) <= 2 ^ 53)%Z ->
  exists texts : list jsstring,
    batchLoop host (length pageImages) batchSize pageImages lang 0 0 [] =
      Some (Return texts) /\
    length texts = length pageImages /\
    forall (i : nat) (pageImage : list byte),
      pageImages !! i = Some pageImage ->
      texts !! i = Some (pageOutcome host lang pageImage).
Proof.
  intros batchSize Hrnd Horders Hlen.
  exists (map (pageOutcome host lang) pageImages). split; [|split].
  - now apply batchLoop_configured.
  - apply length_map.
  - intros i pageImage. apply map_pageOutcome_lookup.
Qed.

Lemma toyHost_rounds : RoundsLikeDouble (roundSum toyHost).
Proof. split; [intros a b H; exact H | intros z _; apply Qeq_refl]. Qed.

Lemma toyHost_orders (j n : nat) : completionOrder toyHost j n ≡ₚ seq 0 n.
Proof. symmetry. apply Permutation_rev. Qed.

(** Four pages, the second of which cannot be recognized, in two batches
    of three and one, each completing last page first. *)
Lemma batch_scheduler_preserves_order_witness :
  exists texts : list jsstring,
    batchLoop toyHost 4 (numberValue 3)
      [[Byte.x41]; [Byte.x00]; [Byte.x43]; [Byte.x44]] (js "eng") 0 0 [] =
      Some (Return texts) /\
    length texts = 4 /\
    texts !! 1 = Some (js "[OCR failed for this page]") /\
    texts !! 2 = Some (js "C").
Proof.
  destruct (batch_scheduler_preserves_order toyHost
              [[Byte.x41]; [Byte.x00]; [Byte.x43]; [Byte.x44]] (js "eng")
              toyHost_rounds toyHost_orders ltac:(vm_compute; discriminate))
    as (texts & Hrun & Hlen & Hget).
  exists texts. split; [exact Hrun|]. split; [exact Hlen|]. split.
  - exact (Hget 1 [Byte.x00] eq_refl).
  - exact (Hget 2 [Byte.x43] eq_refl).
Defined.

(** ** Trimming *)

Lemma trimStart_head (s : jsstring) (c : N) (r : jsstring) :
  trimStart s = c :: r -> isWhiteSpace c = false.
Proof.
  induction s as [|d s IH]; simpl; [discriminate|].
  destruct (isWhiteSpace d) eqn:E; [exact IH|].
  now intros [= <- _].
Qed.

Lemma trimStart_keeps (c : N) (r : jsstring) :
  isWhiteSpace c = false -> trimStart (c :: r) = c :: r.
Proof. intros H. simpl. now rewrite H. Qed.

(** A trimmed string that is not empty ends with a code unit that is not
    white space. *)
Lemma trim_last (u : jsstring) :
  trim u <> [] -> exists c r, rev (trim u) = c :: r /\ isWhiteSpace c = false.
Proof.
  unfold trim, trimEnd. rewrite rev_involutive. intros Hne.
  destruct (trimStart (rev (trimStart u))) as [|c r] eqn:E; [now elim Hne|].
  exists c, r. split; trivial. eapply trimStart_head; eauto.
Qed.

(** Trimming changes nothing between a first and a last code unit that are
    not white space. *)
Lemma trim_between (c : N) (a t r : jsstring) (d : N) :
  isWhiteSpace c = false -> rev t = d :: r -> isWhiteSpace d = false ->
  trim ((c :: a) ++ t) = (c :: a) ++ t.
Proof.
  intros Hc Ht Hd. unfold trim, trimEnd.
  change ((c :: a) ++ t) with (c :: (a ++ t)). rewrite (trimStart_keeps c) by trivial.
  change (c :: (a ++ t)) with ((c :: a) ++ t).
  rewrite rev_app_distr, Ht. change ((d :: r) ++ rev (c :: a)) with (d :: (r ++ rev (c :: a))).
  rewrite (trimStart_keeps d) by trivial.
  change (d :: (r ++ rev (c :: a))) with ((d :: r) ++ rev (c :: a)).
  now rewrite <- Ht, <- rev_app_distr, rev_involutive.
Qed.

(** The entry of a page whose text is trimmed and not empty is the header
    line followed by the text. *)
Lemma pageEntry_text (idx : nat) (u : jsstring) :
  trim u <> [] ->
  pageEntry idx (trim u) = js "Page " ++ ofNat (idx + 1) ++ [10%N] ++ trim u.
Proof.
  intros Hne. destruct (trim_last u Hne) as (d & r & Hrev & Hd).
  unfold pageEntry.
  assert (E : js "Page " ++ ofNat (idx + 1) ++ [10%N] ++ trim u =
              (80%N :: (js "age " ++ ofNat (idx + 1) ++ [10%N])) ++ trim u).
  { change (js "Page ") with ([80%N] ++ js "age ").
    cbn [app]. now rewrite <- !app_assoc. }
  rewrite E. eapply trim_between; eauto.
Qed.

(** The entry of a page whose text is empty is the header alone. *)
Lemma pageEntry_empty (idx : nat) :
  idx < 9 -> pageEntry idx [] = js "Page " ++ ofNat (idx + 1).
Proof.
  intros H. do 9 (destruct idx as [|idx]; [vm_compute; reflexivity|]). lia.
Qed.

(** ** Document assembler: pages *)

Section AssemblerFacts.

Variable host : Host.

Lemma drawPages_length (width height : float) (font : PdfLib.PDFFont)
      (isAmharic : bool) (texts : list jsstring) :
  forall pages0 pages,
    drawPages host width height font isAmharic texts pages0 = Return pages ->
    length pages = length pages0 + length texts.
Proof.
  induction texts as [|t texts IH]; intros pages0 pages H; simpl in H.
  - injection H as <-. simpl. lia.
  - destruct (drawPage host width height font isAmharic t) as [page|e];
      simpl in H; [|discriminate].
    apply IH in H. rewrite length_app in H. simpl in *. lia.
Qed.

(** One page per text, and one page for no text at all. *)
Lemma assemble_page_count (pageTexts : list jsstring) (lang : jsstring)
      (pdf : PdfLib.PDFDocument) :
  assemble host pageTexts lang = Return pdf ->
  length (PdfLib.pages pdf) = Nat.max 1 (length pageTexts).
Proof.
  unfold assemble. cbv zeta.
  destruct (awaitFontData host) as [fontData|e]; simpl; [|discriminate].
  destruct (embedFontError host fontData _); simpl; [discriminate|].
  destruct (drawPages host _ _ _ _ _ []) as [pages|e] eqn:E; simpl; [|discriminate].
  intros [= <-]. simpl. apply drawPages_length in E. rewrite E.
  destruct pageTexts; simpl; lia.
Qed.

Hypothesis works : assemblyWorks host.

Lemma drawPage_returns (width height : float) (font : PdfLib.PDFFont)
      (isAmharic : bool) (rawText : jsstring) :
  exists page, drawPage host width height font isAmharic rawText = Return page.
Proof.
  destruct works as (_ & Hfallback & _). unfold drawPage. cbv zeta.
  destruct (drawTextError host (pageText isAmharic rawText) _); [|eauto].
  rewrite Hfallback. eauto.
Qed.

Lemma drawPages_returns (width height : float) (font : PdfLib.PDFFont)
      (isAmharic : bool) (texts : list jsstring) :
  forall pages0,
    exists pages, drawPages host width height font isAmharic texts pages0 = Return pages.
Proof.
  induction texts as [|t texts IH]; intros pages0; simpl; [eauto|].
  destruct (drawPage_returns width height font isAmharic t) as [page ->]. simpl.
  apply IH.
Qed.

(** When the assembly works, a document is built and serialized, with one
    page per text. *)
Lemma buildSearchablePdf_returns (pageTexts : list jsstring) (lang : jsstring) :
  exists pdf b64,
    assemble host pageTexts lang = Return pdf /\
    saveAsBase64 host pdf = Return b64 /\
    buildSearchablePdf host pageTexts lang = Return b64 /\
    length (PdfLib.pages pdf) = Nat.max 1 (length pageTexts).
Proof.
  destruct works as ((fontData & Hfont & Hembed) & _ & Hsave).
  assert (Hdoc : exists pdf, assemble host pageTexts lang = Return pdf).
  { unfold assemble. cbv zeta. rewrite Hfont. simpl. rewrite Hembed. simpl.
    destruct (drawPages_returns 595.28%float 841.89%float
                {| PdfLib.fontData := fontData;
                   PdfLib.subset := negb (includes lang (js "amh")) |}
                (includes lang (js "amh"))
                (match pageTexts with [] => [js "(empty)"] | _ :: _ => pageTexts end) [])
      as [pages ->].
    simpl. eauto. }
  destruct Hdoc as [pdf Hpdf]. destruct (Hsave pdf) as [b64 Hb64].
  exists pdf, b64. repeat split; trivial.
  - unfold buildSearchablePdf. rewrite Hpdf. exact Hb64.
  - eapply assemble_page_count; eauto.
Qed.

End AssemblerFacts.

(** ** Rasterizer *)

Section RasterizerFacts.

Variable host : Host.

Lemma renderPages_length (pdf : PdfDoc host) (scale : float) (isAmharic : bool)
      (numbers : list nat) :
  forall pages0 pages,
    renderPages host pdf scale isAmharic numbers pages0 = Return pages ->
    length pages = length pages0 + length numbers.
Proof.
  induction numbers as [|i numbers IH]; intros pages0 pages H; simpl in H.
  - injection H as <-. simpl. lia.
  - destruct (getPage host pdf i) as [page|e]; simpl in H; [|discriminate].
    destruct (render host page scale) as [canvas|e]; simpl in H; [|discriminate].
    destruct (toBuffer host _) as [png|e]; simpl in H; [|discriminate].
    apply IH in H. rewrite length_app in H. simpl in *. lia.
Qed.

(** When the document loads and its first pages, ten at most, render, the
    rasterizer returns their images. *)
Lemma rasterizePdfPages_returns (pdfBytes : list byte) (lang : jsstring)
      (pdf : PdfDoc host) (pages : list (list byte)) :
  getDocument host pdfBytes = Return pdf ->
  renderPages host pdf (renderScale host lang) (includes lang (js "amh"))
    (seq 1 (Nat.min (numPages host pdf) 10)) [] = Return pages ->
  rasterizePdfPages host pdfBytes None (Some lang) = pages /\
  length pages = Nat.min (numPages host pdf) 10.
Proof.
  intros Hdoc Hrender. unfold rasterizePdfPages. cbv zeta. rewrite Hdoc.
  cbn [bind]. unfold renderScale in Hrender. rewrite Hrender. split; trivial.
  apply renderPages_length in Hrender. now rewrite length_seq in Hrender.
Qed.

(** Whatever fails for the whole document, the result is empty. *)
Lemma rasterizePdfPages_fails (pdfBytes : list byte) (maxPages : option nat)
      (lang : option jsstring) :
  (forall e, getDocument host pdfBytes = Throw e ->
             rasterizePdfPages host pdfBytes maxPages lang = []) /\
  (forall pdf scale isAmharic numbers e,
      getDocument host pdfBytes = Return pdf ->
      renderPages host pdf scale isAmharic numbers [] = Throw e ->
      scale = (if isAmharic then AMHARIC_RENDER_SCALE
               else RENDER_SCALE (Number host) (process_env host)) ->
      isAmharic = match lang with Some l => includes l (js "amh") | None => false end ->
      numbers = seq 1 (match maxPages with
                       | Some (S m) => Nat.min (numPages host pdf) (S m)
                       | _ => Nat.min (numPages host pdf) 10
                       end) ->
      rasterizePdfPages host pdfBytes maxPages lang = []).
Proof.
  split.
  - intros e H. unfold rasterizePdfPages. now rewrite H.
  - intros pdf scale isAmharic numbers e Hdoc Hrender -> -> ->.
    unfold rasterizePdfPages. cbv zeta. rewrite Hdoc. cbn [bind].
    now rewrite Hrender.
Qed.

End RasterizerFacts.

(** ** Orchestrator *)

Section OrchestratorFacts.

Variable host : Host.

Lemma pageOutcome_throws (lang : jsstring) (pageImage : list byte)
      (worker : Worker host) (e : Error) :
  awaitWorker host lang = Return worker ->
  recognize host worker pageImage lang = Throw e ->
  pageOutcome host lang pageImage = OCR_FAILED.
Proof.
  intros Hw Hr. unfold pageOutcome, ocrImage.
  rewrite Hw. cbn [bind]. now rewrite Hr.
Qed.

Lemma pageOutcome_text (lang : jsstring) (pageImage : list byte)
      (worker : Worker host) (t : option jsstring) :
  awaitWorker host lang = Return worker ->
  recognize host worker pageImage lang = Return t ->
  pageOutcome host lang pageImage =
  match t with Some t' => trim t' | None => [] end.
Proof.
  intros Hw Hr. unfold pageOutcome, ocrImage.
  rewrite Hw. cbn [bind]. now rewrite Hr.
Qed.

(** An outcome is always a trimmed string. *)
Lemma pageOutcome_trimmed (lang : jsstring) (pageImage : list byte) :
  exists u, pageOutcome host lang pageImage = trim u.
Proof.
  unfold pageOutcome, ocrImage.
  destruct (awaitWorker host lang) as [worker|e]; simpl;
    [|exists OCR_FAILED; vm_compute; reflexivity].
  destruct (recognize host worker pageImage lang) as [[t|]|e]; simpl.
  - now exists t.
  - now exists [].
  - exists OCR_FAILED. vm_compute. reflexivity.
Qed.

(** The image path recognizes the request's array as received. *)
Lemma convert_image (params : Params.t) :
  requestIsPdf host params = false ->
  convertToSearchablePdf host params =
  Some (recognizeDirectly host (Params.bytes params) (requestLang params)).
Proof. intros H. unfold convertToSearchablePdf. cbv zeta. now rewrite H. Qed.

(** The fallback of the PDF path recognizes the request's array as the
    loading of the document left it. *)
Lemma convert_no_pages (params : Params.t) :
  requestIsPdf host params = true ->
  rasterizePdfPages host (Params.bytes params) None (Some (requestLang params)) = [] ->
  convertToSearchablePdf host params =
  Some (recognizeDirectly host (dataAfterGetDocument host (Params.bytes params))
          (requestLang params)).
Proof.
  intros H E. unfold convertToSearchablePdf. cbv zeta. now rewrite H, E.
Qed.

(** A direct recognition throws the error of the recognition. *)
Lemma recognizeDirectly_throws (bytes : list byte) (lang : jsstring) (e : Error) :
  ocrImage host bytes lang = Throw e -> recognizeDirectly host bytes lang = Throw e.
Proof. intros H. unfold recognizeDirectly. now rewrite H. Qed.

(** What the direct recognition returns when the engine is there, the
    recognition returns and the assembly works. *)
Lemma recognizeDirectly_returns (bytes : list byte) (lang : jsstring)
      (worker : Worker host) (t : option jsstring) :
  awaitWorker host lang = Return worker ->
  recognize host worker bytes lang = Return t ->
  assemblyWorks host ->
  exists pdf b64,
    recognizeDirectly host bytes lang =
      Return {| text := match t with Some t' => trim t' | None => [] end;
                pdfBase64 := Some b64 |} /\
    assemble host [match t with Some t' => trim t' | None => [] end] lang
      = Return pdf /\
    saveAsBase64 host pdf = Return b64 /\
    length (PdfLib.pages pdf) = 1.
Proof.
  intros Hw Hr Hworks.
  destruct (buildSearchablePdf_returns host Hworks
              [match t with Some t' => trim t' | None => [] end] lang)
    as (pdf & b64 & Hpdf & Hsave & Hbuild & Hlen).
  exists pdf, b64. repeat split; trivial.
  unfold recognizeDirectly, ocrImage. rewrite Hw. cbn [bind]. rewrite Hr.
  cbn [bind]. now rewrite Hbuild.
Qed.

End OrchestratorFacts.

(** ** The conversion of a paginated document *)

Lemma toyHost_assembly (env : gmap string jsstring) : assemblyWorks (toyHostWith env).
Proof.
  split; [|split].
  - eexists. split; [reflexivity | intros; reflexivity].
  - intros options. reflexivity.
  - intros pdf. eexists. reflexivity.
Qed.

(** C2 (as the code has it). Take a PDF of N pages that loads and whose
    first M = min(N, 10) pages render (the pages after the tenth are
    dropped), the engine of the tag being there and the assembly working.
    When recognition throws for exactly one of these pages, page k, the
    conversion returns: with M page texts, the marker "[OCR failed for this
    page]" at position k and the trimmed recognized text at every other
    one; with, as text, the entries "Page i", line feed, text of page i,
    each trimmed, joined by blank lines in page order; and with a document
    of exactly M pages. For three pages of which the second fails and the
    other two have some text t1 and t3, the text is "Page 1\n" t1
    "\n\nPage 2\n[OCR failed for this page]\n\nPage 3\n" t3. *)
Theorem page_failure_keeps_the_document
  (host : Host) (params : Params.t) (pdf : PdfDoc host)
  (pageImages : list (list byte)) (worker : Worker host) (k : nat) :
  let lang := requestLang params in
  let M := Nat.min (numPages host pdf) 10 in
  requestIsPdf host params = true ->
  getDocument host (Params.bytes params) = Return pdf ->
  renderPages host pdf (renderScale host lang) (includes lang (js "amh"))
    (seq 1 M) [] = Return pageImages ->
  awaitWorker host lang = Return worker ->
  k < M ->
  (forall i pageImage,
      pageImages !! i = Some pageImage ->
      (i = k -> exists e, recognize host worker pageImage lang = Throw e) /\
      (i <> k -> exists t, recognize host worker pageImage lang = Return t)) ->
  RoundsLikeDouble (roundSum host) ->
  (forall j n, completionOrder host j n ≡ₚ seq 0 n) ->
  assemblyWorks host ->
  exists (texts : list jsstring) (document : PdfLib.PDFDocument) (b64 : jsstring),
    convertToSearchablePdf host params =
      Some (Return {| text := join [10; 10]%N (imap pageEntry texts);
                      pdfBase64 := Some b64 |}) /\
    length texts = M /\
    texts !! k = Some OCR_FAILED /\
    (forall i pageImage,
        i <> k -> pageImages !! i = Some pageImage ->
        exists t, recognize host worker pageImage lang = Return t /\
                  texts !! i = Some (match t with Some t' => trim t' | None => [] end)) /\
    assemble host texts lang = Return document /\
    saveAsBase64 host document = Return b64 /\
    length (PdfLib.pages document) = M /\
    (forall t1 t3,
        texts = [t1; OCR_FAILED; t3] -> t1 <> [] -> t3 <> [] ->
        join [10; 10]%N (imap pageEntry texts) =
        js "Page 1" ++ [10%N] ++ t1 ++ [10; 10]%N ++
        js "Page 2" ++ [10%N] ++ OCR_FAILED ++ [10; 10]%N ++
        js "Page 3" ++ [10%N] ++ t3).
Proof.
  intros lang M HisPdf Hdoc Hrender Hworker Hk Hpages Hrnd Horders Hworks.
  destruct (rasterizePdfPages_returns host _ lang pdf pageImages Hdoc Hrender)
    as [Hraster Hlen]. fold M in Hlen.
  assert (Hloop := batchLoop_configured host pageImages lang Hrnd Horders
                     ltac:(lia)).
  set (texts := map (pageOutcome host lang) pageImages) in *.
  assert (Htlen : length texts = length pageImages) by apply length_map.
  assert (Hget := map_pageOutcome_lookup host pageImages lang). fold texts in Hget.
  destruct (buildSearchablePdf_returns host Hworks texts lang)
    as (document & b64 & Hasm & Hsave & Hbuild & Hplen).
  exists texts, document, b64.
  assert (Hk' : exists pk, pageImages !! k = Some pk).
  { apply lookup_lt_is_Some_2. lia. }
  destruct Hk' as [pk Hpk].
  split; [|split; [|split; [|split; [|split; [|split; [|split]]]]]]; trivial.
  - unfold convertToSearchablePdf. cbv zeta. rewrite HisPdf.
    fold lang. rewrite Hraster.
    destruct pageImages as [|p ps]; [simpl in Hlen; lia|].
    rewrite Hloop. now rewrite Hbuild.
  - lia.
  - rewrite (Hget k pk Hpk). f_equal.
    destruct (proj1 (Hpages k pk Hpk) eq_refl) as [e He].
    eapply pageOutcome_throws; eauto.
  - intros i pageImage Hne Hi.
    destruct (proj2 (Hpages i pageImage Hi) Hne) as [t Ht].
    exists t. split; trivial. rewrite (Hget i pageImage Hi). f_equal.
    eapply pageOutcome_text; eauto.
  - rewrite Hplen. lia.
  - intros t1 t3 -> Ht1 Ht3.
    assert (Htrim : forall i t, [t1; OCR_FAILED; t3] !! i = Some t ->
                                exists u, t = trim u).
    { intros i t Hi.
      destruct (lookup_lt_is_Some_2 pageImages i) as [p Hp].
      { apply lookup_lt_Some in Hi. lia. }
      rewrite (Hget i p Hp) in Hi. injection Hi as <-.
      apply pageOutcome_trimmed. }
    destruct (Htrim 0 t1 eq_refl) as [u1 ->].
    destruct (Htrim 2 t3 eq_refl) as [u3 ->].
    cbn [imap join app].
    rewrite (pageEntry_text 0 u1 Ht1). unfold compose.
    rewrite (pageEntry_text 2 u3 Ht3).
    change (pageEntry 1 OCR_FAILED) with (js "Page 2" ++ [10%N] ++ OCR_FAILED).
    change (ofNat (0 + 1)) with (js "1"). change (ofNat (2 + 1)) with (js "3").
    change (js "Page " ++ js "1") with (js "Page 1").
    rewrite <- !app_assoc. reflexivity.
Qed.

Lemma page_failure_keeps_the_document_witness :
  exists (texts : list jsstring) (document : PdfLib.PDFDocument),
    convertToSearchablePdf toyHost threePages =
      Some (Return {| text := join [10; 10]%N (imap pageEntry texts);
                      pdfBase64 := Some (js "3") |}) /\
    length texts = 3 /\
    texts !! 1 = Some (js "[OCR failed for this page]") /\
    length (PdfLib.pages document) = 3.
Proof.
  destruct (page_failure_keeps_the_document toyHost threePages
              [Byte.x41; Byte.x00; Byte.x43]
              [[Byte.x41; Byte.x41; Byte.x41; Byte.xff];
               [Byte.x00; Byte.x00; Byte.x00; Byte.xff];
               [Byte.x43; Byte.x43; Byte.x43; Byte.xff]]
              tt 1 eq_refl eq_refl eq_refl eq_refl ltac:(vm_compute; lia))
    as (texts & document & b64 & Hconv & Hlen & Hk & _ & _ & Hsave & Hpages & _).
  - intros [|[|[|i]]] pageImage H; simpl in H; try discriminate H;
      injection H as <-; split; intros Hi; try lia; try discriminate Hi;
      eexists; reflexivity.
  - exact toyHost_rounds.
  - exact toyHost_orders.
  - exact (toyHost_assembly ∅).
  - exists texts, document. split; [|split; [|split]]; trivial.
    rewrite Hconv. do 3 f_equal.
    simpl in Hsave. rewrite Hpages in Hsave. now injection Hsave as <-.
Defined.

(** C2, as stated, fails beyond ten pages: of an eleven-page document, one
    page of which cannot be recognized, ten pages are rasterized and the
    output document has ten pages. *)
Lemma eleven_pages_give_ten :
  (numPages toyHost <$> match getDocument toyHost (Params.bytes elevenPages) with
                        | Return pdf => Some pdf
                        | Throw _ => None
                        end) = Some 11 /\
  length (rasterizePdfPages toyHost (Params.bytes elevenPages) None (Some (js "eng"))) = 10 /\
  (exists text,
      convertToSearchablePdf toyHost elevenPages =
      Some (Return {| text := text; pdfBase64 := Some (js "10") |})).
Proof.
  split; [reflexivity|]. split; [vm_compute; reflexivity|].
  eexists. vm_compute. reflexivity.
Qed.

(** A blank first page leaves its header alone in the text: the line feed
    after it is trimmed away. *)
Example blank_page_entry :
  join [10; 10]%N (imap pageEntry [[]; OCR_FAILED; js "c"]) =
  js "Page 1" ++ [10; 10]%N ++ js "Page 2" ++ [10%N] ++ OCR_FAILED ++
  [10; 10]%N ++ js "Page 3" ++ [10%N] ++ js "c".
Proof. vm_compute. reflexivity. Qed.

(** ** The fallback on a rasterization failure *)

(** C5 (the code at the failing input). For a PDF request: when loading
    the document throws, or rendering one of its pages does, the
    rasterizer returns an empty array. The orchestrator then attempts the
    direct recognition of [params.bytes], but that is the array the
    rasterizer handed to [getDocument]: the recognition reads what the
    loading left in it, not the input. When pdf.js has taken the buffer
    over, the call recognizes the empty array whatever the request held:
    the conversion returns the text found in nothing, with a document of
    one page, or throws the error of that recognition. *)
Theorem fallback_recognizes_what_pdfjs_left (host : Host) (params : Params.t) :
  let lang := requestLang params in
  let bytes := Params.bytes params in
  requestIsPdf host params = true ->
  (forall e, getDocument host bytes = Throw e ->
             rasterizePdfPages host bytes None (Some lang) = []) /\
  (forall pdf e,
      getDocument host bytes = Return pdf ->
      renderPages host pdf (renderScale host lang) (includes lang (js "amh"))
        (seq 1 (Nat.min (numPages host pdf) 10)) [] = Throw e ->
      rasterizePdfPages host bytes None (Some lang) = []) /\
  (rasterizePdfPages host bytes None (Some lang) = [] ->
   convertToSearchablePdf host params =
     Some (let* text := ocrImage host (dataAfterGetDocument host bytes) lang in
           let* pdfBase64 := buildSearchablePdf host [text] lang in
           Return {| text := text; pdfBase64 := Some pdfBase64 |}) /\
   (dataAfterGetDocument host bytes = [] ->
    forall worker,
      awaitWorker host lang = Return worker ->
      (forall t,
          recognize host worker [] lang = Return t ->
          assemblyWorks host ->
          exists document b64,
            convertToSearchablePdf host params =
              Some (Return {| text := match t with
                                      | Some t' => trim t'
                                      | None => []
                                      end;
                              pdfBase64 := Some b64 |}) /\
            assemble host [match t with Some t' => trim t' | None => [] end] lang
              = Return document /\
            saveAsBase64 host document = Return b64 /\
            length (PdfLib.pages document) = 1) /\
      (forall e,
          recognize host worker [] lang = Throw e ->
          convertToSearchablePdf host params = Some (Throw e)))).
Proof.
  intros lang bytes HisPdf.
  destruct (rasterizePdfPages_fails host bytes None (Some lang)) as [Hload Hrender].
  split; [exact Hload|]. split.
  - intros pdf e Hdoc Hthrow. eapply Hrender; eauto.
  - intros Hempty. pose proof (convert_no_pages host params HisPdf Hempty) as Hconv.
    fold lang bytes in Hconv.
    split; [exact Hconv|].
    intros Htaken worker Hw. rewrite Hconv, Htaken. split.
    + intros t Hr Hworks.
      destruct (recognizeDirectly_returns host [] lang worker t Hw Hr Hworks)
        as (document & b64 & Hret & Hasm & Hsave & Hlen).
      exists document, b64. rewrite Hret. auto.
    + intros e Hr. f_equal. apply recognizeDirectly_throws.
      unfold ocrImage. rewrite Hw. cbn [bind]. now rewrite Hr.
Qed.

Lemma fallback_recognizes_what_pdfjs_left_witness :
  rasterizePdfPages toyHost (Params.bytes scanSentAsPdf) None (Some (js "eng")) = [] /\
  ocrImage toyHost (Params.bytes scanSentAsPdf) (js "eng") = Return (js "AB") /\
  exists document,
    convertToSearchablePdf toyHost scanSentAsPdf =
      Some (Return {| text := []; pdfBase64 := Some (js "1") |}) /\
    length (PdfLib.pages document) = 1.
Proof.
  destruct (fallback_recognizes_what_pdfjs_left toyHost scanSentAsPdf eq_refl)
    as (Hload & _ & Hfall).
  pose proof (Hload _ eq_refl) as Hempty. split; [exact Hempty|].
  split; [reflexivity|].
  destruct (proj1 (proj2 (Hfall Hempty) eq_refl tt eq_refl) _ eq_refl
              (toyHost_assembly ∅))
    as (document & b64 & Hconv & _ & Hsave & Hlen).
  exists document. split; [|exact Hlen].
  rewrite Hconv. do 3 f_equal.
  simpl in Hsave. rewrite Hlen in Hsave. now injection Hsave as <-.
Defined.

(** The same two bytes sent as an image are recognized as received: the
    fallback is the only path on which the input is lost. *)
Example image_bytes_are_recognized_as_received :
  convertToSearchablePdf toyHost amharicScan =
    Some (Return {| text := js "AB"; pdfBase64 := Some (js "1") |}) /\
  Params.bytes amharicScan = Params.bytes scanSentAsPdf.
Proof. split; vm_compute; reflexivity. Qed.

(** ** A single image *)

(** C6 (the code at the failing input). For a request that is no PDF, the
    conversion recognizes the bytes it was given, as they are: nothing is
    binarized on this path, whatever the tag and the binarization toggle
    (binarization is a step of the rasterizer, which this path does not
    enter). The document has one page; for a tag containing "amh" its text,
    when it draws, is set in size 16 with line height 22, and the font is
    embedded whole. *)
Theorem image_path_recognizes_raw_bytes (host : Host) (params : Params.t) :
  let lang := requestLang params in
  let bytes := Params.bytes params in
  requestIsPdf host params = false ->
  convertToSearchablePdf host params =
    Some (let* text := ocrImage host bytes lang in
          let* pdfBase64 := buildSearchablePdf host [text] lang in
          Return {| text := text; pdfBase64 := Some pdfBase64 |}) /\
  ocrImage host bytes lang =
    (let* worker := awaitWorker host lang in
     let* text := recognize host worker bytes lang in
     Return (match text with Some t => trim t | None => [] end)) /\
  (forall text document,
      assemble host [text] lang = Return document ->
      length (PdfLib.pages document) = 1 /\
      (includes lang (js "amh") = true ->
       forall page drawnText options,
         PdfLib.pages document = [page] ->
         PdfLib.drawn page = [(drawnText, options)] ->
         drawnText <> fallbackText ->
         PdfLib.size options = 16%float /\
         PdfLib.lineHeight options = Some 22%float /\
         PdfLib.subset (PdfLib.font options) = false)).
Proof.
  intros lang bytes HisPdf. split; [exact (convert_image host params HisPdf)|].
  split; [reflexivity|].
  intros text document Hasm. split.
  - now rewrite (assemble_page_count host [text] lang document Hasm).
  - intros Hamh page drawnText options Hpages Hdrawn Hne.
    unfold assemble in Hasm. cbv zeta in Hasm. rewrite Hamh in Hasm.
    destruct (awaitFontData host) as [fontData|e]; simpl in Hasm; [|discriminate].
    destruct (embedFontError host fontData false); simpl in Hasm; [discriminate|].
    unfold drawPage in Hasm. cbv zeta in Hasm.
    destruct (drawTextError host (pageText true text) _); simpl in Hasm.
    + destruct (drawTextError host fallbackText _); simpl in Hasm; [discriminate|].
      injection Hasm as <-. simpl in Hpages. injection Hpages as <-.
      simpl in Hdrawn. injection Hdrawn as <- <-. now elim Hne.
    + injection Hasm as <-. simpl in Hpages. injection Hpages as <-.
      simpl in Hdrawn. injection Hdrawn as <- <-. auto.
Qed.

Lemma image_path_recognizes_raw_bytes_witness :
  convertToSearchablePdf toyHost amharicScan =
    Some (Return {| text := js "AB"; pdfBase64 := Some (js "1") |}) /\
  convertToSearchablePdf
    (toyHostWith {[ "OCR_BINARIZE"%string := js "1" ]}) amharicScan =
    Some (Return {| text := js "AB"; pdfBase64 := Some (js "1") |}).
Proof.
  split.
  - rewrite (proj1 (image_path_recognizes_raw_bytes toyHost amharicScan eq_refl)).
    reflexivity.
  - rewrite (proj1 (image_path_recognizes_raw_bytes
                      (toyHostWith {[ "OCR_BINARIZE"%string := js "1" ]})
                      amharicScan eq_refl)).
    reflexivity.
Defined.

(** On the PDF path the same tag does binarize each page before it is
    recognized: the grey page of the toy document comes out white. *)
Example pdf_path_binarizes_amharic :
  rasterizePdfPages toyHost [Byte.x25; Byte.xc8] None (Some (js "amh")) =
    [[Byte.xff; Byte.xff; Byte.xff; Byte.xff]] /\
  rasterizePdfPages toyHost [Byte.x25; Byte.xc8] None (Some (js "eng")) =
    [[Byte.xc8; Byte.xc8; Byte.xc8; Byte.xff]].
Proof. split; vm_compute; reflexivity. Qed.
(** ** Trimming and collapsing, again *)

Lemma trimStart_snoc (s : jsstring) (c : N) :
  isWhiteSpace c = false -> trimStart (s ++ [c]) = trimStart s ++ [c].
Proof.
  intros Hc. induction s as [|d s IH]; simpl.
  - now rewrite Hc.
  - destruct (isWhiteSpace d); [exact IH | reflexivity].
Qed.

(** A trimmed string starts with a code unit that is not white space. *)
Lemma trim_first (s : jsstring) (c : N) (r : jsstring) :
  trim s = c :: r -> isWhiteSpace c = false.
Proof.
  unfold trim, trimEnd.
  destruct (trimStart s) as [|c0 r0] eqn:E; [discriminate|].
  pose proof (trimStart_head s c0 r0 E) as Hc0.
  simpl rev. rewrite trimStart_snoc by trivial.
  rewrite rev_app_distr. simpl. now intros [= <- _].
Qed.

(** A string that neither starts nor ends with white space is its own
    trimming. *)
Lemma trim_fixed (s : jsstring) :
  (forall c r, s = c :: r -> isWhiteSpace c = false) ->
  (forall d r, rev s = d :: r -> isWhiteSpace d = false) ->
  trim s = s.
Proof.
  intros Hfirst Hlast. unfold trim, trimEnd.
  destruct s as [|c r]; [reflexivity|].
  rewrite (trimStart_keeps c r) by (eapply Hfirst; eauto).
  destruct (rev (c :: r)) as [|d r'] eqn:E.
  - apply (f_equal (@length N)) in E. rewrite length_rev in E. discriminate.
  - rewrite (trimStart_keeps d r') by (eapply Hlast; eauto).
    now rewrite <- E, rev_involutive.
Qed.

Lemma trim_idempotent (s : jsstring) : trim (trim s) = trim s.
Proof.
  apply trim_fixed.
  - intros c r. apply trim_first.
  - intros d r E. destruct (trim s) as [|c0 r0] eqn:Et; [discriminate|].
    assert (Hne : trim s <> []) by (rewrite Et; discriminate).
    destruct (trim_last s Hne) as (d' & r' & Hrev & Hd').
    rewrite Et in Hrev. rewrite Hrev in E. now injection E as <- _.
Qed.

Lemma collapseWhiteSpace_idempotent (s : jsstring) :
  forall inRun : bool,
    collapseWhiteSpace inRun (collapseWhiteSpace inRun s) = collapseWhiteSpace inRun s.
Proof.
  induction s as [|c s IH]; intros inRun; [reflexivity|]. simpl.
  destruct (isWhiteSpace c) eqn:Hc.
  - destruct inRun; [apply IH|].
    simpl. now rewrite IH.
  - simpl. rewrite Hc. now rewrite IH.
Qed.

Lemma collapseWhiteSpace_snoc (s : jsstring) (d : N) :
  isWhiteSpace d = false ->
  forall inRun : bool,
    collapseWhiteSpace inRun (s ++ [d]) = collapseWhiteSpace inRun s ++ [d].
Proof.
  intros Hd. induction s as [|c s IH]; intros inRun; simpl.
  - now rewrite Hd.
  - destruct (isWhiteSpace c); [destruct inRun|]; simpl; now rewrite IH.
Qed.

(** What is left of white space after collapsing is spaces. *)
Lemma collapseWhiteSpace_spaces (s : jsstring) :
  forall inRun : bool,
    Forall (fun c => isWhiteSpace c = true -> c = 32%N) (collapseWhiteSpace inRun s).
Proof.
  induction s as [|c s IH]; intros inRun; simpl; [constructor|].
  destruct (isWhiteSpace c) eqn:Hc.
  - destruct inRun; [apply IH|]. constructor; [trivial | apply IH].
  - constructor; [congruence | apply IH].
Qed.

(** A paragraph as [normalizeText] makes it: trimmed, then collapsed. *)
Lemma paragraph_trimmed (q : jsstring) :
  trim (collapseWhiteSpace false (trim q)) = collapseWhiteSpace false (trim q).
Proof.
  destruct (trim q) as [|c r] eqn:E; [reflexivity|].
  pose proof (trim_first q c r E) as Hc.
  assert (Hne : trim q <> []) by (rewrite E; discriminate).
  destruct (trim_last q Hne) as (d & r' & Hrev & Hd). rewrite E in Hrev.
  apply trim_fixed.
  - simpl. rewrite Hc. now intros c0 r0 [= <- _].
  - intros d0 r0.
    assert (Es : c :: r = rev r' ++ [d]).
    { rewrite <- (rev_involutive (c :: r)), Hrev. reflexivity. }
    rewrite Es, collapseWhiteSpace_snoc, rev_app_distr by trivial.
    simpl. now intros [= <- _].
Qed.

Lemma paragraph_idempotent (q : jsstring) :
  collapseWhiteSpace false (trim (collapseWhiteSpace false (trim q))) =
  collapseWhiteSpace false (trim q).
Proof. now rewrite paragraph_trimmed, collapseWhiteSpace_idempotent. Qed.

Lemma paragraph_no_line_feed (q : jsstring) :
  Forall (fun c => c <> 10%N) (collapseWhiteSpace false (trim q)).
Proof.
  eapply Forall_impl; [apply collapseWhiteSpace_spaces|].
  intros c H ->. specialize (H eq_refl). discriminate.
Qed.

(** ** Splitting what was joined *)

Lemma splitParagraphs_piece (p : jsstring) :
  Forall (fun c => c <> 10%N) p ->
  forall current s,
    splitParagraphs current 0 (p ++ s) = splitParagraphs (current ++ p) 0 s.
Proof.
  induction 1 as [|c p Hc _ IH]; intros current s; simpl.
  - now rewrite app_nil_r.
  - apply N.eqb_neq in Hc. rewrite Hc, IH, <- app_assoc. reflexivity.
Qed.

Lemma splitParagraphs_join (ps : list jsstring) :
  ps <> [] ->
  Forall (fun p => p <> [] /\ Forall (fun c => c <> 10%N) p) ps ->
  splitParagraphs [] 0 (join [10; 10]%N ps) = ps.
Proof.
  induction ps as [|p ps IH]; [congruence|]. intros _ Hall.
  apply Forall_cons in Hall as [[Hp Hnl] Hall].
  destruct ps as [|q ps].
  - pose proof (splitParagraphs_piece p Hnl [] []) as E.
    rewrite app_nil_r in E. exact E.
  - change (join [10; 10]%N (p :: q :: ps))
      with (p ++ [10; 10]%N ++ join [10; 10]%N (q :: ps)).
    rewrite splitParagraphs_piece by trivial. simpl app at 1.
    specialize (IH ltac:(discriminate) Hall).
    pose proof Hall as Hq. apply Forall_cons in Hq as [[Hq Hqnl] _].
    destruct q as [|c q]; [congruence|].
    assert (Ej : exists rest, join [10; 10]%N ((c :: q) :: ps) = c :: rest).
    { destruct ps; simpl; eauto. }
    destruct Ej as [rest Ej]. rewrite Ej in IH |- *.
    apply Forall_cons in Hqnl as [Hc _]. apply N.eqb_neq in Hc.
    simpl. simpl in IH. rewrite Hc in IH |- *. now rewrite IH.
Qed.
(** ** Document assembler: the text of a page *)

Lemma replaceEach_fixed (class : N -> bool) (replacement s : jsstring) :
  Forall (fun c => class c = false) s -> replaceEach class replacement s = s.
Proof.
  induction 1 as [|c s Hc _ IH]; [reflexivity|].
  unfold replaceEach in *. simpl. now rewrite Hc, IH.
Qed.

Lemma keptByCleaning_spec (isAmharic : bool) (c : N) :
  keptByCleaning isAmharic c = true <->
  isControl c = false /\ isReplacementChar c = false /\
  (isAmharic = true -> isZeroWidth c = false /\ isBidiControl c = false).
Proof.
  unfold keptByCleaning.
  destruct (isControl c), (isReplacementChar c), isAmharic, (isZeroWidth c),
    (isBidiControl c); simpl; intuition congruence.
Qed.

(** The cleaning changes nothing in a text of code units it keeps. *)
Lemma cleanText_fixed (isAmharic : bool) (s : jsstring) :
  Forall (fun c => keptByCleaning isAmharic c = true) s -> cleanText isAmharic s = s.
Proof.
  intros H. unfold cleanText. cbv zeta.
  assert (H1 : Forall (fun c => isControl c = false) s).
  { eapply Forall_impl; [exact H|]. intros c Hc. now apply keptByCleaning_spec in Hc. }
  assert (H2 : Forall (fun c => isReplacementChar c = false) s).
  { eapply Forall_impl; [exact H|]. intros c Hc. now apply keptByCleaning_spec in Hc. }
  rewrite (replaceEach_fixed isControl) by trivial.
  rewrite (replaceEach_fixed isReplacementChar) by trivial.
  destruct isAmharic; [|reflexivity].
  assert (H3 : Forall (fun c => isZeroWidth c = false) s).
  { eapply Forall_impl; [exact H|]. intros c Hc.
    apply keptByCleaning_spec in Hc. now apply Hc. }
  assert (H4 : Forall (fun c => isBidiControl c = false) s).
  { eapply Forall_impl; [exact H|]. intros c Hc.
    apply keptByCleaning_spec in Hc. now apply Hc. }
  rewrite (replaceEach_fixed isZeroWidth) by trivial.
  now rewrite (replaceEach_fixed isBidiControl).
Qed.

(** A cleaned text holds only code units the cleaning keeps. *)
Lemma cleanText_kept (isAmharic : bool) (rawText : jsstring) :
  Forall (fun c => keptByCleaning isAmharic c = true) (cleanText isAmharic rawText).
Proof.
  assert (Hbase : forall repl,
             Forall (fun c => isControl c = false /\ isReplacementChar c = false) repl ->
             Forall (fun c => isControl c = false /\ isReplacementChar c = false)
               (replaceEach isReplacementChar repl
                  (replaceEach isControl (js " ") rawText))).
  { intros repl Hrepl.
    assert (H1 : Forall (fun c => isControl c = false)
                   (replaceEach isReplacementChar repl
                      (replaceEach isControl (js " ") rawText))).
    { apply replaceEach_Forall.
      - eapply Forall_impl; [exact Hrepl|]. now intros c [? _].
      - apply replaceEach_Forall_class; [auto | now repeat constructor]. }
    assert (H2 : Forall (fun c => isReplacementChar c = false)
                   (replaceEach isReplacementChar repl
                      (replaceEach isControl (js " ") rawText))).
    { apply replaceEach_Forall_class; [auto|].
      eapply Forall_impl; [exact Hrepl|]. now intros c [_ ?]. }
    rewrite List.Forall_forall in *. intros c Hc. split; auto. }
  unfold cleanText. cbv zeta. destruct isAmharic.
  - specialize (Hbase [] ltac:(constructor)).
    set (cleaned := replaceEach isReplacementChar [] _) in *.
    assert (Hz : Forall (fun c => isZeroWidth c = false)
                   (replaceEach isBidiControl [] (replaceEach isZeroWidth [] cleaned))).
    { apply replaceEach_Forall; [constructor|].
      apply replaceEach_Forall_class; [auto | constructor]. }
    assert (Hb : Forall (fun c => isBidiControl c = false)
                   (replaceEach isBidiControl [] (replaceEach isZeroWidth [] cleaned))).
    { apply replaceEach_Forall_class; [auto | constructor]. }
    assert (Hk : Forall (fun c => isControl c = false /\ isReplacementChar c = false)
                   (replaceEach isBidiControl [] (replaceEach isZeroWidth [] cleaned))).
    { apply replaceEach_Forall; [constructor|].
      apply replaceEach_Forall; [constructor | exact Hbase]. }
    rewrite List.Forall_forall in *. intros c Hc.
    apply keptByCleaning_spec. destruct (Hk c Hc). auto.
  - specialize (Hbase (js " ") ltac:(now repeat constructor)).
    eapply Forall_impl; [exact Hbase|]. intros c [? ?].
    apply keptByCleaning_spec. repeat split; trivial; discriminate.
Qed.

Lemma pageText_kept (isAmharic : bool) (rawText : jsstring) :
  Forall (fun c => keptByCleaning isAmharic c = true) (pageText isAmharic rawText).
Proof.
  apply pageText_Forall.
  - now destruct isAmharic.
  - now destruct isAmharic.
  - apply cleanText_kept.
  - destruct isAmharic; now repeat constructor.
Qed.

(** The paragraphs of a normalized text. *)
Lemma normalizeText_paragraphs (cleaned : jsstring) :
  exists paragraphs,
    normalizeText cleaned = join [10; 10]%N paragraphs /\
    Forall isParagraph paragraphs.
Proof.
  unfold normalizeText. cbv zeta.
  eexists. split; [reflexivity|].
  rewrite List.Forall_forall. intros p Hp.
  apply List.filter_In in Hp as [Hin Htruthy].
  apply List.in_map_iff in Hin as (q & <- & _).
  repeat split.
  - intros E. rewrite E in Htruthy. discriminate.
  - apply paragraph_trimmed.
  - apply collapseWhiteSpace_idempotent.
  - apply collapseWhiteSpace_spaces.
Qed.

Lemma isParagraph_no_line_feed (p : jsstring) :
  isParagraph p -> p <> [] /\ Forall (fun c => c <> 10%N) p.
Proof.
  intros (Hne & _ & _ & Hws). split; trivial.
  eapply Forall_impl; [exact Hws|]. intros c H ->.
  specialize (H eq_refl). discriminate.
Qed.

(** Normalizing the join of paragraphs gives it back. *)
Lemma normalizeText_join (paragraphs : list jsstring) :
  Forall isParagraph paragraphs ->
  normalizeText (join [10; 10]%N paragraphs) = join [10; 10]%N paragraphs.
Proof.
  intros Hall. destruct paragraphs as [|p ps]; [reflexivity|].
  unfold normalizeText. cbv zeta.
  rewrite splitParagraphs_join; [|discriminate|].
  2:{ eapply Forall_impl; [exact Hall|]. apply isParagraph_no_line_feed. }
  f_equal. set (l := p :: ps) in *. clearbody l. clear p ps.
  induction Hall as [|p l (Hne & Htrim & Hcoll & _) _ IH]; [reflexivity|].
  simpl. rewrite Htrim, Hcoll. destruct p as [|c p]; [congruence|].
  simpl. now rewrite IH.
Qed.

Lemma normalizeText_idempotent (cleaned : jsstring) :
  normalizeText (normalizeText cleaned) = normalizeText cleaned.
Proof.
  destruct (normalizeText_paragraphs cleaned) as (ps & -> & Hall).
  now apply normalizeText_join.
Qed.

Lemma join_first (sep : jsstring) (c : N) (r : jsstring) (ps : list jsstring) :
  exists rest, join sep ((c :: r) :: ps) = c :: rest.
Proof. destruct ps; simpl; eauto. Qed.

Lemma join_last (sep : jsstring) (ps : list jsstring) :
  forall (p : jsstring) (d : N) (r : jsstring),
    List.last ps [] = p -> ps <> [] -> rev p = d :: r ->
    exists rest, rev (join sep ps) = d :: rest.
Proof.
  induction ps as [|q ps IH]; intros p d r Hlast Hne Hrev; [congruence|].
  destruct ps as [|q' ps].
  - simpl in *. subst q. eauto.
  - change (join sep (q :: q' :: ps)) with (q ++ sep ++ join sep (q' :: ps)).
    destruct (IH p d r) as [rest Hrest]; trivial; [discriminate|].
    rewrite !rev_app_distr, Hrest. simpl. eauto.
Qed.

(** A normalized text has no white space at either end. *)
Lemma normalizeText_trimmed (cleaned : jsstring) :
  trim (normalizeText cleaned) = normalizeText cleaned.
Proof.
  destruct (normalizeText_paragraphs cleaned) as (ps & -> & Hall).
  destruct ps as [|p ps]; [reflexivity|].
  apply trim_fixed.
  - intros c r E.
    apply Forall_cons in Hall as [(Hne & Htrim & _) _].
    destruct p as [|c0 p]; [congruence|].
    destruct (join_first [10; 10]%N c0 p ps) as [rest Hrest].
    rewrite Hrest in E. injection E as <- _.
    eapply trim_first. exact Htrim.
  - intros d r E.
    assert (Hin : In (List.last (p :: ps) []) (p :: ps)).
    { destruct (exists_last (l := p :: ps) ltac:(discriminate)) as (l' & a & El).
      rewrite El, last_last. apply in_or_app. right. now left. }
    rewrite List.Forall_forall in Hall.
    destruct (Hall _ Hin) as (Hne & Htrim & _).
    assert (Hne' : trim (List.last (p :: ps) []) <> []) by now rewrite Htrim.
    destruct (trim_last _ Hne') as (d' & r' & Hrev & Hd'). rewrite Htrim in Hrev.
    destruct (join_last [10; 10]%N (p :: ps) _ d' r' eq_refl ltac:(discriminate) Hrev)
      as [rest Hrest].
    rewrite Hrest in E. now injection E as <- _.
Qed.

(** X1. The normalized text of a page is made of paragraphs joined by one
    blank line: each paragraph is not empty, has no white space at either
    end and only single spaces inside (so a single line break inside a
    paragraph has become a space). The whole has no white space at either
    end, its only white space is spaces and line feeds, and normalizing it
    again changes nothing. *)
Theorem normalizeText_shape (cleaned : jsstring) :
  (exists paragraphs,
      normalizeText cleaned = join [10; 10]%N paragraphs /\
      Forall isParagraph paragraphs) /\
  trim (normalizeText cleaned) = normalizeText cleaned /\
  Forall (fun c => isWhiteSpace c = true -> c = 32%N \/ c = 10%N)
    (normalizeText cleaned) /\
  normalizeText (normalizeText cleaned) = normalizeText cleaned.
Proof.
  split; [apply normalizeText_paragraphs|].
  split; [apply normalizeText_trimmed|].
  split; [|apply normalizeText_idempotent].
  destruct (normalizeText_paragraphs cleaned) as (ps & -> & Hall).
  apply join_Forall.
  { constructor; [now right|]. constructor; [now right | constructor]. }
  eapply Forall_impl; [exact Hall|].
  intros p (_ & _ & _ & Hws).
  eapply Forall_impl; [exact Hws|]. auto.
Qed.

(** X2. The text drawn on a page is never empty, holds only code units
    that the cleaning keeps, and is a fixed point of the clean-up: cleaned
    and laid out again, it comes out as it is. *)
Theorem pageText_idempotent (isAmharic : bool) (rawText : jsstring) :
  pageText isAmharic rawText <> [] /\
  Forall (fun c => keptByCleaning isAmharic c = true) (pageText isAmharic rawText) /\
  cleanText isAmharic (pageText isAmharic rawText) = pageText isAmharic rawText /\
  pageText isAmharic (pageText isAmharic rawText) = pageText isAmharic rawText.
Proof.
  pose proof (pageText_kept isAmharic rawText) as Hkept.
  pose proof (cleanText_fixed isAmharic _ Hkept) as Hfixed.
  split; [|split; [exact Hkept | split; [exact Hfixed|]]].
  - unfold pageText. cbv zeta.
    destruct (normalizeText (cleanText isAmharic rawText)) as [|c n]; simpl;
      [|discriminate].
    destruct (cleanText isAmharic rawText); simpl; discriminate.
  - assert (Hagain : forall T,
               cleanText isAmharic T = T ->
               pageText isAmharic T =
               if truthy (normalizeText T) then normalizeText T
               else if truthy T then T else js "(empty)").
    { intros T HT. unfold pageText. cbv zeta. now rewrite HT. }
    rewrite (Hagain _ Hfixed). clear Hagain Hfixed Hkept.
    unfold pageText. cbv zeta.
    destruct (normalizeText (cleanText isAmharic rawText)) as [|c n] eqn:En.
    + destruct (cleanText isAmharic rawText) as [|c r] eqn:Ec.
      * reflexivity.
      * cbn [truthy]. now rewrite En.
    + cbn [truthy]. rewrite <- En, normalizeText_idempotent, En. reflexivity.
Qed.
(** ** Font asset cache: where the cached bytes come from *)

Section FontTraces.

Variables ttfFile otfFile : option (list byte).

Lemma runFont_snoc (s : FontState) (trace : list FontEvent) (ev : FontEvent) :
  runFont ttfFile otfFile s (trace ++ [ev]) =
  fontStep ttfFile otfFile (runFont ttfFile otfFile s trace) ev.
Proof. unfold runFont. now rewrite fold_left_app. Qed.

Lemma fontSource_snoc (trace : list FontEvent) (ev : FontEvent) (font : list byte) :
  fontSource ttfFile otfFile trace font ->
  fontSource ttfFile otfFile (trace ++ [ev]) font.
Proof.
  intros [?|[?|(id & r & Hin & ? & ?)]]; [now left | right; now left |].
  right. right. exists id, r. rewrite elem_of_app. auto.
Qed.

(** The task a call adds: it has returned what the cache holds after the
    call, or it waits for its download. *)
Lemma loadFontData_new_task (s : FontState) :
  exists task,
    fontTasks (loadFontData ttfFile otfFile s) = fontTasks s ++ [task] /\
    (task = AwaitingFetch \/
     exists font,
       task = FontReturned font /\
       fontCache (loadFontData ttfFile otfFile s) !! "noto-ethiopic"%string = Some font).
Proof.
  unfold loadFontData.
  destruct (fontCache s !! "noto-ethiopic"%string) eqn:Ec;
    [|destruct ttfFile; [|destruct otfFile]];
    simpl; eexists; (split; [reflexivity|]); rewrite ?lookup_insert_eq; eauto.
Qed.

(** What a call leaves in the cache was there, or is a local file. *)
Lemma loadFontData_cache (s : FontState) (font : list byte) :
  fontCache (loadFontData ttfFile otfFile s) !! "noto-ethiopic"%string = Some font ->
  fontCache s !! "noto-ethiopic"%string = Some font \/
  ttfFile = Some font \/ (ttfFile = None /\ otfFile = Some font).
Proof.
  unfold loadFontData.
  destruct (fontCache s !! "noto-ethiopic"%string) as [cached|] eqn:Ec; simpl.
  { rewrite Ec. auto. }
  destruct ttfFile as [buf|]; simpl.
  { rewrite lookup_insert_eq. intros [= <-]. auto. }
  destruct otfFile as [buf|]; simpl.
  { rewrite lookup_insert_eq. intros [= <-]. auto. }
  rewrite Ec. discriminate.
Qed.

(** The invariant of the cache: it holds a local file or a body that an
    OK response delivered; so does every call that has returned; and a
    call waits for the body of an OK response only. *)
Lemma runFont_provenance (trace : list FontEvent) :
  let s := runFont ttfFile otfFile emptyFontState trace in
  (forall font,
      fontCache s !! "noto-ethiopic"%string = Some font ->
      fontSource ttfFile otfFile trace font) /\
  (forall id r,
      fontTasks s !! id = Some (AwaitingBody r) ->
      ok r = true /\ FetchSettled id (Some r) ∈ trace) /\
  (forall id font,
      fontTasks s !! id = Some (FontReturned font) ->
      fontSource ttfFile otfFile trace font).
Proof.
  induction trace as [|ev trace IH] using rev_ind; cbv zeta.
  - split; [intros font H; simpl in H; now rewrite lookup_empty in H|].
    split; intros id r H; simpl in H; now rewrite lookup_nil in H.
  - rewrite runFont_snoc. cbv zeta in IH. destruct IH as (IHc & IHt & IHr).
    set (s := runFont ttfFile otfFile emptyFontState trace) in *.
    assert (Hc : forall font,
               fontCache s !! "noto-ethiopic"%string = Some font ->
               fontSource ttfFile otfFile (trace ++ [ev]) font)
      by auto using fontSource_snoc.
    assert (Hr : forall id font,
               fontTasks s !! id = Some (FontReturned font) ->
               fontSource ttfFile otfFile (trace ++ [ev]) font)
      by eauto using fontSource_snoc.
    assert (Ht : forall id r,
               fontTasks s !! id = Some (AwaitingBody r) ->
               ok r = true /\ FetchSettled id (Some r) ∈ trace ++ [ev]).
    { intros id r H. destruct (IHt id r H). rewrite elem_of_app. auto. }
    clear IHc IHt IHr.
    destruct ev as [|id res|id]; simpl.
    + assert (Hc' : forall font,
                 fontCache (loadFontData ttfFile otfFile s) !! "noto-ethiopic"%string
                 = Some font ->
                 fontSource ttfFile otfFile (trace ++ [FontCall]) font).
      { intros font H. apply loadFontData_cache in H as [H|[H|H]]; auto.
        - now left.
        - right. now left. }
      destruct (loadFontData_new_task s) as (task & Et & Hnew).
      split; [exact Hc'|]. split.
      * intros id r H. rewrite Et in H.
        apply lookup_app_Some in H as [H | [_ H]]; [now apply Ht|].
        destruct (id - length (fontTasks s)); simpl in H; [|discriminate].
        injection H as ->. destruct Hnew as [?|(font & ? & _)]; discriminate.
      * intros id font H. rewrite Et in H.
        apply lookup_app_Some in H as [H | [_ H]]; [eauto|].
        destruct (id - length (fontTasks s)); simpl in H; [|discriminate].
        injection H as ->. destruct Hnew as [?|(font' & [= <-] & Hcached)];
          [discriminate | now apply Hc'].
    + unfold fetchSettled.
      destruct (fontTasks s !! id) as [[| | |]|] eqn:Et; try (split; [exact Hc | split; [exact Ht | exact Hr]]).
      simpl. split; [exact Hc|]. split.
      * intros id' r H. destruct (decide (id' = id)) as [->|Hne].
        { rewrite list_lookup_insert_eq in H by (eapply lookup_lt_Some; eauto).
          destruct res as [r0|]; [|discriminate].
          destruct (ok r0) eqn:Hok; [|discriminate].
          injection H as <-. split; trivial.
          rewrite elem_of_app, list_elem_of_singleton. now right. }
        rewrite list_lookup_insert_ne in H by congruence. now apply Ht.
      * intros id' font H. destruct (decide (id' = id)) as [->|Hne].
        { rewrite list_lookup_insert_eq in H by (eapply lookup_lt_Some; eauto).
          destruct res as [r0|]; [destruct (ok r0)|]; discriminate. }
        rewrite list_lookup_insert_ne in H by congruence. eauto.
    + unfold bodyRead.
      destruct (fontTasks s !! id) as [[|r| |]|] eqn:Et; try (split; [exact Hc | split; [exact Ht | exact Hr]]).
      destruct (Ht id r Et) as [Hok Hin].
      assert (Hsrc : fontSource ttfFile otfFile (trace ++ [BodyRead id]) (body r)).
      { right. right. eauto. }
      simpl. split; [|split].
      * intros font. rewrite lookup_insert_eq. now intros [= <-].
      * intros id' r' H. destruct (decide (id' = id)) as [->|Hne].
        { rewrite list_lookup_insert_eq in H by (eapply lookup_lt_Some; eauto).
          discriminate. }
        rewrite list_lookup_insert_ne in H by congruence. now apply Ht.
      * intros id' font H. destruct (decide (id' = id)) as [->|Hne].
        { rewrite list_lookup_insert_eq in H by (eapply lookup_lt_Some; eauto).
          now injection H as <-. }
        rewrite list_lookup_insert_ne in H by congruence. eauto.
Qed.

(** With a local font file nothing suspends: through any trace, a file is
    read at most once, no download starts, and every call has returned the
    bytes of the file. *)
Lemma runFont_local_file (font : list byte) (trace : list FontEvent) :
  ttfFile = Some font \/ (ttfFile = None /\ otfFile = Some font) ->
  let s := runFont ttfFile otfFile emptyFontState trace in
  fetches s = 0 /\
  Forall (fun task => task = FontReturned font) (fontTasks s) /\
  (fontCache s !! "noto-ethiopic"%string = None /\ fileReads s = 0 /\ fontCalls trace = 0 \/
   fontCache s !! "noto-ethiopic"%string = Some font /\ fileReads s = 1 /\
   0 < fontCalls trace).
Proof.
  intros Hlocal. induction trace as [|ev trace IH] using rev_ind; cbv zeta.
  - simpl. repeat split; trivial. left. now rewrite lookup_empty.
  - rewrite runFont_snoc. cbv zeta in IH. destruct IH as (Hf & Ht & Hc).
    set (s := runFont ttfFile otfFile emptyFontState trace) in *.
    assert (Ecalls : forall ev',
               fontCalls (trace ++ [ev']) =
               fontCalls trace + fontCalls [ev']).
    { intros ev'. clear. induction trace as [|[| |] trace IH]; simpl; auto. }
    rewrite Ecalls.
    destruct ev as [|id res|id]; simpl.
    + unfold loadFontData.
      destruct Hc as [(Hc & Hr & Hn) | (Hc & Hr & Hn)]; rewrite Hc; simpl.
      * assert (E : match ttfFile with
                    | Some buf => Some buf
                    | None => otfFile
                    end = Some font)
          by (destruct Hlocal as [-> | [-> ->]]; reflexivity).
        destruct ttfFile as [buf|]; [|destruct otfFile as [buf|]];
          try discriminate; injection E as ->; simpl;
          rewrite lookup_insert_eq, Hr;
          (repeat split; trivial; [|right; repeat split; lia]);
          apply Forall_app; split; trivial; now repeat constructor.
      * repeat split; trivial; [|right; repeat split; trivial; lia].
        apply Forall_app. split; trivial. now repeat constructor.
    + rewrite Nat.add_0_r. unfold fetchSettled.
      destruct (fontTasks s !! id) as [task|] eqn:E; [|now repeat split].
      assert (task = FontReturned font) as ->.
      { rewrite List.Forall_forall in Ht. apply Ht.
        apply list_elem_of_In. eapply list_elem_of_lookup_2; eauto. }
      now repeat split.
    + rewrite Nat.add_0_r. unfold bodyRead.
      destruct (fontTasks s !! id) as [task|] eqn:E; [|now repeat split].
      assert (task = FontReturned font) as ->.
      { rewrite List.Forall_forall in Ht. apply Ht.
        apply list_elem_of_In. eapply list_elem_of_lookup_2; eauto. }
      now repeat split.
Qed.

End FontTraces.

(** While every download fails, the cache stays empty, nothing is read
    from disk, and every call has started a download of its own. *)
Lemma runFont_offline (trace : list FontEvent) :
  Forall (fun ev => forall id res, ev = FetchSettled id res -> failedFetch res = true)
    trace ->
  let s := runFont None None emptyFontState trace in
  fontCache s = ∅ /\ fileReads s = 0 /\ fetches s = fontCalls trace /\
  Forall (fun task => task = AwaitingFetch \/ exists st, task = FontThrown st)
    (fontTasks s).
Proof.
  induction trace as [|ev trace IH] using rev_ind; intros Hall; cbv zeta.
  - simpl. repeat split; constructor.
  - apply Forall_app in Hall as [Hall Hev]. apply Forall_cons in Hev as [Hev _].
    rewrite runFont_snoc. specialize (IH Hall). cbv zeta in IH.
    destruct IH as (Hc & Hr & Hf & Ht).
    set (s := runFont None None emptyFontState trace) in *.
    assert (Ecalls : forall ev',
               fontCalls (trace ++ [ev']) =
               fontCalls trace + fontCalls [ev']).
    { intros ev'. clear. induction trace as [|[| |] trace IH]; simpl; auto. }
    rewrite Ecalls.
    destruct ev as [|id res|id]; simpl.
    + unfold loadFontData. rewrite Hc, lookup_empty. simpl.
      repeat split; trivial; [lia|].
      apply Forall_app. split; trivial. constructor; [now left | constructor].
    + rewrite Nat.add_0_r. unfold fetchSettled.
      destruct (fontTasks s !! id) as [[| | |]|] eqn:E; try now repeat split.
      simpl. repeat split; trivial.
      specialize (Hev id res eq_refl). unfold failedFetch in Hev.
      apply Forall_insert; trivial.
      destruct res as [r|]; [|right; eauto].
      destruct (ok r); [discriminate|]. right. eauto.
    + rewrite Nat.add_0_r. unfold bodyRead.
      destruct (fontTasks s !! id) as [[|r| |]|] eqn:E; try now repeat split.
      exfalso. rewrite List.Forall_forall in Ht.
      assert (Hin : In (AwaitingBody r) (fontTasks s)).
      { apply list_elem_of_In. eapply list_elem_of_lookup_2; eauto. }
      destruct (Ht _ Hin) as [?|[st ?]]; discriminate.
Qed.

(** X3. Whatever the interleaving of calls, settled downloads and body
    reads: the bytes that [loadFontData] returns to a caller, and the bytes
    that the cache holds, are those of the local TTF file, else those of
    the local OTF file, else the body of a response that was OK. The body
    of a response that is not OK is never returned and never cached. *)
Theorem loadFontData_returns_a_font_file
  (ttfFile otfFile : option (list byte)) (trace : list FontEvent)
  (id : nat) (font : list byte) :
  let s := runFont ttfFile otfFile emptyFontState trace in
  fontTasks s !! id = Some (FontReturned font) \/
  fontCache s !! "noto-ethiopic"%string = Some font ->
  fontSource ttfFile otfFile trace font.
Proof.
  intros s [H | H];
    destruct (runFont_provenance ttfFile otfFile trace) as (Hc & _ & Hr).
  - exact (Hr id font H).
  - exact (Hc font H).
Qed.

Lemma loadFontData_returns_a_font_file_witness :
  fontSource None None
    [FontCall; FontCall; FetchSettled 0 (Some downloaded); BodyRead 0;
     FetchSettled 1 (Some notFound); FontCall]
    (body downloaded).
Proof.
  apply (loadFontData_returns_a_font_file None None _ 2 (body downloaded)).
  left. vm_compute. reflexivity.
Defined.

(** X4. Without a local font file, and as long as every download fails
    (the fetch is rejected or its response is not OK): nothing is stored in
    the cache, no call returns a font, and every call starts a download of
    its own, the next one included. A failed download is not remembered;
    the call it belongs to throws with the status of the response. *)
Theorem failed_font_download_is_retried (trace : list FontEvent) :
  Forall (fun ev => forall id res, ev = FetchSettled id res -> failedFetch res = true)
    trace ->
  let s := runFont None None emptyFontState trace in
  fontCache s = ∅ /\
  fetches s = fontCalls trace /\
  Forall (fun task => task = AwaitingFetch \/ exists st, task = FontThrown st)
    (fontTasks s) /\
  fetches (loadFontData None None s) = S (fetches s) /\
  forall id r,
    fontTasks s !! id = Some AwaitingFetch -> ok r = false ->
    fontTasks (fetchSettled id (Some r) s) !! id = Some (FontThrown (Some (status r))) /\
    fontCache (fetchSettled id (Some r) s) = ∅.
Proof.
  intros Hall s.
  destruct (runFont_offline trace Hall) as (Hc & _ & Hf & Ht). fold s in Hc, Hf, Ht.
  split; [exact Hc|]. split; [exact Hf|]. split; [exact Ht|]. split.
  - unfold loadFontData. now rewrite Hc, lookup_empty.
  - intros id r Hid Hok. unfold fetchSettled. rewrite Hid, Hok. simpl.
    split; [|exact Hc].
    apply list_lookup_insert_eq. eapply lookup_lt_Some; eauto.
Qed.

Lemma failed_font_download_is_retried_witness :
  fontCache (runFont None None emptyFontState offlineTrace) = ∅ /\
  fetches (runFont None None emptyFontState offlineTrace) = 3.
Proof.
  assert (H : Forall (fun ev => forall id res,
                          ev = FetchSettled id res -> failedFetch res = true)
                offlineTrace).
  { unfold offlineTrace.
    repeat (constructor;
            [intros id res E; try discriminate E; injection E as <- <-; reflexivity|]).
    constructor. }
  destruct (failed_font_download_is_retried offlineTrace H) as (Hc & Hf & _).
  split; [exact Hc | exact Hf].
Defined.

(** X5. With a local font file the network is never used: the TTF file
    is taken when it exists, the OTF file only when it does not; through
    any interleaving no download starts, the file is read once, by the
    first call, and every call has returned the bytes of that file. *)
Theorem local_font_file_needs_no_network
  (ttfFile otfFile : option (list byte)) (font : list byte) (trace : list FontEvent) :
  ttfFile = Some font \/ (ttfFile = None /\ otfFile = Some font) ->
  let s := runFont ttfFile otfFile emptyFontState trace in
  fetches s = 0 /\
  fileReads s <= 1 /\
  Forall (fun task => task = FontReturned font) (fontTasks s) /\
  (0 < fontCalls trace ->
   fileReads s = 1 /\ fontCache s !! "noto-ethiopic"%string = Some font).
Proof.
  intros Hlocal s.
  destruct (runFont_local_file ttfFile otfFile font trace Hlocal) as (Hf & Ht & Hc).
  fold s in Hf, Ht, Hc.
  split; [exact Hf|]. split; [|split; [exact Ht|]].
  - destruct Hc as [(_ & -> & _) | (_ & -> & _)]; lia.
  - intros Hcalls. destruct Hc as [(_ & _ & Hn) | (Hc & Hr & _)]; [lia|].
    now split.
Qed.

Lemma local_font_file_needs_no_network_witness :
  let s := runFont (Some [Byte.x01]) (Some [Byte.x02]) emptyFontState
             [FontCall; FetchSettled 0 (Some downloaded); FontCall] in
  fetches s = 0 /\ fileReads s <= 1 /\
  Forall (fun task => task = FontReturned [Byte.x01]) (fontTasks s).
Proof.
  destruct (local_font_file_needs_no_network (Some [Byte.x01]) (Some [Byte.x02])
              [Byte.x01] [FontCall; FetchSettled 0 (Some downloaded); FontCall]
              (or_introl eq_refl))
    as (Hf & Hr & Ht & _).
  split; [exact Hf|]. split; [exact Hr | exact Ht].
Defined.
(** ** Binarization, twice *)

Section BinarizeTwice.

Variable T : float.
Hypothesis T_positive : (0 <? T)%float = true.
Hypothesis T_at_most_255 : (T <=? 255)%float = true.

(** A pixel that is already black or white keeps its colour. *)
Lemma blackOrWhite_fixed (r g b : float) :
  let v := byteNumber (blackOrWhite T r g b) in
  blackOrWhite T v v v = blackOrWhite T r g b.
Proof.
  cbv zeta. unfold blackOrWhite at 2 3 4 5.
  destruct (T <=? gray r g b)%float.
  - unfold blackOrWhite.
    change (gray (byteNumber Byte.xff) (byteNumber Byte.xff) (byteNumber Byte.xff))
      with 255%float.
    now rewrite T_at_most_255.
  - unfold blackOrWhite.
    change (gray (byteNumber Byte.x00) (byteNumber Byte.x00) (byteNumber Byte.x00))
      with 0%float.
    destruct (T <=? 0)%float eqn:E; trivial.
    apply float_leb_not_ltb in E. congruence.
Qed.

Lemma binarizeLoop_twice (data : list byte) (n : nat) :
  length data = 4 * n ->
  let once := binarizeLoop T (length data) data 0 in
  binarizeLoop T (length once) once 0 = once.
Proof.
  intros Hlen once.
  assert (Hlen1 : length once = length data) by apply binarizeLoop_length.
  assert (Honce : forall q c,
             c < 4 ->
             once !! (4 * q + c) =
             if (c =? 3)%nat then data !! (4 * q + c)
             else if (4 * q + c <? length data)%nat
                  then Some (blackOrWhite T (readNumber data (4 * q))
                               (readNumber data (4 * q + 1)) (readNumber data (4 * q + 2)))
                  else None).
  { intros q c Hc. unfold once.
    pose proof (binarizeLoop_lookup T (length data) data 0 q c) as H.
    change (4 * 0) with 0 in H. rewrite H by lia.
    now destruct (Nat.ltb_spec q 0); [lia|]. }
  apply list_eq. intros i.
  assert (Ei : i = 4 * (i / 4) + i mod 4) by apply Nat.div_mod_eq.
  pose proof (Nat.mod_upper_bound i 4 ltac:(lia)) as Hc.
  set (q := i / 4) in *. set (c := i mod 4) in *. rewrite Ei.
  clearbody q c. clear Ei i.
  pose proof (binarizeLoop_lookup T (length once) once 0 q c) as H.
  change (4 * 0) with 0 in H. rewrite H by lia. clear H.
  destruct (Nat.ltb_spec q 0); [lia|].
  rewrite (Honce q c Hc), Hlen1.
  destruct (Nat.eqb_spec c 3) as [->|Hc3].
  { reflexivity. }
  destruct (Nat.ltb_spec (4 * q + c) (length data)) as [Hin|Hout]; [|reflexivity].
  f_equal.
  assert (Hread : forall k, k < 3 ->
             readNumber once (4 * q + k) =
             byteNumber (blackOrWhite T (readNumber data (4 * q))
                           (readNumber data (4 * q + 1)) (readNumber data (4 * q + 2)))).
  { intros k Hk. unfold readNumber at 1. rewrite (Honce q k) by lia.
    destruct (Nat.eqb_spec k 3); [lia|].
    destruct (Nat.ltb_spec (4 * q + k) (length data)); [reflexivity | lia]. }
  pose proof (Hread 0 ltac:(lia)) as H0. rewrite Nat.add_0_r in H0.
  rewrite H0, (Hread 1), (Hread 2) by lia.
  apply blackOrWhite_fixed.
Qed.

End BinarizeTwice.

(** X19. Binarization is idempotent: at a threshold above 0 and up to
    255, as the default 180 is, binarizing an image that was binarized
    changes nothing. *)
Theorem binarize_idempotent (T : float) (img : ImageData) (n : nat) :
  (0 <? T)%float = true -> (T <=? 255)%float = true ->
  length (data img) = 4 * n ->
  binarize T (binarize T img) = binarize T img.
Proof.
  intros Hpos Hmax Hlen. unfold binarize. cbn [width height data]. f_equal.
  exact (binarizeLoop_twice T Hpos Hmax (data img) n Hlen).
Qed.

Lemma binarize_idempotent_witness :
  binarize (BINARIZE_THRESHOLD digitsNumber ∅)
    (binarize (BINARIZE_THRESHOLD digitsNumber ∅) twoPixels)
  = binarize (BINARIZE_THRESHOLD digitsNumber ∅) twoPixels.
Proof.
  exact (binarize_idempotent (BINARIZE_THRESHOLD digitsNumber ∅) twoPixels 2
           eq_refl eq_refl eq_refl).
Defined.
(** ** Render scale *)

(** X6. The render scale of a page is 1.5 for a tag containing "amh",
    whatever the environment says; for any other tag it is the configured
    scale: 2 when OCR_RENDER_SCALE is unset, not a finite number or not
    positive, and otherwise the setting clamped into [1.5, 3]. Either way
    it lies within [1.5, 3]. *)
Theorem renderScale_default_and_clamp (host : Host) (lang : jsstring) :
  let n := numberOrNaN (Number host) (process_env host !! "OCR_RENDER_SCALE"%string) in
  let R := RENDER_SCALE (Number host) (process_env host) in
  ((1.5 <=? renderScale host lang) = true /\
   (renderScale host lang <=? 3) = true)%float /\
  (includes lang (js "amh") = true -> renderScale host lang = 1.5%float) /\
  (includes lang (js "amh") = false -> renderScale host lang = R) /\
  (isFinite n = false \/ (n <=? 0)%float = true -> R = 2%float) /\
  (isFinite n = true -> (n <=? 0)%float = false ->
     ((n <? 1.5)%float = true -> R = 1.5%float) /\
     ((3 <? n)%float = true -> R = 3%float) /\
     ((1.5 <=? n)%float = true -> (n <=? 3)%float = true -> (R =? n)%float = true)).
Proof.
  intros n R.
  assert (Hrange : ((1.5 <=? R) = true /\ (R <=? 3) = true)%float).
  { unfold R, RENDER_SCALE. fold n.
    destruct (isFinite n) eqn:Hf; simpl; [|split; reflexivity].
    destruct (n <=? 0)%float; [split; reflexivity|].
    apply clamp_range; [reflexivity|]. now apply is_finite_not_nan. }
  split; [|split; [|split; [|split]]].
  - unfold renderScale. destruct (includes lang (js "amh")); [|exact Hrange].
    split; reflexivity.
  - unfold renderScale. now intros ->.
  - unfold renderScale. now intros ->.
  - unfold R, RENDER_SCALE. fold n.
    intros [E | E]; rewrite E; simpl; trivial. now rewrite orb_true_r.
  - unfold R, RENDER_SCALE. fold n. intros E1 E2. rewrite E1, E2. simpl.
    split; [|split]; intros; now auto using clamp_below, clamp_above, clamp_inside.
Qed.

(** ** Rasterizer: the page images *)

Section RasterizerPages.

Variable host : Host.

(** What the page loop appends: one image per page number, in order, each
    the PNG of the page rendered at the scale and preprocessed. *)
Lemma renderPages_lookup (pdf : PdfDoc host) (scale : float) (isAmharic : bool)
      (numbers : list nat) :
  forall pages0 pages,
    renderPages host pdf scale isAmharic numbers pages0 = Return pages ->
    exists new,
      pages = pages0 ++ new /\ length new = length numbers /\
      forall k i,
        numbers !! k = Some i ->
        exists page canvas png,
          getPage host pdf i = Return page /\
          render host page scale = Return canvas /\
          toBuffer host
            (if (if isAmharic then AMHARIC_BINARIZE_ENABLED
                 else BINARIZE_ENABLED (toLowerCase host) (process_env host))
             then binarize (BINARIZE_THRESHOLD (Number host) (process_env host)) canvas
             else canvas) = Return png /\
          new !! k = Some png.
Proof.
  induction numbers as [|i numbers IH]; intros pages0 pages H; simpl in H.
  - injection H as <-. exists []. rewrite app_nil_r. repeat split.
    intros k i Hk. now rewrite lookup_nil in Hk.
  - destruct (getPage host pdf i) as [page|e] eqn:Hpage; simpl in H; [|discriminate].
    destruct (render host page scale) as [canvas|e] eqn:Hrender; simpl in H;
      [|discriminate].
    destruct (toBuffer host _) as [png|e] eqn:Hpng; simpl in H; [|discriminate].
    destruct (IH _ _ H) as (new & -> & Hlen & Hget).
    exists (png :: new). rewrite <- app_assoc. repeat split; [simpl; lia|].
    intros [|k] j Hk; simpl in Hk.
    + injection Hk as <-. exists page, canvas, png. auto.
    + exact (Hget k j Hk).
Qed.

End RasterizerPages.

(** X7. The rasterizer returns at most ten page images (at most
    [maxPages] when a positive limit is given), and all or nothing: for a
    document that loads, either no image at all or one for each of the
    first pages up to the limit. The image at index k is that of page
    k + 1: the page rendered at the scale of the tag, binarized when the
    tag contains "amh" or binarization is switched on, then encoded. *)
Theorem rasterizePdfPages_pages
  (host : Host) (pdfBytes : list byte) (maxPages : option nat) (lang : option jsstring) :
  let pages := rasterizePdfPages host pdfBytes maxPages lang in
  let limit := match maxPages with Some (S m) => S m | _ => 10 end in
  let tag := match lang with Some l => l | None => [] end in
  length pages <= limit /\
  forall pdf,
    getDocument host pdfBytes = Return pdf ->
    (pages = [] \/ length pages = Nat.min (numPages host pdf) limit) /\
    forall k png,
      pages !! k = Some png ->
      exists page canvas,
        getPage host pdf (S k) = Return page /\
        render host page (renderScale host tag) = Return canvas /\
        toBuffer host (preprocess host tag canvas) = Return png.
Proof.
  intros pages limit tag.
  assert (Hamh : match lang with Some l => includes l (js "amh") | None => false end
                 = includes tag (js "amh")) by now destruct lang.
  assert (Hcount : forall pdf,
             match maxPages with
             | Some (S m) => Nat.min (numPages host pdf) (S m)
             | _ => Nat.min (numPages host pdf) 10
             end = Nat.min (numPages host pdf) limit)
    by (intros pdf; unfold limit; now destruct maxPages as [[|m]|]).
  assert (Hmain : forall pdf,
             getDocument host pdfBytes = Return pdf ->
             pages = [] \/
             (length pages = Nat.min (numPages host pdf) limit /\
              forall k png,
                pages !! k = Some png ->
                exists page canvas,
                  getPage host pdf (S k) = Return page /\
                  render host page (renderScale host tag) = Return canvas /\
                  toBuffer host (preprocess host tag canvas) = Return png)).
  { intros pdf Hdoc. unfold pages, rasterizePdfPages. cbv zeta.
    rewrite Hdoc. cbn [bind]. rewrite Hamh, Hcount.
    fold (renderScale host tag).
    destruct (renderPages host pdf _ _ _ []) as [out|e] eqn:Hrun; [|now left].
    right. apply renderPages_lookup in Hrun as (new & -> & Hlen & Hget).
    rewrite length_seq in Hlen. simpl. split; [exact Hlen|].
    intros k png Hk.
    assert (Hlt : k < Nat.min (numPages host pdf) limit).
    { rewrite <- Hlen. eapply lookup_lt_Some; eauto. }
    destruct (Hget k (S k)) as (page & canvas & png' & H1 & H2 & H3 & H4).
    { rewrite lookup_seq. split; [reflexivity | exact Hlt]. }
    simpl in Hk. rewrite Hk in H4. injection H4 as <-.
    exists page, canvas. auto. }
  split.
  - destruct (getDocument host pdfBytes) as [pdf|e] eqn:Hdoc.
    + destruct (Hmain pdf eq_refl) as [-> | [Hlen _]]; [simpl; lia|].
      rewrite Hlen. lia.
    + unfold pages, rasterizePdfPages. rewrite Hdoc. simpl. lia.
  - intros pdf Hdoc. destruct (Hmain pdf Hdoc) as [E | [Hlen Hget]].
    + split; [now left|]. intros k png Hk. rewrite E in Hk.
      now rewrite lookup_nil in Hk.
    + split; [now right | exact Hget].
Qed.
(** ** The pdf.js module loader *)

Section PdfJsFacts.

Import PdfJs.

Context {Api Port Error : Type}.

Implicit Types (s : Loader Api Port Error) (trace : list (LoaderEvent Api Port Error)).

(** The options every module handed out carries. *)
Lemma configure_options (lib : PdfJsLib Api Port) :
  GlobalWorkerOptions (configure lib) =
  {| workerSrc := js "pdfjs-dist/legacy/build/pdf.worker.min.mjs";
     workerPort := None |}.
Proof. reflexivity. Qed.

Lemma importSettled_promise s id outcome :
  pdfjsLibPromise (importSettled id outcome s) = pdfjsLibPromise s.
Proof. unfold importSettled. now destruct (imports s !! id) as [[]|]. Qed.

Lemma importSettled_length s id outcome :
  length (imports (importSettled id outcome s)) = length (imports s).
Proof.
  unfold importSettled. destruct (imports s !! id) as [[]|]; trivial.
  simpl. apply length_insert.
Qed.

(** A settled import stays as it is. *)
Lemma importSettled_settled s id outcome id' st :
  st <> Pending ->
  imports s !! id' = Some st ->
  imports (importSettled id outcome s) !! id' = Some st.
Proof.
  intros Hst H. unfold importSettled.
  destruct (imports s !! id) as [[]|] eqn:E; trivial. simpl.
  destruct (decide (id = id')) as [->|Hne]; [congruence|].
  now rewrite list_lookup_insert_ne.
Qed.

(** What a fulfilled import holds has been configured. *)
Lemma importSettled_configured s id outcome :
  (forall id' lib, imports s !! id' = Some (Fulfilled lib) ->
                   exists lib0, lib = configure lib0) ->
  forall id' lib, imports (importSettled id outcome s) !! id' = Some (Fulfilled lib) ->
                  exists lib0, lib = configure lib0.
Proof.
  intros Hs id' lib. unfold importSettled.
  destruct (imports s !! id) as [[]|] eqn:E; eauto. simpl.
  destruct (decide (id = id')) as [->|Hne].
  - rewrite list_lookup_insert_eq by (eapply lookup_lt_Some; eauto).
    destruct outcome as [lib0|e]; [|discriminate]. intros [= <-]. eauto.
  - rewrite list_lookup_insert_ne by trivial. eauto.
Qed.

(** Once the import has started: the stored promise stays the one stored,
    no other import starts, every caller is handed that promise, and a
    settled import stays as it settled. *)
Lemma runLoader_loaded trace :
  forall s,
    pdfjsLibPromise s = Some 0 -> length (imports s) = 1 ->
    (forall id lib, imports s !! id = Some (Fulfilled lib) ->
                    exists lib0, lib = configure lib0) ->
    let s' := (runLoader s trace).1 in
    pdfjsLibPromise s' = Some 0 /\ length (imports s') = 1 /\
    Forall (fun id => id = 0) (runLoader s trace).2 /\
    (forall id lib, imports s' !! id = Some (Fulfilled lib) ->
                    exists lib0, lib = configure lib0) /\
    (forall id st, st <> Pending -> imports s !! id = Some st ->
                   imports s' !! id = Some st).
Proof.
  induction trace as [|[|id outcome] trace IH]; intros s Hp Hi Hconf; cbv zeta.
  - simpl. split; [exact Hp|]. split; [exact Hi|]. split; [constructor|].
    split; [exact Hconf | auto].
  - cbn [runLoader]. unfold getPdfJs. rewrite Hp.
    specialize (IH s Hp Hi Hconf). cbv zeta in IH.
    destruct (runLoader s trace) as [s2 log]. simpl in *.
    destruct IH as (H1 & H2 & H3 & H4 & H5).
    split; [exact H1|]. split; [exact H2|]. split; [now constructor|].
    split; [exact H4 | exact H5].
  - cbn [runLoader].
    specialize (IH (importSettled id outcome s)). cbv zeta in IH.
    rewrite importSettled_promise, importSettled_length in IH.
    destruct (IH Hp Hi (importSettled_configured s id outcome Hconf))
      as (H1 & H2 & H3 & H4 & Hstay).
    split; [exact H1|]. split; [exact H2|]. split; [exact H3|].
    split; [exact H4|].
    intros id' st Hst H. apply Hstay; trivial. now apply importSettled_settled.
Qed.

(** From the start: nothing is imported before the first call, and the
    first call starts the one import. *)
Lemma runLoader_initial trace :
  let s' := (runLoader (@initial Api Port Error) trace).1 in
  ((Call ∉ trace) /\ s' = initial /\ (runLoader (@initial Api Port Error) trace).2 = [] \/
   Call ∈ trace /\ pdfjsLibPromise s' = Some 0 /\ length (imports s') = 1) /\
  Forall (fun id => id = 0) (runLoader (@initial Api Port Error) trace).2 /\
  (forall id lib, imports s' !! id = Some (Fulfilled lib) ->
                  exists lib0, lib = configure lib0).
Proof.
  induction trace as [|[|id outcome] trace IH]; cbv zeta.
  - simpl. split; [left; repeat split; apply not_elem_of_nil|].
    split; [constructor|]. intros id lib H. now rewrite lookup_nil in H.
  - cbn [runLoader].
    set (s1 := {| pdfjsLibPromise := Some 0; imports := [Pending] |}
               : Loader Api Port Error).
    change (getPdfJs (@initial Api Port Error)) with (s1, 0).
    destruct (runLoader_loaded trace s1) as (Hp & Hi & Hlog & Hconf & _);
      [reflexivity | reflexivity | |].
    { intros [|id] lib H; simpl in H; [discriminate|].
      now rewrite lookup_nil in H. }
    destruct (runLoader s1 trace) as [s2 log]. simpl in *.
    split; [right; repeat split; trivial; apply list_elem_of_here|].
    split; [constructor; trivial | exact Hconf].
  - cbn [runLoader].
    change (importSettled id outcome initial) with (@initial Api Port Error).
    cbv zeta in IH. destruct IH as (Hinv & Hlog & Hconf).
    split; [|split; trivial].
    destruct Hinv as [(Hn & ? & ?) | (Hin & ? & ?)]; [left | right].
    + repeat split; trivial. rewrite not_elem_of_cons. split; [discriminate | trivial].
    + repeat split; trivial. now apply list_elem_of_further.
Qed.

Lemma runLoader_app (tr1 tr2 : list (LoaderEvent Api Port Error)) :
  forall s,
    (runLoader s (tr1 ++ tr2)).1 = (runLoader (runLoader s tr1).1 tr2).1.
Proof.
  induction tr1 as [|[|id outcome] tr1 IH]; intros s; simpl;
    [reflexivity | | apply IH].
  destruct (getPdfJs s) as [s1 id1]. specialize (IH s1).
  destruct (runLoader s1 (tr1 ++ tr2)), (runLoader s1 tr1). exact IH.
Qed.

End PdfJsFacts.

(** X8. The pdf.js module is imported at most once, whatever the
    interleaving of calls of [getPdfJs] and of the settling of the import:
    the first call starts the import and stores its promise, and every
    call, the first included, is handed that one promise. A module it is
    fulfilled with has its worker source set and its worker port cleared.
    An import that has settled stays as it settled: when it failed, every
    later call is handed the rejected promise and nothing is imported
    again. *)
Theorem getPdfJs_imports_once {Api Port Error : Type}
  (trace : list (PdfJs.LoaderEvent Api Port Error)) :
  let s := (PdfJs.runLoader PdfJs.initial trace).1 in
  let log := (PdfJs.runLoader PdfJs.initial trace).2 in
  length (PdfJs.imports s) <= 1 /\
  (PdfJs.Call ∈ trace ->
   PdfJs.pdfjsLibPromise s = Some 0 /\ length (PdfJs.imports s) = 1) /\
  Forall (fun id => id = 0) log /\
  (forall lib,
      PdfJs.imports s !! 0 = Some (Fulfilled lib) ->
      PdfJs.GlobalWorkerOptions lib =
      {| PdfJs.workerSrc := js "pdfjs-dist/legacy/build/pdf.worker.min.mjs";
         PdfJs.workerPort := None |}) /\
  (forall tr1 tr2 st,
      trace = tr1 ++ tr2 ->
      PdfJs.imports (PdfJs.runLoader PdfJs.initial tr1).1 !! 0 = Some st ->
      st <> Pending ->
      PdfJs.imports s !! 0 = Some st /\
      PdfJs.getPdfJs s = (s, 0)).
Proof.
  intros s log.
  destruct (runLoader_initial (Api := Api) (Port := Port) (Error := Error) trace)
    as (Hinv & Hlog & Hconf).
  fold s in Hinv, Hconf. fold log in Hlog.
  split; [|split; [|split; [exact Hlog|split]]].
  - destruct Hinv as [(_ & -> & _) | (_ & _ & ->)]; simpl; lia.
  - intros Hin. destruct Hinv as [(Hn & _) | (_ & ? & ?)]; [contradiction | auto].
  - intros lib H. destruct (Hconf 0 lib H) as [lib0 ->]. reflexivity.
  - intros tr1 tr2 st -> Hmid Hst.
    destruct (runLoader_initial (Api := Api) (Port := Port) (Error := Error) tr1)
      as (Hinv1 & _ & Hconf1).
    destruct Hinv1 as [(_ & E & _) | (_ & Hp1 & Hi1)].
    { rewrite E in Hmid. discriminate Hmid. }
    destruct (runLoader_loaded tr2 _ Hp1 Hi1 Hconf1) as (Hp2 & _ & _ & _ & Hstay).
    unfold s. rewrite runLoader_app. split; [now apply Hstay|].
    unfold PdfJs.getPdfJs. now rewrite Hp2.
Qed.
(** ** Recognition engine pool: inherited names *)

(** X9. A tag that is the name of a member every object inherits
    ("constructor", "toString", ...) never gets an engine: in an empty
    pool and through any interleaving, no construction is started for it,
    the cache gets no entry for it, and every caller asking for it is
    handed the inherited member, which is no engine promise. *)
Theorem inherited_tag_gets_no_engine {Worker Error : Type}
  (trace : list (PoolEvent Worker Error)) (lang : jsstring) :
  let s := (runPool emptyPool trace).1 in
  let log := (runPool emptyPool trace).2 in
  lang ∈ ObjectPrototype ->
  constructions lang s = 0 /\
  workerCache s !! lang = None /\
  length (filter (fun r => r.1 = lang) log) = callers lang trace /\
  forall h, (lang, h) ∈ log -> h = Inherited /\ observe s h = None.
Proof.
  intros s log Hin.
  assert (H0 : getProperty (workerCache (@emptyPool Worker Error)) lang = Some Inherited).
  { unfold getProperty. simpl. rewrite lookup_empty. now rewrite bool_decide_eq_true_2. }
  pose proof (runPool_keeps trace _ _ _ H0) as Hfinal. fold s in Hfinal.
  assert (Hnone : workerCache s !! lang = None).
  { unfold getProperty in Hfinal. now destruct (workerCache s !! lang). }
  destruct (runPool_inv trace _ (@poolInv_empty Worker Error) lang) as [_ Hc].
  fold s in Hc. rewrite Hnone in Hc.
  split; [exact Hc|]. split; [exact Hnone|]. split; [apply runPool_answers|].
  intros h Hh. apply (runPool_log trace) in Hh. fold s in Hh.
  assert (h = Inherited) as -> by congruence. now split.
Qed.

Lemma inherited_tag_gets_no_engine_witness :
  constructions (js "constructor")
    (runPool (@emptyPool nat string)
       [Acquire (js "constructor"); Acquire (js "eng"); Acquire (js "constructor")]).1
  = 0 /\
  forall h,
    (js "constructor", h) ∈
      (runPool (@emptyPool nat string)
         [Acquire (js "constructor"); Acquire (js "eng"); Acquire (js "constructor")]).2 ->
    h = Inherited.
Proof.
  assert (Hin : js "constructor" ∈ ObjectPrototype) by apply list_elem_of_here.
  destruct (inherited_tag_gets_no_engine (Worker := nat) (Error := string)
              [Acquire (js "constructor"); Acquire (js "eng"); Acquire (js "constructor")]
              (js "constructor") Hin)
    as (Hc & _ & _ & Hlog).
  split; [exact Hc|]. intros h Hh. exact (proj1 (Hlog h Hh)).
Defined.
(** ** Document assembler: what is on the pages *)

Section AssemblerPages.

Variable host : Host.

Lemma drawPage_drawn (font : PdfLib.PDFFont) (isAmharic : bool) (rawText : jsstring)
      (page : PdfLib.PDFPage) :
  drawPage host 595.28%float 841.89%float font isAmharic rawText = Return page ->
  page = {| PdfLib.dimensions := (595.28%float, 841.89%float);
            PdfLib.drawn := [drawnOnPage host font isAmharic rawText] |}.
Proof.
  unfold drawPage, drawnOnPage. cbv zeta.
  change {| PdfLib.x := 72%float; PdfLib.y := (841.89 - 72)%float;
            PdfLib.size := if isAmharic then 16%float else 14%float;
            PdfLib.font := font; PdfLib.color := (0, 0, 0)%float;
            PdfLib.lineHeight := Some (if isAmharic then 22%float else 18%float);
            PdfLib.maxWidth := Some (595.28 - 72 * 2)%float |}
    with (textOptions font isAmharic).
  change {| PdfLib.x := 72%float; PdfLib.y := (841.89 - 72)%float;
            PdfLib.size := 12%float; PdfLib.font := font;
            PdfLib.color := (1, 0, 0)%float;
            PdfLib.lineHeight := None; PdfLib.maxWidth := None |}
    with (fallbackOptions font).
  destruct (drawTextError host (pageText isAmharic rawText) _).
  - destruct (drawTextError host fallbackText _); [discriminate|]. now intros [= <-].
  - now intros [= <-].
Qed.

Lemma drawPages_drawn (font : PdfLib.PDFFont) (isAmharic : bool) (texts : list jsstring) :
  forall pages0 pages,
    drawPages host 595.28%float 841.89%float font isAmharic texts pages0 = Return pages ->
    pages = pages0 ++
            map (fun rawText =>
                   {| PdfLib.dimensions := (595.28%float, 841.89%float);
                      PdfLib.drawn := [drawnOnPage host font isAmharic rawText] |})
                texts.
Proof.
  induction texts as [|t texts IH]; intros pages0 pages H; simpl in H.
  - injection H as <-. now rewrite app_nil_r.
  - destruct (drawPage host _ _ font isAmharic t) as [page|e] eqn:E;
      simpl in H; [|discriminate].
    apply drawPage_drawn in E. subst page.
    apply IH in H. rewrite H, <- app_assoc. reflexivity.
Qed.

(** The document that was assembled: the font, and the pages. *)
Lemma assemble_document (pageTexts : list jsstring) (lang : jsstring)
      (pdf : PdfLib.PDFDocument) :
  assemble host pageTexts lang = Return pdf ->
  exists fontData,
    awaitFontData host = Return fontData /\
    embedFontError host fontData (negb (includes lang (js "amh"))) = None /\
    let font := {| PdfLib.fontData := fontData;
                   PdfLib.subset := negb (includes lang (js "amh")) |} in
    pdf = {| PdfLib.fonts := [font];
             PdfLib.pages :=
               map (fun rawText =>
                      {| PdfLib.dimensions := (595.28%float, 841.89%float);
                         PdfLib.drawn :=
                           [drawnOnPage host font (includes lang (js "amh")) rawText] |})
                   (match pageTexts with
                    | [] => [js "(empty)"]
                    | _ :: _ => pageTexts
                    end) |}.
Proof.
  unfold assemble. cbv zeta.
  destruct (awaitFontData host) as [fontData|e]; simpl; [|discriminate].
  destruct (embedFontError host fontData _) eqn:Hembed; simpl; [discriminate|].
  destruct (drawPages host _ _ _ _ _ []) as [pages|e] eqn:E; simpl; [|discriminate].
  intros [= <-]. exists fontData. split; [reflexivity|]. split; [exact Hembed|].
  apply drawPages_drawn in E. now rewrite E.
Qed.

End AssemblerPages.

(** X10. The document the assembler builds holds one embedded font, the
    bytes [loadFontData] gave, subset unless the tag contains "amh"; and
    one A4 page per page text, in order, or a single page for the text
    "(empty)" when there is no page text. On each page one text is drawn,
    at 72 points from the left and from the top: the page text as cleaned
    and laid out, in black, at size 14 with line height 18 (16 and 22 for
    a tag containing "amh") and wrapped at the margins; or, when drawing it
    throws, the fallback line in red at size 12, the other pages being
    drawn as usual. *)
Theorem buildSearchablePdf_pages
  (host : Host) (pageTexts : list jsstring) (lang : jsstring)
  (pdf : PdfLib.PDFDocument) :
  let isAmharic := includes lang (js "amh") in
  let texts := match pageTexts with [] => [js "(empty)"] | _ :: _ => pageTexts end in
  assemble host pageTexts lang = Return pdf ->
  exists font,
    PdfLib.fonts pdf = [font] /\
    awaitFontData host = Return (PdfLib.fontData font) /\
    PdfLib.subset font = negb isAmharic /\
    length (PdfLib.pages pdf) = Nat.max 1 (length pageTexts) /\
    (forall k rawText,
        texts !! k = Some rawText ->
        PdfLib.pages pdf !! k =
        Some {| PdfLib.dimensions := (595.28%float, 841.89%float);
                PdfLib.drawn := [drawnOnPage host font isAmharic rawText] |}) /\
    (forall rawText,
        (drawnOnPage host font isAmharic rawText).1 = pageText isAmharic rawText \/
        (drawnOnPage host font isAmharic rawText).1 = fallbackText /\
        drawTextError host (pageText isAmharic rawText) (textOptions font isAmharic)
        <> None) /\
    (PdfLib.x (textOptions font isAmharic) = 72%float /\
     PdfLib.y (textOptions font isAmharic) = (841.89 - 72)%float /\
     PdfLib.size (textOptions font isAmharic) = (if isAmharic then 16 else 14)%float /\
     PdfLib.lineHeight (textOptions font isAmharic)
     = Some (if isAmharic then 22 else 18)%float /\
     PdfLib.maxWidth (textOptions font isAmharic) = Some (595.28 - 72 * 2)%float /\
     PdfLib.color (textOptions font isAmharic) = (0, 0, 0)%float /\
     PdfLib.size (fallbackOptions font) = 12%float /\
     PdfLib.color (fallbackOptions font) = (1, 0, 0)%float).
Proof.
  intros isAmharic texts Hasm.
  destruct (assemble_document host pageTexts lang pdf Hasm)
    as (fontData & Hfont & _ & Hpdf). cbv zeta in Hpdf.
  eexists. rewrite Hpdf. cbn [PdfLib.fonts PdfLib.pages PdfLib.fontData PdfLib.subset].
  split; [reflexivity|]. split; [exact Hfont|]. split; [reflexivity|]. split.
  { rewrite length_map. destruct pageTexts; simpl; lia. }
  split.
  { intros k rawText Hk. change map with (@fmap list _).
    rewrite list_lookup_fmap. fold texts. now rewrite Hk. }
  split; [|repeat split].
  intros rawText. unfold drawnOnPage.
  destruct (drawTextError host _ _); [right | now left].
  split; [reflexivity | discriminate].
Qed.

Lemma buildSearchablePdf_pages_witness :
  exists pdf,
    assemble (labHost (fun _ => Return tt) (Return [Byte.x00]) undrawableAB)
      [js "AB"; js "CD"] (js "eng") = Return pdf /\
    length (PdfLib.pages pdf) = 2 /\
    map (fun page => map fst (PdfLib.drawn page)) (PdfLib.pages pdf) =
    [[fallbackText]; [js "CD"]].
Proof.
  eexists. split; [reflexivity|].
  destruct (buildSearchablePdf_pages
              (labHost (fun _ => Return tt) (Return [Byte.x00]) undrawableAB)
              [js "AB"; js "CD"] (js "eng") _ eq_refl)
    as (font & _ & _ & _ & Hlen & _).
  split; [exact Hlen | reflexivity].
Defined.
(** ** Orchestrator: the two paths *)

Section ConversionFacts.

Variable host : Host.

Lemma rasterizePdfPages_at_most_ten (pdfBytes : list byte) (lang : option jsstring) :
  length (rasterizePdfPages host pdfBytes None lang) <= 10.
Proof.
  unfold rasterizePdfPages. cbv zeta.
  destruct (getDocument host pdfBytes) as [pdf|e]; cbn [bind]; [|simpl; lia].
  destruct (renderPages host pdf _ _ _ []) as [pages|e] eqn:E; [|simpl; lia].
  apply renderPages_length in E. rewrite length_seq in E. simpl in E. lia.
Qed.

(** The PDF path, when page images came out: every page is recognized and
    the document assembled from the outcomes. *)
Lemma convert_pages (params : Params.t) :
  let lang := requestLang params in
  let pageImages := rasterizePdfPages host (Params.bytes params) None (Some lang) in
  let texts := map (pageOutcome host lang) pageImages in
  requestIsPdf host params = true ->
  pageImages <> [] ->
  RoundsLikeDouble (roundSum host) ->
  (forall j n, completionOrder host j n ≡ₚ seq 0 n) ->
  convertToSearchablePdf host params =
  Some (let* pdfBase64 := buildSearchablePdf host texts lang in
        Return {| text := join [10; 10]%N (imap pageEntry texts);
                  pdfBase64 := Some pdfBase64 |}).
Proof.
  intros lang pageImages texts HisPdf Hne Hrnd Horders.
  pose proof (rasterizePdfPages_at_most_ten (Params.bytes params) (Some lang)) as Hlen.
  fold pageImages in Hlen.
  assert (Hloop := batchLoop_configured host pageImages lang Hrnd Horders ltac:(lia)).
  unfold convertToSearchablePdf. cbv zeta. rewrite HisPdf.
  fold lang. fold pageImages. fold texts in Hloop.
  destruct pageImages as [|p ps] eqn:E; [congruence|].
  rewrite Hloop. reflexivity.
Qed.

(** One of the three paths applies: an image, recognized as received; a
    PDF that gave no page image, recognized as the loading left it; a PDF
    that gave page images. *)
Lemma convert_cases (params : Params.t) :
  let lang := requestLang params in
  let bytes := Params.bytes params in
  let pageImages := rasterizePdfPages host bytes None (Some lang) in
  (requestIsPdf host params = false /\
   convertToSearchablePdf host params = Some (recognizeDirectly host bytes lang)) \/
  (requestIsPdf host params = true /\ pageImages = [] /\
   convertToSearchablePdf host params =
   Some (recognizeDirectly host (dataAfterGetDocument host bytes) lang)) \/
  (requestIsPdf host params = true /\ pageImages <> []).
Proof.
  intros lang bytes pageImages.
  destruct (requestIsPdf host params) eqn:HisPdf.
  - destruct pageImages as [|p ps] eqn:E.
    + right. left. split; [reflexivity|]. split; [reflexivity|].
      now apply convert_no_pages.
    + right. right. split; [reflexivity | discriminate].
  - left. split; [reflexivity|]. now apply convert_image.
Qed.

(** A direct recognition that returns carries the recognized text and a
    document assembled from that one text. *)
Lemma recognizeDirectly_result (bytes : list byte) (lang : jsstring)
      (result : OcrResult) :
  recognizeDirectly host bytes lang = Return result ->
  exists b64,
    pdfBase64 result = Some b64 /\
    buildSearchablePdf host [text result] lang = Return b64 /\
    ocrImage host bytes lang = Return (text result).
Proof.
  unfold recognizeDirectly.
  destruct (ocrImage host bytes lang) as [t|e]; cbn [bind]; [|discriminate].
  destruct (buildSearchablePdf host [t] lang) as [b64|e] eqn:Hb;
    cbn [bind]; [|discriminate].
  intros [= <-]. exists b64. simpl. auto.
Qed.


Lemma ocrImage_trimmed (bytes : list byte) (lang t : jsstring) :
  ocrImage host bytes lang = Return t -> trim t = t.
Proof.
  unfold ocrImage.
  destruct (awaitWorker host lang) as [worker|e]; simpl; [|discriminate].
  destruct (recognize host worker bytes lang) as [[u|]|e]; simpl;
    [| |discriminate]; intros [= <-]; [apply trim_idempotent | reflexivity].
Qed.

Lemma pageOutcome_fixed (lang : jsstring) (pageImage : list byte) :
  trim (pageOutcome host lang pageImage) = pageOutcome host lang pageImage.
Proof.
  destruct (pageOutcome_trimmed host lang pageImage) as [u ->].
  apply trim_idempotent.
Qed.

Lemma pageOutcome_no_engine (lang : jsstring) (pageImage : list byte) (e : Error) :
  awaitWorker host lang = Throw e -> pageOutcome host lang pageImage = OCR_FAILED.
Proof. intros H. unfold pageOutcome, ocrImage. now rewrite H. Qed.

Lemma buildSearchablePdf_no_font (pageTexts : list jsstring) (lang : jsstring)
      (e : Error) :
  awaitFontData host = Throw e -> buildSearchablePdf host pageTexts lang = Throw e.
Proof. intros H. unfold buildSearchablePdf, assemble. now rewrite H. Qed.

(** Without the font, a direct recognition throws its own error when it
    fails, and the error of the font otherwise. *)
Lemma recognizeDirectly_no_font (bytes : list byte) (lang : jsstring) (e : Error) :
  awaitFontData host = Throw e ->
  recognizeDirectly host bytes lang =
  match ocrImage host bytes lang with
  | Return _ => Throw e
  | Throw e' => Throw e'
  end.
Proof.
  intros Hfont. unfold recognizeDirectly.
  destruct (ocrImage host bytes lang) as [t|e']; cbn [bind]; trivial.
  now rewrite (buildSearchablePdf_no_font _ _ e Hfont).
Qed.

End ConversionFacts.

(** X11. A conversion completes as soon as the calls it awaits settle
    (here: every recognition call of a batch settles, in whatever order),
    and one that returns always carries a PDF: [pdfBase64] is never null.
    The PDF is assembled from at least one and at most ten page texts, each
    without white space at either end: the one text of a direct
    recognition, which is also the text returned, or the texts of the pages
    of a PDF, which are returned as the entries "Page i" joined by blank
    lines. The one text of a direct recognition is what the engine reads
    in the request's bytes as received, for an image, and in what the
    loading of the document left of them, for a PDF that gave no page
    image. *)
Theorem conversion_always_carries_a_pdf (host : Host) (params : Params.t) :
  let lang := requestLang params in
  let bytes := Params.bytes params in
  let pageImages := rasterizePdfPages host bytes None (Some lang) in
  RoundsLikeDouble (roundSum host) ->
  (forall j n, completionOrder host j n ≡ₚ seq 0 n) ->
  exists outcome,
    convertToSearchablePdf host params = Some outcome /\
    forall result,
      outcome = Return result ->
      exists texts b64,
        pdfBase64 result = Some b64 /\
        buildSearchablePdf host texts lang = Return b64 /\
        1 <= length texts <= 10 /\
        Forall (fun t => trim t = t) texts /\
        (requestIsPdf host params = false /\
         texts = [text result] /\
         ocrImage host bytes lang = Return (text result) \/
         requestIsPdf host params = true /\ pageImages = [] /\
         texts = [text result] /\
         ocrImage host (dataAfterGetDocument host bytes) lang = Return (text result) \/
         requestIsPdf host params = true /\ pageImages <> [] /\
         texts = map (pageOutcome host lang) pageImages /\
         text result = join [10; 10]%N (imap pageEntry texts)).
Proof.
  intros lang bytes pageImages Hrnd Horders.
  destruct (convert_cases host params)
    as [[HisPdf Hconv] | [(HisPdf & Hnone & Hconv) | [HisPdf Hne]]].
  - eexists. split; [exact Hconv|].
    intros result Hr. fold lang bytes in Hr.
    destruct (recognizeDirectly_result host _ _ _ Hr) as (b64 & Hb & Hbuild & Hocr).
    exists [text result], b64. simpl.
    split; [exact Hb|]. split; [exact Hbuild|]. split; [lia|]. split.
    + constructor; [|constructor]. eapply ocrImage_trimmed; eauto.
    + left. auto.
  - eexists. split; [exact Hconv|].
    intros result Hr. fold lang bytes in Hr.
    destruct (recognizeDirectly_result host _ _ _ Hr) as (b64 & Hb & Hbuild & Hocr).
    exists [text result], b64. simpl.
    split; [exact Hb|]. split; [exact Hbuild|]. split; [lia|]. split.
    + constructor; [|constructor]. eapply ocrImage_trimmed; eauto.
    + right. left. auto.
  - rewrite (convert_pages host params HisPdf Hne Hrnd Horders). fold lang bytes.
    pose proof (rasterizePdfPages_at_most_ten host bytes (Some lang)) as Hten.
    fold lang bytes in Hne. fold pageImages in Hne, Hten |- *.
    clearbody pageImages.
    set (texts := map (pageOutcome host lang) pageImages).
    eexists. split; [reflexivity|].
    intros result.
    destruct (buildSearchablePdf host texts lang) as [b64|e] eqn:Hb;
      cbn [bind]; [|discriminate].
    intros [= <-]. exists texts, b64. simpl.
    split; [reflexivity|]. split; [exact Hb|]. split; [|split].
    + unfold texts. rewrite length_map.
      destruct pageImages; [congruence | simpl in *; lia].
    + unfold texts. rewrite List.Forall_forall. intros t Hin.
      apply List.in_map_iff in Hin as (p & <- & _). apply pageOutcome_fixed.
    + right. right. auto.
Qed.

Lemma conversion_always_carries_a_pdf_witness :
  exists outcome,
    convertToSearchablePdf toyHost threePages = Some outcome /\
    forall result,
      outcome = Return result -> exists b64, pdfBase64 result = Some b64.
Proof.
  destruct (conversion_always_carries_a_pdf toyHost threePages
              toyHost_rounds toyHost_orders)
    as (outcome & Hconv & Hpdf).
  exists outcome. split; [exact Hconv|].
  intros result Hr. destruct (Hpdf result Hr) as (texts & b64 & H & _).
  now exists b64.
Defined.

(** X12. When the engine of the tag cannot be built, the two paths
    differ. A direct recognition (an image, or a PDF that gave no page
    image) throws the error of the engine. A PDF that gave page images
    still converts: every page text is the marker "[OCR failed for this
    page]", the text returned is made of these entries and the document
    has one page per page image. *)
Theorem engine_failure_image_throws_pdf_converts
  (host : Host) (params : Params.t) (e : Error) :
  let lang := requestLang params in
  let pageImages := rasterizePdfPages host (Params.bytes params) None (Some lang) in
  let texts := replicate (length pageImages) OCR_FAILED in
  awaitWorker host lang = Throw e ->
  RoundsLikeDouble (roundSum host) ->
  (forall j n, completionOrder host j n ≡ₚ seq 0 n) ->
  (requestIsPdf host params = false \/ pageImages = [] ->
   convertToSearchablePdf host params = Some (Throw e)) /\
  (requestIsPdf host params = true -> pageImages <> [] -> assemblyWorks host ->
   exists document b64,
     convertToSearchablePdf host params =
       Some (Return {| text := join [10; 10]%N (imap pageEntry texts);
                       pdfBase64 := Some b64 |}) /\
     assemble host texts lang = Return document /\
     saveAsBase64 host document = Return b64 /\
     length (PdfLib.pages document) = length pageImages).
Proof.
  intros lang pageImages texts Hengine Hrnd Horders. split.
  - intros Hdirect.
    assert (Hconv : exists bytes, convertToSearchablePdf host params
                                  = Some (recognizeDirectly host bytes lang)).
    { destruct (requestIsPdf host params) eqn:HisPdf.
      - destruct Hdirect as [H | H]; [discriminate|].
        eexists. now apply convert_no_pages.
      - eexists. now apply convert_image. }
    destruct Hconv as [bytes ->]. unfold recognizeDirectly, ocrImage.
    now rewrite Hengine.
  - intros HisPdf Hne Hworks.
    rewrite (convert_pages host params HisPdf Hne Hrnd Horders). fold lang.
    fold pageImages.
    assert (E : map (pageOutcome host lang) pageImages = texts).
    { unfold texts. clear Hne. induction pageImages as [|p ps IH]; [reflexivity|].
      simpl. rewrite IH. f_equal. eapply pageOutcome_no_engine; eauto. }
    rewrite E.
    destruct (buildSearchablePdf_returns host Hworks texts lang)
      as (document & b64 & Hasm & Hsave & Hbuild & Hlen).
    exists document, b64. rewrite Hbuild. cbn [bind].
    repeat split; trivial.
    rewrite Hlen. unfold texts. rewrite length_replicate.
    clear E. clearbody pageImages. destruct pageImages; [congruence | simpl; lia].
Qed.

Lemma engine_failure_image_throws_pdf_converts_witness :
  convertToSearchablePdf noEngineHost
    oneImage = Some (Throw (JSError (js "language data not found"))) /\
  exists b64,
    convertToSearchablePdf noEngineHost
      twoPagePdf =
    Some (Return {| text := js "Page 1" ++ [10%N] ++ OCR_FAILED ++ [10; 10]%N ++
                            js "Page 2" ++ [10%N] ++ OCR_FAILED;
                    pdfBase64 := Some b64 |}).
Proof.
  split.
  - apply (engine_failure_image_throws_pdf_converts
             noEngineHost oneImage
             (JSError (js "language data not found")) eq_refl).
    + split; [intros a b H; exact H | intros z _; apply Qeq_refl].
    + intros j n. symmetry. apply Permutation_rev.
    + now left.
  - destruct (engine_failure_image_throws_pdf_converts
                noEngineHost twoPagePdf
                (JSError (js "language data not found")) eq_refl) as [_ Hpdf].
    + split; [intros a b H; exact H | intros z _; apply Qeq_refl].
    + intros j n. symmetry. apply Permutation_rev.
    + destruct (Hpdf eq_refl) as (document & b64 & Hconv & _).
      * vm_compute. discriminate.
      * split; [|split].
        -- eexists. split; [reflexivity | intros; reflexivity].
        -- intros options. reflexivity.
        -- intros pdf. eexists. reflexivity.
      * exists b64. exact Hconv.
Defined.

(** X13. Every document is set in the one font that [loadFontData]
    gives, whatever the language: when the font cannot be loaded, no
    conversion returns. A PDF that gave page images has all its pages
    recognized and then throws the error of the font; a direct recognition
    throws its own error when it fails, and the error of the font
    otherwise. The direct recognition is that of the request's bytes as
    received, for an image, and of what the loading of the document left of
    them, for a PDF that gave no page image. *)
Theorem font_failure_fails_every_conversion
  (host : Host) (params : Params.t) (e : Error) :
  let lang := requestLang params in
  let bytes := Params.bytes params in
  let pageImages := rasterizePdfPages host bytes None (Some lang) in
  awaitFontData host = Throw e ->
  RoundsLikeDouble (roundSum host) ->
  (forall j n, completionOrder host j n ≡ₚ seq 0 n) ->
  (exists e', convertToSearchablePdf host params = Some (Throw e')) /\
  (requestIsPdf host params = true -> pageImages <> [] ->
   convertToSearchablePdf host params = Some (Throw e)) /\
  (requestIsPdf host params = false ->
   (forall e', ocrImage host bytes lang = Throw e' ->
               convertToSearchablePdf host params = Some (Throw e')) /\
   (forall t, ocrImage host bytes lang = Return t ->
              convertToSearchablePdf host params = Some (Throw e))) /\
  (requestIsPdf host params = true -> pageImages = [] ->
   (forall e', ocrImage host (dataAfterGetDocument host bytes) lang = Throw e' ->
               convertToSearchablePdf host params = Some (Throw e')) /\
   (forall t, ocrImage host (dataAfterGetDocument host bytes) lang = Return t ->
              convertToSearchablePdf host params = Some (Throw e))).
Proof.
  intros lang bytes pageImages Hfont Hrnd Horders.
  assert (Hpdf : requestIsPdf host params = true -> pageImages <> [] ->
                 convertToSearchablePdf host params = Some (Throw e)).
  { intros HisPdf Hne.
    rewrite (convert_pages host params HisPdf Hne Hrnd Horders).
    now rewrite (buildSearchablePdf_no_font host _ _ e Hfont). }
  assert (Himage : requestIsPdf host params = false ->
                   convertToSearchablePdf host params =
                   Some match ocrImage host bytes lang with
                        | Return _ => Throw e
                        | Throw e' => Throw e'
                        end).
  { intros HisPdf. rewrite (convert_image host params HisPdf).
    now rewrite (recognizeDirectly_no_font host _ _ e Hfont). }
  assert (Hfallback : requestIsPdf host params = true -> pageImages = [] ->
                      convertToSearchablePdf host params =
                      Some match ocrImage host (dataAfterGetDocument host bytes) lang with
                           | Return _ => Throw e
                           | Throw e' => Throw e'
                           end).
  { intros HisPdf Hnone. rewrite (convert_no_pages host params HisPdf Hnone).
    now rewrite (recognizeDirectly_no_font host _ _ e Hfont). }
  split; [|split; [exact Hpdf | split]].
  - destruct (requestIsPdf host params) eqn:HisPdf.
    + destruct (decide (pageImages = [])) as [Hnone | Hne].
      * rewrite (Hfallback eq_refl Hnone).
        destruct (ocrImage host (dataAfterGetDocument host bytes) lang); eauto.
      * rewrite (Hpdf eq_refl Hne). eauto.
    + rewrite (Himage eq_refl). destruct (ocrImage host bytes lang); eauto.
  - intros HisPdf. rewrite (Himage HisPdf). split; [intros e' Ho | intros t Ho];
      now rewrite Ho.
  - intros HisPdf Hnone. rewrite (Hfallback HisPdf Hnone).
    split; [intros e' Ho | intros t Ho]; now rewrite Ho.
Qed.

Lemma font_failure_fails_every_conversion_witness :
  convertToSearchablePdf offlineHost
    threePages = Some (Throw (JSError (js "Font download failed: 404"))) /\
  convertToSearchablePdf offlineHost
    amharicScan = Some (Throw (JSError (js "Font download failed: 404"))) /\
  convertToSearchablePdf offlineHost
    scanSentAsPdf = Some (Throw (JSError (js "Font download failed: 404"))).
Proof.
  assert (Hrnd : RoundsLikeDouble
                   (roundSum offlineHost))
    by (split; [intros a b H; exact H | intros z _; apply Qeq_refl]).
  assert (Horders : forall j n,
             completionOrder offlineHost
               j n ≡ₚ seq 0 n)
    by (intros j n; symmetry; apply Permutation_rev).
  split; [|split].
  - destruct (font_failure_fails_every_conversion offlineHost threePages
                (JSError (js "Font download failed: 404")) eq_refl Hrnd Horders)
      as (_ & Hpages & _).
    apply (Hpages eq_refl). vm_compute. discriminate.
  - destruct (font_failure_fails_every_conversion offlineHost amharicScan
                (JSError (js "Font download failed: 404")) eq_refl Hrnd Horders)
      as (_ & _ & Himage & _).
    apply (proj2 (Himage eq_refl) (js "AB")). reflexivity.
  - destruct (font_failure_fails_every_conversion offlineHost scanSentAsPdf
                (JSError (js "Font download failed: 404")) eq_refl Hrnd Horders)
      as (_ & _ & _ & Hfallback).
    apply (proj2 (Hfallback eq_refl eq_refl) []). reflexivity.
Defined.
(** ** The API route *)

Section RouteFacts.

Variable host : Host.
Variable instanceofError : Error -> bool.

Lemma supportedType_spec (file : Route.File) :
  negb (startsWith (Route.type file) (js "image/"))
  && negb (bool_decide (Route.type file = js "application/pdf"))
  = negb (supportedType file).
Proof. unfold supportedType. now rewrite negb_orb. Qed.

(** The route on a form whose file it refuses: the type is checked before
    the size. *)
Lemma POST_refused (formData : Route.FormData) (file : Route.File) :
  Route.get formData (js "file") = Some (Route.EntryFile file) ->
  supportedType file = false \/ tooLarge file = true ->
  Route.POST host instanceofError {| Route.formData := Return formData |} =
  Some (if supportedType file
        then Route.errorResponse (js "File is too large. Max size is 10MB.") 413
        else Route.errorResponse
               (js "Only images or PDFs are supported for on-device OCR.") 415).
Proof.
  intros Hfile Hbad. unfold Route.POST, Route.attempt. cbn [Route.formData].
  cbv zeta. rewrite Hfile, supportedType_spec.
  destruct (supportedType file); cbn [negb]; [|reflexivity].
  destruct Hbad as [Hbad | Hbad]; [discriminate|].
  unfold tooLarge in Hbad. now rewrite Hbad.
Qed.

(** The route on a form whose file it accepts: the file is read and
    converted, under the tag of the form. *)
Lemma POST_accepted (formData : Route.FormData) (file : Route.File) :
  Route.get formData (js "file") = Some (Route.EntryFile file) ->
  supportedType file = true -> tooLarge file = false ->
  Route.POST host instanceofError {| Route.formData := Return formData |} =
  match Route.arrayBuffer file with
  | Throw e =>
      Some (Route.errorResponse
              (if instanceofError e then Route.message e else js "Unexpected error") 500)
  | Return bytes =>
      match convertToSearchablePdf host
              (paramsOf file bytes (Route.get formData (js "lang"))) with
      | None => None
      | Some (Throw e) =>
          Some (Route.errorResponse
                  (if instanceofError e then Route.message e else js "Unexpected error")
                  500)
      | Some (Return result) =>
          Some {| Route.body := resultBody (Route.name file) result;
                  Route.status := 200 |}
      end
  end.
Proof.
  intros Hfile Htype Hsize. unfold Route.POST, Route.attempt. cbn [Route.formData].
  cbv zeta. rewrite Hfile, supportedType_spec, Htype. cbn [negb].
  unfold tooLarge in Hsize. rewrite Hsize.
  destruct (Route.arrayBuffer file) as [bytes|e]; [|reflexivity].
  unfold paramsOf.
  destruct (convertToSearchablePdf host _) as [[result|e]|]; reflexivity.
Qed.

Lemma POST_no_file (formData : Route.FormData) :
  (forall file, Route.get formData (js "file") <> Some (Route.EntryFile file)) ->
  Route.POST host instanceofError {| Route.formData := Return formData |} =
  Some (Route.errorResponse (js "No file uploaded.") 400).
Proof.
  intros Hnone. unfold Route.POST, Route.attempt. cbn [Route.formData]. cbv zeta.
  destruct (Route.get formData (js "file")) as [[s|file]|]; trivial.
  now elim (Hnone file).
Qed.

End RouteFacts.

(** Every conversion completes. *)
Lemma convert_completes (host : Host) (params : Params.t) :
  RoundsLikeDouble (roundSum host) ->
  (forall j n, completionOrder host j n ≡ₚ seq 0 n) ->
  exists outcome, convertToSearchablePdf host params = Some outcome.
Proof.
  intros Hrnd Horders.
  destruct (convert_cases host params)
    as [[_ Hconv] | [(_ & _ & Hconv) | [HisPdf Hne]]]; [eauto | eauto |].
  rewrite (convert_pages host params HisPdf Hne Hrnd Horders). eauto.
Qed.

(** A conversion that returns carries a PDF. *)
Lemma convert_pdfBase64 (host : Host) (params : Params.t) (result : OcrResult) :
  convertToSearchablePdf host params = Some (Return result) ->
  exists b64, pdfBase64 result = Some b64.
Proof.
  assert (Hdirect : forall bytes lang,
             recognizeDirectly host bytes lang = Return result ->
             exists b64, pdfBase64 result = Some b64).
  { intros bytes lang Hr.
    destruct (recognizeDirectly_result host _ _ _ Hr) as (b64 & Hb & _). eauto. }
  unfold convertToSearchablePdf. cbv zeta.
  destruct (requestIsPdf host params).
  - destruct (rasterizePdfPages host _ None _) as [|p ps].
    + intros [= H]. now apply Hdirect in H.
    + destruct (batchLoop host _ _ _ _ _ _ _) as [[texts|e]|]; try discriminate.
      destruct (buildSearchablePdf host texts _) as [b64|e]; cbn [bind];
        [|discriminate].
      intros [= <-]. simpl. eauto.
  - intros [= H]. now apply Hdirect in H.
Qed.

(** X14. The route refuses a request without looking at the file
    contents, in this order: no file under "file" (none, or a string) is
    answered 400; a file whose type neither starts with "image/" nor is
    "application/pdf" is answered 415, however large it is; a file of a
    supported type of more than 10 MiB is answered 413, and one of exactly
    10 MiB is not. None of these answers depends on the pipeline. *)
Theorem POST_refuses_in_order
  (host : Host) (instanceofError : Error -> bool) (formData : Route.FormData) :
  let response :=
    Route.POST host instanceofError {| Route.formData := Return formData |} in
  ((forall file, Route.get formData (js "file") <> Some (Route.EntryFile file)) ->
   response = Some (Route.errorResponse (js "No file uploaded.") 400)) /\
  (forall file,
      Route.get formData (js "file") = Some (Route.EntryFile file) ->
      (supportedType file = false ->
       response =
       Some (Route.errorResponse
               (js "Only images or PDFs are supported for on-device OCR.") 415)) /\
      (supportedType file = true -> (10485760 < Route.size file)%N ->
       response =
       Some (Route.errorResponse (js "File is too large. Max size is 10MB.") 413)) /\
      (supportedType file = true -> (Route.size file <= 10485760)%N ->
       forall r, response = Some r -> Route.status r = 200 \/ Route.status r = 500)).
Proof.
  intros response. split; [apply POST_no_file|].
  intros file Hfile. split; [|split].
  - intros Htype. unfold response.
    rewrite (POST_refused host instanceofError formData file Hfile (or_introl Htype)).
    now rewrite Htype.
  - intros Htype Hsize. unfold response.
    assert (Hlarge : tooLarge file = true) by (unfold tooLarge; now apply N.ltb_lt).
    rewrite (POST_refused host instanceofError formData file Hfile (or_intror Hlarge)).
    now rewrite Htype.
  - intros Htype Hsize r. unfold response.
    assert (Hsmall : tooLarge file = false) by (unfold tooLarge; now apply N.ltb_ge).
    rewrite (POST_accepted host instanceofError formData file Hfile Htype Hsmall).
    destruct (Route.arrayBuffer file) as [bytes|e]; [|intros [= <-]; now right].
    destruct (convertToSearchablePdf host _) as [[result|e]|]; [| |discriminate];
      intros [= <-]; [now left | now right].
Qed.

(** What the route answers to a form: a 200 with the result of the
    conversion of its file, or one of four statuses with an error. *)
Lemma POST_answer
  (host : Host) (instanceofError : Error -> bool) (formData : Route.FormData) :
  RoundsLikeDouble (roundSum host) ->
  (forall j n, completionOrder host j n ≡ₚ seq 0 n) ->
  exists response,
    Route.POST host instanceofError {| Route.formData := Return formData |}
    = Some response /\
    (Route.status response = 200 /\
     (exists file bytes result b64,
         Route.get formData (js "file") = Some (Route.EntryFile file) /\
         Route.arrayBuffer file = Return bytes /\
         convertToSearchablePdf host
           (paramsOf file bytes (Route.get formData (js "lang")))
         = Some (Return result) /\
         pdfBase64 result = Some b64 /\
         Route.body response = resultBody (Route.name file) result) \/
     Route.status response ∈ [400; 413; 415; 500] /\
     exists error, Route.body response = errorBody error).
Proof.
  intros Hrnd Horders.
  assert (Herr : forall msg code (P : Prop),
             code ∈ [400; 413; 415; 500] ->
             P \/
             Route.status (Route.errorResponse msg code) ∈ [400; 413; 415; 500] /\
             exists error, Route.body (Route.errorResponse msg code) = errorBody error).
  { intros msg code P Hcode. right. split; [exact Hcode | now exists msg]. }
  destruct (Route.get formData (js "file")) as [[s|file]|] eqn:Hfile.
  - eexists. split; [apply POST_no_file; congruence|].
    apply Herr. rewrite !elem_of_cons. auto.
  - destruct (supportedType file) eqn:Htype; [destruct (tooLarge file) eqn:Hsize|].
    + rewrite (POST_refused host instanceofError formData file Hfile (or_intror Hsize)).
      rewrite Htype. eexists. split; [reflexivity|].
      apply Herr. rewrite !elem_of_cons. auto.
    + rewrite (POST_accepted host instanceofError formData file Hfile Htype Hsize).
      destruct (Route.arrayBuffer file) as [bytes|e] eqn:Hbytes.
      * destruct (convert_completes host
                    (paramsOf file bytes (Route.get formData (js "lang"))) Hrnd Horders)
          as [[result|e] Hconv]; rewrite Hconv.
        -- eexists. split; [reflexivity|].
           left. split; [reflexivity|].
           destruct (convert_pdfBase64 host _ _ Hconv) as [b64 Hb64].
           exists file, bytes, result, b64. repeat split; trivial.
        -- eexists. split; [reflexivity|].
           apply Herr. rewrite !elem_of_cons. auto.
      * eexists. split; [reflexivity|].
        apply Herr. rewrite !elem_of_cons. auto.
    + rewrite (POST_refused host instanceofError formData file Hfile (or_introl Htype)).
      rewrite Htype. eexists. split; [reflexivity|].
      apply Herr. rewrite !elem_of_cons. auto.
  - eexists. split; [apply POST_no_file; congruence|].
    apply Herr. rewrite !elem_of_cons. auto.
Qed.

(** X15. The route answers whenever the calls it awaits settle, with one
    of the statuses 200, 400, 413, 415 and 500: whatever is thrown while
    the form is parsed, the file read or the document converted becomes a
    500 that carries the message of the error. An answer other than 200
    carries an [error] and nothing else; a 200 carries the name of the file
    and the text and the PDF of the conversion, the PDF never being
    null. *)
Theorem POST_always_answers
  (host : Host) (instanceofError : Error -> bool) (request : Route.Request) :
  let caught e :=
    Route.errorResponse
      (if instanceofError e then Route.message e else js "Unexpected error") 500 in
  RoundsLikeDouble (roundSum host) ->
  (forall j n, completionOrder host j n ≡ₚ seq 0 n) ->
  exists response,
    Route.POST host instanceofError request = Some response /\
    Route.status response ∈ [200; 400; 413; 415; 500] /\
    (Route.status response <> 200 ->
     exists error, Route.body response = errorBody error) /\
    (Route.status response = 200 ->
     exists formData file bytes result b64,
       Route.formData request = Return formData /\
       Route.get formData (js "file") = Some (Route.EntryFile file) /\
       Route.arrayBuffer file = Return bytes /\
       convertToSearchablePdf host
         (paramsOf file bytes (Route.get formData (js "lang")))
       = Some (Return result) /\
       pdfBase64 result = Some b64 /\
       Route.body response = resultBody (Route.name file) result) /\
    (forall e, Route.formData request = Throw e -> response = caught e) /\
    (forall formData file,
        Route.formData request = Return formData ->
        Route.get formData (js "file") = Some (Route.EntryFile file) ->
        supportedType file = true ->
        tooLarge file = false ->
        (forall e, Route.arrayBuffer file = Throw e -> response = caught e) /\
        (forall bytes,
            Route.arrayBuffer file = Return bytes ->
            (forall e,
                convertToSearchablePdf host
                  (paramsOf file bytes (Route.get formData (js "lang")))
                = Some (Throw e) ->
                response = caught e) /\
            (forall result,
                convertToSearchablePdf host
                  (paramsOf file bytes (Route.get formData (js "lang")))
                = Some (Return result) ->
                response = {| Route.body := resultBody (Route.name file) result;
                              Route.status := 200 |}))).
Proof.
  intros caught Hrnd Horders. destruct request as [[formData|e]].
  - destruct (POST_answer host instanceofError formData Hrnd Horders)
      as (response & Hpost & Hshape).
    exists response. split; [exact Hpost|].
    assert (Haccepted :
              forall formData' file,
                Return formData = Return formData' ->
                Route.get formData' (js "file") = Some (Route.EntryFile file) ->
                supportedType file = true ->
                tooLarge file = false ->
                (forall e, Route.arrayBuffer file = Throw e -> response = caught e) /\
                (forall bytes,
                    Route.arrayBuffer file = Return bytes ->
                    (forall e,
                        convertToSearchablePdf host
                          (paramsOf file bytes (Route.get formData' (js "lang")))
                        = Some (Throw e) ->
                        response = caught e) /\
                    (forall result,
                        convertToSearchablePdf host
                          (paramsOf file bytes (Route.get formData' (js "lang")))
                        = Some (Return result) ->
                        response =
                        {| Route.body := resultBody (Route.name file) result;
                           Route.status := 200 |}))).
    { intros formData' file [= <-] Hfile Htype Hsize.
      pose proof (POST_accepted host instanceofError formData file Hfile Htype Hsize)
        as Hacc.
      rewrite Hpost in Hacc. split.
      - intros e He. rewrite He in Hacc. now injection Hacc.
      - intros bytes Hbytes. rewrite Hbytes in Hacc.
        split; [intros e Hc | intros result Hc]; rewrite Hc in Hacc;
          now injection Hacc. }
    destruct Hshape as [[Hok Hresult] | [Hcode [error Hbody]]].
    + split; [rewrite Hok; apply list_elem_of_here|].
      split; [congruence|]. split; [|split; [discriminate | exact Haccepted]].
      intros _. destruct Hresult as (file & bytes & result & b64 & H).
      exists formData, file, bytes, result, b64. split; [reflexivity | exact H].
    + split; [now apply list_elem_of_further|].
      split; [intros _; now exists error|].
      split; [|split; [discriminate | exact Haccepted]].
      intros Hok. exfalso. rewrite Hok in Hcode. revert Hcode.
      rewrite !elem_of_cons, elem_of_nil. lia.
  - eexists. split; [reflexivity|]. simpl.
    split; [do 4 apply list_elem_of_further; apply list_elem_of_here|].
    split; [intros _; eexists; reflexivity|].
    split; [discriminate|]. split; [now intros e' [= <-]|].
    intros formData file [=].
Qed.

Lemma POST_always_answers_witness :
  (exists response,
      Route.POST toyHost (fun _ => true)
        {| Route.formData := Return (formOf pdfUpload (js "eng")) |} = Some response /\
      Route.status response ∈ [200; 400; 413; 415; 500]) /\
  Route.POST toyHost (fun _ => true)
    {| Route.formData := Return (formOf unreadableUpload (js "eng")) |} =
  Some (Route.errorResponse (js "The file could not be read") 500).
Proof.
  split.
  - destruct (POST_always_answers toyHost (fun _ => true)
                {| Route.formData := Return (formOf pdfUpload (js "eng")) |}
                toyHost_rounds toyHost_orders)
      as (response & Hpost & Hstatus & _).
    exists response. split; [exact Hpost | exact Hstatus].
  - destruct (POST_always_answers toyHost (fun _ => true)
                {| Route.formData := Return (formOf unreadableUpload (js "eng")) |}
                toyHost_rounds toyHost_orders)
      as (response & Hpost & _ & _ & _ & _ & Haccepted).
    rewrite Hpost. f_equal.
    exact (proj1 (Haccepted _ unreadableUpload eq_refl eq_refl eq_refl eq_refl)
             _ eq_refl).
Defined.

(** ** The language tag *)

Lemma requestLang_of_tag (params : Params.t) (tag : jsstring) :
  Params.lang params = Some tag -> tag <> [] -> trim tag = tag ->
  requestLang params = tag.
Proof.
  intros Hlang Hne Htrim. unfold requestLang. rewrite Hlang, Htrim.
  destruct tag; [congruence | reflexivity].
Qed.

Lemma requestLang_normalized (params : Params.t) :
  requestLang params <> [] /\ trim (requestLang params) = requestLang params.
Proof.
  unfold requestLang. destruct (Params.lang params) as [l|]; [|now split].
  destruct (truthy l && truthy (trim l)) eqn:E; [|now split].
  apply andb_prop in E as [_ E]. split; [|apply trim_idempotent].
  intros H. rewrite H in E. discriminate.
Qed.

Lemma langOf_normalized (langInput : option Route.FormDataEntryValue) :
  Route.langOf langInput <> [] /\ trim (Route.langOf langInput) = Route.langOf langInput.
Proof.
  unfold Route.langOf. destruct langInput as [[s|f]|]; try now split.
  destruct (truthy (trim s)) eqn:E; [|now split].
  split; [|apply trim_idempotent]. intros H. rewrite H in E. discriminate.
Qed.

(** X16. The language tag of a request is never empty and has no white
    space at either end. The route takes the "lang" entry of the form,
    trimmed, and "eng" when the entry is missing, is a file or is blank;
    the conversion normalizes the tag it is given in the same way, "eng"
    standing in for a missing or blank one, and so uses the tag of the
    route as it is. *)
Theorem language_tag_is_normalized
  (langInput : option Route.FormDataEntryValue) (params : Params.t) :
  let tag := Route.langOf langInput in
  (tag <> [] /\ trim tag = tag) /\
  (forall s, langInput = Some (Route.EntryString s) ->
             tag = if truthy (trim s) then trim s else js "eng") /\
  ((langInput = None \/ exists file, langInput = Some (Route.EntryFile file)) ->
   tag = js "eng") /\
  (forall file bytes, requestLang (paramsOf file bytes langInput) = tag) /\
  (requestLang params <> [] /\ trim (requestLang params) = requestLang params) /\
  (forall l, Params.lang params = Some l ->
             requestLang params = if truthy (trim l) then trim l else js "eng") /\
  (Params.lang params = None -> requestLang params = js "eng").
Proof.
  intros tag. split; [apply langOf_normalized|].
  split; [now intros s ->|]. split.
  { intros [-> | [file ->]]; reflexivity. }
  split.
  { intros file bytes. destruct (langOf_normalized langInput) as [Hne Htrim].
    now apply requestLang_of_tag. }
  split; [apply requestLang_normalized|]. split.
  - intros l Hl. unfold requestLang. rewrite Hl.
    destruct l as [|c l]; [reflexivity|]. reflexivity.
  - intros Hl. unfold requestLang. now rewrite Hl.
Qed.

(** ** The page *)

(** The page and the route make the same two checks, in the same order. *)
Lemma handleFileSelect_checks (file : Route.File) (others : list Route.File)
      (st : Page.Home) :
  Page.handleFileSelect (Some (file :: others)) st =
  {| Page.upload :=
       if negb (supportedType file)
       then Page.error (js "Only images or PDFs are supported (PNG, JPG, PDF).")
       else if tooLarge file
            then Page.error (js "File is too large. Max size is 10MB.")
            else Page.ready file;
     Page.previewName :=
       if supportedType file && negb (tooLarge file)
       then Some (Route.name file) else None;
     Page.lang := Page.lang st |}.
Proof.
  unfold Page.handleFileSelect. cbv zeta. rewrite supportedType_spec.
  fold (tooLarge file).
  destruct (supportedType file); simpl; [|reflexivity].
  now destruct (tooLarge file).
Qed.

Lemma get_formOf (file : Route.File) (lang : jsstring) :
  Route.get (formOf file lang) (js "file") = Some (Route.EntryFile file) /\
  Route.get (formOf file lang) (js "lang") = Some (Route.EntryString lang).
Proof. split; reflexivity. Qed.

(** X17. The page and the route accept the same files. A file the page
    takes (it becomes the file to convert and its name the preview) is
    never answered 415 or 413 by the route; a file the page refuses for
    its type is one the route would answer 415, and a file the page
    refuses for its size is one the route would answer 413. Choosing no
    file leaves the page as it was. *)
Theorem page_and_route_accept_the_same_files
  (host : Host) (serverError : Error -> bool) (file : Route.File)
  (others : list Route.File) (st : Page.Home) :
  let st' := Page.handleFileSelect (Some (file :: others)) st in
  let response :=
    Route.POST host serverError
      {| Route.formData := Return (formOf file (Page.lang st')) |} in
  Page.lang st' = Page.lang st /\
  Page.handleFileSelect None st = st /\
  Page.handleFileSelect (Some []) st = st /\
  (Page.upload st' = Page.ready file /\
   Page.previewName st' = Some (Route.name file) /\
   (forall r, response = Some r -> Route.status r = 200 \/ Route.status r = 500) \/
   Page.upload st' = Page.error (js "Only images or PDFs are supported (PNG, JPG, PDF).") /\
   Page.previewName st' = None /\
   response = Some (Route.errorResponse
                      (js "Only images or PDFs are supported for on-device OCR.") 415) \/
   Page.upload st' = Page.error (js "File is too large. Max size is 10MB.") /\
   Page.previewName st' = None /\
   response = Some (Route.errorResponse (js "File is too large. Max size is 10MB.") 413)).
Proof.
  intros st' response.
  assert (Est : st' = _) by apply handleFileSelect_checks.
  destruct (get_formOf file (Page.lang st')) as [Hfile Hlang].
  split; [now rewrite Est|]. split; [reflexivity|]. split; [reflexivity|].
  destruct (supportedType file) eqn:Htype; [destruct (tooLarge file) eqn:Hsize|].
  - right. right. rewrite Est at 1 2. simpl. repeat split.
    unfold response.
    rewrite (POST_refused host serverError _ file Hfile (or_intror Hsize)).
    now rewrite Htype.
  - left. rewrite Est at 1 2. simpl. repeat split.
    intros r. unfold response.
    rewrite (POST_accepted host serverError _ file Hfile Htype Hsize).
    destruct (Route.arrayBuffer file) as [bytes|e]; [|intros [= <-]; now right].
    destruct (convertToSearchablePdf host _) as [[result|e]|]; [| |discriminate];
      intros [= <-]; [now left | now right].
  - right. left. rewrite Est at 1 2. simpl. repeat split.
    unfold response.
    rewrite (POST_refused host serverError _ file Hfile (or_introl Htype)).
    now rewrite Htype.
Qed.

(** The answer of the route as the page receives it. *)
Lemma handleSubmit_over_http
  (host : Host) (serverError clientError : Error -> bool)
  (st : Page.Home) (file : Route.File) (response : Route.NextResponse) :
  (Page.upload st = Page.ready file \/
   exists text pdfBase64, Page.upload st = Page.done file text pdfBase64) ->
  Route.POST host serverError
    {| Route.formData := Return (formOf file (Page.lang st)) |} = Some response ->
  Page.handleSubmit (Page.overHttp host serverError) clientError st =
  [Page.uploading file;
   if (200 <=? Route.status response) && (Route.status response <=? 299)
   then Page.done file (Json.text (Route.body response))
          (Json.pdfBase64 (Route.body response))
   else Page.error (match Json.error (Route.body response) with
                    | Some (c :: m) => c :: m
                    | _ => js "Upload failed"
                    end)].
Proof.
  intros Hst Hpost. unfold Page.handleSubmit, Page.overHttp.
  assert (E : match Page.upload st with
              | Page.ready f | Page.done f _ _ => Some f
              | _ => None
              end = Some file).
  { destruct Hst as [-> | (t & p & ->)]; reflexivity. }
  destruct (Page.upload st) as [|f|f|m|f t p]; try discriminate E;
    injection E as ->; fold (formOf file (Page.lang st)); rewrite Hpost;
    cbn [Page.ok Page.json];
    now destruct ((200 <=? Route.status response) && (Route.status response <=? 299)).
Qed.

(** X18. Submitting shows the answer of the route. With a file ready (or
    a finished conversion to repeat) the page goes to "uploading" and then,
    once, to "done" or to "error": "done" with the text and the PDF of the
    conversion when the route answers 200, and "error" with the message of
    the route otherwise ("Upload failed" when that message is empty). It
    never stays "uploading". In any other state submitting does nothing:
    nothing is sent and the state is not set. *)
Theorem handleSubmit_shows_the_answer
  (host : Host) (serverError clientError : Error -> bool) (st : Page.Home) :
  let sets := Page.handleSubmit (Page.overHttp host serverError) clientError st in
  RoundsLikeDouble (roundSum host) ->
  (forall j n, completionOrder host j n ≡ₚ seq 0 n) ->
  match Page.upload st with
  | Page.ready file | Page.done file _ _ =>
      exists response final,
        Route.POST host serverError
          {| Route.formData := Return (formOf file (Page.lang st)) |} = Some response /\
        sets = [Page.uploading file; final] /\
        (Route.status response = 200 ->
         exists result b64,
           pdfBase64 result = Some b64 /\
           Route.body response = resultBody (Route.name file) result /\
           final = Page.done file (Some (text result)) (Some b64)) /\
        (Route.status response <> 200 ->
         exists message,
           Route.body response = errorBody message /\
           final = Page.error (if truthy message then message else js "Upload failed"))
  | _ => sets = []
  end.
Proof.
  intros sets Hrnd Horders.
  assert (Hmain : forall file,
             (Page.upload st = Page.ready file \/
              exists text pdfBase64, Page.upload st = Page.done file text pdfBase64) ->
             exists response final,
               Route.POST host serverError
                 {| Route.formData := Return (formOf file (Page.lang st)) |}
               = Some response /\
               sets = [Page.uploading file; final] /\
               (Route.status response = 200 ->
                exists result b64,
                  pdfBase64 result = Some b64 /\
                  Route.body response = resultBody (Route.name file) result /\
                  final = Page.done file (Some (text result)) (Some b64)) /\
               (Route.status response <> 200 ->
                exists message,
                  Route.body response = errorBody message /\
                  final = Page.error (if truthy message then message
                                      else js "Upload failed"))).
  { intros file Hst.
    destruct (POST_answer host serverError (formOf file (Page.lang st)) Hrnd Horders)
      as (response & Hpost & Hshape).
    exists response. eexists. split; [exact Hpost|].
    split; [apply (handleSubmit_over_http host serverError clientError st file response
                     Hst Hpost)|].
    destruct Hshape as [[Hok Hresult] | [Hcode [message Hbody]]].
    - destruct Hresult as (file' & bytes & result & b64 & Hfile & _ & _ & Hb64 & Hbody).
      injection Hfile as <-.
      rewrite Hok. simpl. split; [|congruence].
      intros _. exists result, b64. rewrite Hbody. simpl. rewrite Hb64. auto.
    - assert (Hnot : (200 <=? Route.status response) && (Route.status response <=? 299)
                     = false).
      { revert Hcode. rewrite !elem_of_cons, elem_of_nil.
        intros [-> | [-> | [-> | [-> | []]]]]; reflexivity. }
      rewrite Hnot. split.
      + intros Hok. exfalso. rewrite Hok in Hnot. discriminate.
      + intros _. exists message. rewrite Hbody. simpl. split; [reflexivity|].
        now destruct message. }
  destruct (Page.upload st) as [|f|f|m|f t p] eqn:E;
    try (unfold sets, Page.handleSubmit; now rewrite E).
  - apply Hmain. now left.
  - apply Hmain. right. eauto.
Qed.

Lemma handleSubmit_shows_the_answer_witness :
  Page.handleSubmit (Page.overHttp toyHost (fun _ => true)) (fun _ => true) readyPage =
  [Page.uploading pngUpload; Page.done pngUpload (Some (js "AB")) (Some (js "1"))].
Proof.
  destruct (handleSubmit_shows_the_answer toyHost (fun _ => true) (fun _ => true)
              readyPage toyHost_rounds toyHost_orders)
    as (response & final & Hpost & Hsets & Hok & _).
  rewrite Hsets. f_equal. f_equal.
  vm_compute in Hpost. injection Hpost as <-.
  destruct (Hok eq_refl) as (result & b64 & Hb64 & Hbody & ->).
  simpl in Hbody. injection Hbody as Htext Hpdf. rewrite Hb64 in Hpdf.
  now rewrite <- Htext, <- Hpdf.
Defined.

(** X20. A file the page refuses is never sent: after a file of an
    unsupported type, or of more than 10 MiB, has been chosen, whatever
    the page showed before, submitting sends nothing and sets no state,
    until another file is chosen. *)
Theorem refused_file_is_never_sent
  (fetch : Route.FormData -> option (Completion Page.FetchResponse))
  (clientError : Error -> bool)
  (file : Route.File) (others : list Route.File) (st : Page.Home) :
  let st' := Page.handleFileSelect (Some (file :: others)) st in
  supportedType file = false \/ tooLarge file = true ->
  (exists message, Page.upload st' = Page.error message) /\
  Page.previewName st' = None /\
  Page.handleSubmit fetch clientError st' = [].
Proof.
  intros st' Hbad.
  assert (Est : st' = _) by apply handleFileSelect_checks.
  assert (Hupload : exists message, Page.upload st' = Page.error message).
  { rewrite Est. simpl. destruct Hbad as [-> | Hlarge]; simpl; [eauto|].
    rewrite Hlarge. destruct (supportedType file); simpl; eauto. }
  split; [exact Hupload|]. split.
  - rewrite Est. simpl. destruct Hbad as [-> | ->]; [reflexivity|].
    now rewrite andb_false_r.
  - destruct Hupload as [message Hupload].
    unfold Page.handleSubmit. now rewrite Hupload.
Qed.

Lemma refused_file_is_never_sent_witness :
  Page.handleSubmit (Page.overHttp toyHost (fun _ => true)) (fun _ => true)
    (Page.handleFileSelect (Some [textUpload]) readyPage) = [].
Proof.
  apply (refused_file_is_never_sent (Page.overHttp toyHost (fun _ => true))
           (fun _ => true) textUpload [] readyPage).
  left. reflexivity.
Defined.
